(** * Building-types demo: a shallow embedding of the page controller
    (Content/js/building-types.js) and of the data adapter
    (Content/js/data-adapter.js), with the properties of the specification
    stated and settled over it. *)

From Stdlib Require Import String Ascii ZArith List Bool Lia.
From stdpp Require Import base option list gmap strings pretty.

Local Open Scope string_scope.
#[local] Set Warnings "-register-all".

(** ** Configuration & constants (APP_CONFIG) *)

Module APP_CONFIG.
(* selectors.ids *)
Definition buildingMarkersSvg : string := "building-svg-markers".
Definition overlaySvg : string := "building-space-overlay-object".
(* selectors.classes *)
Definition markerGroup : string := "gh-marker-group".
Definition childVisible : string := "gh-child-visible".
Definition childHidden : string := "gh-child-hidden".
Definition markerDimmed : string := "gh-marker-dimmed".
(* svg *)
Definition pinsGroup : string := "K-12-Pins-Roof-Closed".
Definition buildingRoof : string := "school-roof".
(* constants.tabs *)
Definition tabs_overview : string := "overview".
End APP_CONFIG.

(** ** The DOM

    A document is a store of element nodes laid out in tree order; an element
    reference held by the script is a handle (the node's position in the
    store), and a mutation of an element is an update of the store at that
    handle.  Each node records its parent, so the children of an element are
    the nodes naming it as parent, in tree order. *)

Module Dom.

Abbreviation Handle := nat.

Record Node := mkNode {
  tagName : string;
  el_id : string;                        (* [el.id]; empty when the attribute is absent *)
  classList : list string;               (* the token set of [el.classList] *)
  attributes : list (string * string);   (* the remaining attributes *)
  style : list (string * string);        (* inline style declarations *)
  parent : option Handle;
}.

Abbreviation Document := (list Node).

Definition with_classList (f : list string → list string) (n : Node) : Node :=
  mkNode (tagName n) (el_id n) (f (classList n)) (attributes n) (style n) (parent n).

(** [DOMTokenList]: [contains], [add] and [remove]. *)
Definition contains (c : string) (cl : list string) : bool :=
  existsb (String.eqb c) cl.
Definition add (c : string) (cl : list string) : list string :=
  if contains c cl then cl else cl ++ [c].
Definition remove (c : string) (cl : list string) : list string :=
  List.filter (fun x => negb (String.eqb c x)) cl.

Definition classList_contains (c : string) (n : Node) : bool :=
  contains c (classList n).
Definition classList_add (c : string) : Node → Node := with_classList (add c).
Definition classList_remove (c : string) : Node → Node := with_classList (remove c).

(** [doc.getElementById(i)]: the first element in tree order whose id is
    [i]; an empty id names no element. *)
Definition getElementById (doc : Document) (i : string) : option Handle :=
  if String.eqb i "" then None
  else fst <$> list_find (λ n, el_id n = i) doc.

(** [doc.querySelector(tag)] for a type selector. *)
Definition querySelector (doc : Document) (tag : string) : option Handle :=
  fst <$> list_find (λ n, tagName n = tag) doc.

(** [Array.from(el.children).filter(c => c.tagName === tag)]. *)
Definition is_child_with_tag (doc : Document) (h : Handle) (tag : string)
    (i : Handle) : bool :=
  match doc !! i with
  | Some n => bool_decide (parent n = Some h) && String.eqb (tagName n) tag
  | None => false
  end.
Definition children_with_tag (doc : Document) (h : Handle) (tag : string)
    : list Handle :=
  List.filter (is_child_with_tag doc h tag) (seq 0 (length doc)).

End Dom.
Import Dom.

(** ** The host page

    The page is addressed only through [document.getElementById]; it is the
    finite map from element id to the state of that element.  An [<object>]
    element carries the SVG document it has loaded, if any. *)

Record PageElement := mkPageElement {
  pe_classList : list string;
  pe_data : option string;                 (* the [data] attribute *)
  contentDocument : option Document;
}.

Abbreviation Page := (gmap string PageElement).

Definition with_contentDocument (d : Document) (e : PageElement) : PageElement :=
  mkPageElement (pe_classList e) (pe_data e) (Some d).

(** ** View layer (class SpaceView) *)

Module SpaceView.

(** The container of the marker groups: the pins group, else the root
    drawing surface. *)
Definition markerContainer (doc : Document) : option Handle :=
  match getElementById doc APP_CONFIG.pinsGroup with
  | Some c => Some c
  | None => querySelector doc "svg"
  end.

(** JavaScript truthiness of an id-or-null argument. *)
Definition truthy (activeId : option string) : bool :=
  match activeId with
  | Some s => negb (String.eqb s "")
  | None => false
  end.

(** [group.id !== activeId]. *)
Definition differs (gid : string) (activeId : option string) : bool :=
  match activeId with
  | Some s => negb (String.eqb gid s)
  | None => true
  end.

(** The body of the [groups.forEach] callback of [updateMarkerVisibility]. *)
Definition dimGroup (activeId : option string) (doc : Document) (group : Handle)
    : Document :=
  match doc !! group with
  | None => doc
  | Some g =>
    if String.eqb (el_id g) APP_CONFIG.buildingRoof then doc
    else if truthy activeId && differs (el_id g) activeId then
      if negb (classList_contains APP_CONFIG.markerDimmed g)
      then alter (classList_add APP_CONFIG.markerDimmed) group doc
      else doc
    else
      if classList_contains APP_CONFIG.markerDimmed g
      then alter (classList_remove APP_CONFIG.markerDimmed) group doc
      else doc
  end.

Definition updateMarkerVisibility (activeId : option string) (page : Page) : Page :=
  match page !! APP_CONFIG.buildingMarkersSvg with
  | None => page
  | Some svgObj =>
    match contentDocument svgObj with
    | None => page
    | Some doc =>
      match markerContainer doc with
      | None => page
      | Some container =>
        let groups := children_with_tag doc container "g" in
        let doc' := foldl (dimGroup activeId) doc groups in
        <[APP_CONFIG.buildingMarkersSvg := with_contentDocument doc' svgObj]> page
      end
    end
  end.


(** First child (pin): visible. *)
Definition showChild (doc : Document) (child : Handle) : Document :=
  alter (classList_remove APP_CONFIG.childHidden) child
    (alter (classList_add APP_CONFIG.childVisible) child doc).

(** Subsequent children (labels, popovers): hidden. *)
Definition hideChild (doc : Document) (child : Handle) : Document :=
  alter (classList_remove APP_CONFIG.childVisible) child
    (alter (classList_add APP_CONFIG.childHidden) child doc).

(** The body of the [groups.forEach] callback of [initMarkerVisibility]. *)
Definition initGroup (doc : Document) (group : Handle) : Document :=
  match doc !! group with
  | None => doc
  | Some g =>
    if String.eqb (el_id g) APP_CONFIG.buildingRoof then doc
    else
      let doc := alter (classList_add APP_CONFIG.markerGroup) group doc in
      match children_with_tag doc group "g" with
      | [] => doc
      | first :: rest => foldl hideChild (showChild doc first) rest
      end
  end.

(** [initMarkerVisibility(doc)]; a null [doc] and a missing container are
    no-ops. *)
Definition initMarkerVisibility (doc : option Document) : option Document :=
  match doc with
  | None => None
  | Some doc =>
    match markerContainer doc with
    | None => Some doc
    | Some container =>
      Some (foldl initGroup doc (children_with_tag doc container "g"))
    end
  end.

(** [replaceLandingSvg(markerImg)]: show the overlay with the space's
    image, hide the plain markers layer. *)
Definition replaceLandingSvg (markerImg : string) (page : Page) : Page :=
  let page :=
    match page !! APP_CONFIG.overlaySvg with
    | Some overlay =>
      <[APP_CONFIG.overlaySvg :=
          mkPageElement (add "is-visible" (pe_classList overlay)) (Some markerImg)
                        (contentDocument overlay)]> page
    | None => page
    end in
  match page !! APP_CONFIG.buildingMarkersSvg with
  | Some markersLayer =>
    <[APP_CONFIG.buildingMarkersSvg :=
        mkPageElement (add "is-hidden" (pe_classList markersLayer))
                      (pe_data markersLayer) (contentDocument markersLayer)]> page
  | None => page
  end.

End SpaceView.

(** ** Model layer (class SpaceModel) *)

Record Product := mkProduct {
  product_id : string;
  product_title : string;
  slideImg : string;
  product_body : string;
  productDetailsUrl : string;
  product_bgImg : string;
}.

Record Overview := mkOverview {
  overview_title : string; overview_body : string; overview_bgImg : string }.

Record Narrative := mkNarrative {
  narrative_title : string; narrative_body : string; narrative_img : string }.

Record Space := mkSpace {
  space_id : string;
  space_name : string;
  systemName : string;
  markerImg : string;
  overview : Overview;
  systemEquipment : list Product;
  designNarrative : Narrative;
}.

Record PageMetadata := mkPageMetadata {
  pm_title : string;
  modalMapImage : string;
  modalMarkersImage : string;
}.

Record SpaceModel := mkSpaceModel {
  spaces : list Space;
  pageMetadata : option PageMetadata;
  currentSpaceId : option string;
  currentTab : string;
  currentProductIndex : Z;
  markerData : list (string * (Z * Z));
}.

Module Model.

(** [new SpaceModel()]. *)
Definition new : SpaceModel :=
  mkSpaceModel [] None None APP_CONFIG.tabs_overview 0 [].

Definition setSpaces (l : list Space) (m : SpaceModel) : SpaceModel :=
  mkSpaceModel l (pageMetadata m) (currentSpaceId m) (currentTab m)
               (currentProductIndex m) (markerData m).

(** [this.spaces.find(s => s.id === id)]; [None] is [undefined]. *)
Definition getSpace (m : SpaceModel) (i : option string) : option Space :=
  match i with
  | Some i => List.find (fun s => String.eqb (space_id s) i) (spaces m)
  | None => None
  end.

Definition getAllSpaces (m : SpaceModel) : list Space := spaces m.

Definition setCurrentSpace (i : string) (m : SpaceModel) : SpaceModel :=
  mkSpaceModel (spaces m) (pageMetadata m) (Some i) (currentTab m)
               (currentProductIndex m) (markerData m).

Definition getCurrentSpace (m : SpaceModel) : option Space :=
  getSpace m (currentSpaceId m).

(** The assignment [model.currentProductIndex = idx]. *)
Definition setCurrentProductIndex (idx : Z) (m : SpaceModel) : SpaceModel :=
  mkSpaceModel (spaces m) (pageMetadata m) (currentSpaceId m) (currentTab m)
               idx (markerData m).

End Model.

(** ** The carousel as rendered in the page: one slide per product, each with
    its own copy of the navigation dots. *)

Record Slide := mkSlide {
  slide_active : bool;
  slide_title : string;                    (* text of the slide's [h3] *)
  dots_active : list bool;                 (* class [active] / [aria-current] of each dot *)
}.

Inductive Source := src_next | src_prev | src_dot.

Inductive Control :=
| NextButton (slide : nat) | PrevButton (slide : nat) | Dot (slide dot : nat).

Record Carousel := mkCarousel {
  slides : list Slide;
  liveRegion : option string;              (* text of the live region, when rendered *)
  focus : option Control;
}.

(** ** The application: the objects created on [DOMContentLoaded] together
    with the page they act on. *)

Record App := mkApp {
  model : SpaceModel;
  page : Page;
  carousel : Carousel;
  isPopoverVisible : bool;                 (* state of the view *)
  view_model : option unit;                (* property [model] of the view object:
                                              [None] is [undefined], [Some] the model *)
  boundElements : list Handle;             (* the controller's set of bound elements *)
  clickListeners : list (Handle * string); (* click listeners of [attachInteraction]:
                                              element, space id handed to the handler *)
}.

Definition with_model (f : SpaceModel → SpaceModel) (a : App) : App :=
  mkApp (f (model a)) (page a) (carousel a) (isPopoverVisible a) (view_model a)
        (boundElements a) (clickListeners a).
Definition with_page (f : Page → Page) (a : App) : App :=
  mkApp (model a) (f (page a)) (carousel a) (isPopoverVisible a) (view_model a)
        (boundElements a) (clickListeners a).
Definition with_carousel (f : Carousel → Carousel) (a : App) : App :=
  mkApp (model a) (page a) (f (carousel a)) (isPopoverVisible a) (view_model a)
        (boundElements a) (clickListeners a).

(** How an event handler ends: normally, or with an uncaught exception. *)
Inductive Completion := Normal | Thrown (error : string).

(** ** String and attribute helpers used by the controller *)

Fixpoint lastChar (s : string) : option ascii :=
  match s with
  | EmptyString => None
  | String c EmptyString => Some c
  | String _ r => lastChar r
  end.

(** [s.endsWith(c)] for a one-character suffix. *)
Definition endsWith (s : string) (c : ascii) : bool :=
  match lastChar s with
  | Some d => Ascii.eqb d c
  | None => false
  end.

(** [s.slice(0, -1)]. *)
Fixpoint slice_0_minus1 (s : string) : string :=
  match s with
  | EmptyString => EmptyString
  | String _ EmptyString => EmptyString
  | String c r => String c (slice_0_minus1 r)
  end.

Definition getAttribute (name : string) (n : Node) : option string :=
  snd <$> List.find (fun kv => String.eqb (fst kv) name) (attributes n).

Definition setAttribute (name value : string) (n : Node) : Node :=
  mkNode (tagName n) (el_id n) (classList n)
         ((name, value) ::
            List.filter (fun kv => negb (String.eqb (fst kv) name)) (attributes n))
         (style n) (parent n).

Definition setStyle (prop value : string) (n : Node) : Node :=
  mkNode (tagName n) (el_id n) (classList n) (attributes n)
         ((prop, value) ::
            List.filter (fun kv => negb (String.eqb (fst kv) prop)) (style n))
         (parent n).

(** [Array.from(doc.querySelectorAll('g')).find(g => g.id === i)]. *)
Definition findGroupById (doc : Document) (i : string) : option Handle :=
  fst <$> list_find (λ n, tagName n = "g" ∧ el_id n = i) doc.

(** [doc.querySelectorAll('[data-space-id]')]. *)
Definition hasAttribute (name : string) (doc : Document) (h : Handle) : bool :=
  match doc !! h with
  | Some n => bool_decide (is_Some (getAttribute name n))
  | None => false
  end.
Definition querySelectorAll_attr (doc : Document) (name : string) : list Handle :=
  List.filter (hasAttribute name doc) (seq 0 (length doc)).

(** ** Controller layer (class SpaceController) and the view's handlers *)

Module Controller.
Import Model SpaceView.

(** [new SpaceController(new SpaceService(), new SpaceModel(), new SpaceView())]
    over the page as loaded. *)
Definition DOMContentLoaded (pg : Page) : App :=
  mkApp Model.new pg (mkCarousel [] None None) false None [] [].

Definition is_index (index : Z) (i : nat) : bool := Z.eqb (Z.of_nat i) index.

Definition updateProductVisibility (index : Z) (source : option Source)
    (c : Carousel) : Carousel :=
  let newActiveSlide :=
    if (0 <=? index)%Z then slides c !! Z.to_nat index else None in
  let at_ := Z.to_nat index in
  mkCarousel
    (imap (λ i s, mkSlide (is_index index i) (slide_title s)
                    (imap (λ j _, is_index index j) (dots_active s)))
          (slides c))
    (match liveRegion c, newActiveSlide with
     | Some _, Some s =>
       Some ("Showing " ++
             (if String.eqb (slide_title s) ""
              then "Slide " ++ pretty.pretty (index + 1)%Z else slide_title s))
     | r, _ => r
     end)
    (match source, newActiveSlide with
     | Some src_next, Some _ => Some (NextButton at_)
     | Some src_prev, Some _ => Some (PrevButton at_)
     | Some src_dot, Some s =>
       if decide (at_ < length (dots_active s)) then Some (Dot at_ at_) else focus c
     | _, _ => focus c
     end).

Definition nextProduct (a : App) : App :=
  match getCurrentSpace (model a) with
  | None => a
  | Some space =>
    if Nat.eqb (length (systemEquipment space)) 0 then a
    else
      let idx := (currentProductIndex (model a) + 1)%Z in
      let idx :=
        if (idx >=? Z.of_nat (length (systemEquipment space)))%Z then 0%Z else idx in
      with_carousel (updateProductVisibility idx (Some src_next))
        (with_model (setCurrentProductIndex idx) a)
  end.

Definition prevProduct (a : App) : App :=
  match getCurrentSpace (model a) with
  | None => a
  | Some space =>
    if Nat.eqb (length (systemEquipment space)) 0 then a
    else
      let idx := (currentProductIndex (model a) - 1)%Z in
      let idx :=
        if (idx <? 0)%Z then (Z.of_nat (length (systemEquipment space)) - 1)%Z else idx in
      with_carousel (updateProductVisibility idx (Some src_prev))
        (with_model (setCurrentProductIndex idx) a)
  end.

(** The click listener that [renderProductCarousel] puts on every dot; it
    runs with [this] bound to the view. *)
Definition dotClick (idx : Z) (a : App) : App * Completion :=
  match view_model a with
  | None =>
    (a, Thrown "TypeError: Cannot set properties of undefined (setting 'currentProductIndex')")
  | Some _ =>
    (with_model (setCurrentProductIndex idx) a,
     Thrown "TypeError: this.updateProductVisibility is not a function")
  end.

Definition handleMarkerClick (spaceId : string) (a : App) : App :=
  match getSpace (model a) (Some spaceId) with
  | None => a
  | Some space =>
    let a := with_model (setCurrentSpace spaceId) a in
    let a := with_page (replaceLandingSvg (markerImg space)) a in
    with_page (updateMarkerVisibility (Some spaceId)) a
  end.

End Controller.

(** ** Binding markers to spaces ([attachSvgHandlers], [attachInteraction]) *)

(** What the binding code reads and writes: the markers document, the
    controller's set of bound elements and the click listeners registered so
    far. *)
Record Wiring := mkWiring {
  w_doc : Document;
  w_bound : list Handle;
  w_clicks : list (Handle * string);
}.

Module Binding.
Import Model SpaceView.

Definition attachInteraction (el : Handle) (spaceId : string) (w : Wiring) : Wiring :=
  match w_doc w !! el with
  | None => w
  | Some n =>
    if bool_decide (getAttribute "data-gh-bound" n = Some "true") then w
    else if bool_decide (el ∈ w_bound w) then w
    else
      mkWiring
        (alter (λ n, setAttribute "data-gh-bound" "true" (setStyle "cursor" "pointer" n))
               el (w_doc w))
        (el :: w_bound w)
        (w_clicks w ++ [(el, spaceId)])
  end.

(** Step 1 of [attachSvgHandlers]: elements tagged with [data-space-id]. *)
Definition bindDynamic (st : Wiring * list Handle) (el : Handle)
    : Wiring * list Handle :=
  let '(w, processedElements) := st in
  match w_doc w !! el with
  | None => st
  | Some n =>
    match getAttribute "data-space-id" n with
    | Some spaceId =>
      if String.eqb spaceId "" then st
      else (attachInteraction el spaceId w, el :: processedElements)
    | None => st
    end
  end.

(** The element a space id resolves to: the element of that id, else, for
    an id ending in [s], the element of the id without it. *)
Definition resolveMarker (doc : Document) (spaceId : string) : option Handle :=
  let byId (i : string) :=
    match getElementById doc i with
    | Some el => Some el
    | None => findGroupById doc i
    end in
  match byId spaceId with
  | Some el => Some el
  | None =>
    if endsWith spaceId "s" then byId (slice_0_minus1 spaceId) else None
  end.

(** Step 2 of [attachSvgHandlers]: elements whose id matches a space. *)
Definition bindSpace (st : Wiring * list Handle) (space : Space)
    : Wiring * list Handle :=
  let '(w, processedElements) := st in
  match resolveMarker (w_doc w) (space_id space) with
  | Some el =>
    if bool_decide (el ∈ processedElements) then st
    else (attachInteraction el (space_id space) w, el :: processedElements)
  | None => st
  end.

(** [attachSvgHandlers(svgObject)], [svgObject] being the page element of
    that id, on a model whose space ids are strings, as [Space] has them;
    on such a model no statement of the function throws.  The same function
    over every id the adapter can hand to the model, with the exception it
    throws on an id that is not a string, is [BindingJs.attachSvgHandlers]
    below; the two agree on string ids (lemma [attachSvgHandlers_string_ids]).
    The listener it puts on the document itself (a click on empty
    space restores the overview) and the hover listeners of
    [attachInteraction] are not part of the state kept here. *)
Definition attachSvgHandlers (svgObject : string) (a : App) : App :=
  match page a !! svgObject with
  | None => a
  | Some obj =>
    match contentDocument obj with
    | None => a
    | Some doc =>
      let doc :=
        match getElementById doc "Map" with
        | Some mapGroup => alter (setStyle "display" "none") mapGroup doc
        | None => doc
        end in
      let doc := default doc (initMarkerVisibility (Some doc)) in
      let dynamicElements := querySelectorAll_attr doc "data-space-id" in
      let st := (mkWiring doc (boundElements a) (clickListeners a), []) in
      let st := foldl bindDynamic st dynamicElements in
      let st := foldl bindSpace st (getAllSpaces (model a)) in
      let w := fst st in
      mkApp (model a)
            (<[svgObject := with_contentDocument (w_doc w) obj]> (page a))
            (carousel a) (isPopoverVisible a) (view_model a)
            (w_bound w) (w_clicks w)
    end
  end.


End Binding.

(** ** JavaScript values handled by the data adapter

    The adapter receives whatever [response.json()] produced and builds
    object literals from it.  Numbers are integers here: the adapter only
    tests them against zero and copies them.  A string is a sequence of code
    units below 256. *)

Inductive Value :=
| VUndefined
| VNull
| VBool (b : bool)
| VNum (z : Z)
| VStr (s : string)
| VArr (elems : list Value)
| VObj (props : list (string * Value))     (* own properties *)
| VBuiltin (name : string).                (* the member [name] of [Object.prototype] *)

Inductive Error := TypeError | InvalidFormat.

(** A computation that returns or throws. *)
Inductive Exc (A : Type) := Ok (a : A) | Throw (e : Error).
Arguments Ok {A} a.
Arguments Throw {A} e.

Global Instance Exc_ret : MRet Exc := λ A a, Ok a.
Global Instance Exc_fmap : FMap Exc := λ A B f m,
  match m with
  | Ok a => Ok (f a)
  | Throw e => Throw e
  end.
Global Instance Exc_bind : MBind Exc := λ A B f m,
  match m with
  | Ok a => f a
  | Throw e => Throw e
  end.

Module Js.

Definition truthy (v : Value) : bool :=
  match v with
  | VUndefined | VNull => false
  | VBool b => b
  | VNum z => negb (z =? 0)%Z
  | VStr s => negb (String.eqb s "")
  | VArr _ | VObj _ | VBuiltin _ => true
  end.

(** [a || b]. *)
Definition or (a b : Value) : Value := if truthy a then a else b.

(** The members every object inherits from [Object.prototype]. *)
Definition objectPrototype : list string :=
  [ "constructor"; "hasOwnProperty"; "isPrototypeOf"; "propertyIsEnumerable";
    "toLocaleString"; "toString"; "valueOf"; "__proto__";
    "__defineGetter__"; "__defineSetter__"; "__lookupGetter__"; "__lookupSetter__" ].

Definition inherited (k : string) : Value :=
  if existsb (String.eqb k) objectPrototype then VBuiltin k else VUndefined.

Definition own (props : list (string * Value)) (k : string) : option Value :=
  snd <$> List.find (fun kv => String.eqb (fst kv) k) props.

(** The [length] of an inherited member: the arity of the function, nothing
    for [__proto__], which is the prototype object itself. *)
Definition builtinLength (name : string) : Value :=
  if String.eqb name "__proto__" then VUndefined
  else if existsb (String.eqb name) ["toLocaleString"; "toString"; "valueOf"] then VNum 0
  else if existsb (String.eqb name) ["__defineGetter__"; "__defineSetter__"] then VNum 2
  else VNum 1.

(** [v.k] and [v[k]] for a property name [k].  On strings, arrays and
    functions only [length] is modelled among the members of their own
    prototypes. *)
Definition get (v : Value) (k : string) : Exc Value :=
  match v with
  | VUndefined | VNull => Throw TypeError
  | VObj props => Ok (default (inherited k) (own props k))
  | VStr s =>
    Ok (if String.eqb k "length" then VNum (Z.of_nat (String.length s)) else inherited k)
  | VArr l =>
    Ok (if String.eqb k "length" then VNum (Z.of_nat (length l)) else inherited k)
  | VBuiltin name =>
    Ok (if String.eqb k "length" then builtinLength name else inherited k)
  | VBool _ | VNum _ => Ok (inherited k)
  end.

(** [v[0]]. *)
Definition get0 (v : Value) : Exc Value :=
  match v with
  | VUndefined | VNull => Throw TypeError
  | VObj props => Ok (default VUndefined (own props "0"))
  | VStr (String c _) => Ok (VStr (String c EmptyString))
  | VArr (x :: _) => Ok x
  | _ => Ok VUndefined
  end.

Definition isArray (v : Value) : bool :=
  match v with VArr _ => true | _ => false end.

(** [v === s] for a string [s]; [v === 0]. *)
Definition strictEqStr (v : Value) (s : string) : bool :=
  match v with VStr t => String.eqb t s | _ => false end.
Definition strictEq0 (v : Value) : bool :=
  match v with VNum z => (z =? 0)%Z | _ => false end.

(** An id inside a template literal; [generateId] returns a string or an
    inherited member, other values do not reach a template. *)
Definition toString (v : Value) : string :=
  match v with
  | VStr s => s
  | VBuiltin "__proto__" => "[object Object]"
  | VBuiltin "constructor" => "function Object() { [native code] }"
  | VBuiltin k => "function " ++ k ++ "() { [native code] }"
  | _ => ""
  end.

End Js.

(** ** String operations of [generateId] *)

Module Slug.

Definition between (lo hi : N) (c : ascii) : bool :=
  (lo <=? N_of_ascii c)%N && (N_of_ascii c <=? hi)%N.

(** One code unit of [String.prototype.toLowerCase]: A-Z, and the
    upper-case letters of the Latin-1 block (all but the multiplication
    sign at 215). *)
Definition lowerChar (c : ascii) : ascii :=
  if between 65 90 c then ascii_of_N (N_of_ascii c + 32)
  else if between 192 222 c && negb (N_of_ascii c =? 215)%N
       then ascii_of_N (N_of_ascii c + 32)
  else c.

Fixpoint toLowerCase (s : string) : string :=
  match s with
  | EmptyString => EmptyString
  | String c r => String (lowerChar c) (toLowerCase r)
  end.

(** The class [[a-z0-9]]. *)
Definition alnum (c : ascii) : bool := between 97 122 c || between 48 57 c.

(** [s.replace(/[^a-z0-9]+/g, '-')], scanning left to right; [inRun] says
    that the code unit before was part of the match being replaced. *)
Fixpoint replaceRuns (inRun : bool) (s : string) : string :=
  match s with
  | EmptyString => EmptyString
  | String c r =>
    if alnum c then String c (replaceRuns false r)
    else if inRun then replaceRuns true r
    else String "-" (replaceRuns true r)
  end.

(** [s.replace(/^-|-$/g, '')]: the first alternative can match only at the
    start, the second only at the last code unit. *)
Definition dropLeadingHyphen (s : string) : string :=
  match s with
  | String "-" r => r
  | _ => s
  end.
Fixpoint dropTrailingHyphen (s : string) : string :=
  match s with
  | EmptyString => EmptyString
  | String c EmptyString => if Ascii.eqb c "-" then EmptyString else s
  | String c r => String c (dropTrailingHyphen r)
  end.
Definition replaceEdgeHyphens (s : string) : string :=
  dropTrailingHyphen (dropLeadingHyphen s).

Definition slug (name : string) : string :=
  replaceEdgeHyphens (replaceRuns false (toLowerCase name)).

(** The rule as the specification words it: every maximal run of
    non-alphanumeric characters becomes one hyphen, then all leading and
    all trailing hyphens are trimmed. *)
Fixpoint runsToHyphen (s : string) : string :=
  match s with
  | EmptyString => EmptyString
  | String c r =>
    if alnum c then String c (runsToHyphen r)
    else match r with
         | String d _ => if alnum d then String "-" (runsToHyphen r) else runsToHyphen r
         | EmptyString => String "-" EmptyString
         end
  end.
Fixpoint trimLeading (s : string) : string :=
  match s with
  | String "-" r => trimLeading r
  | _ => s
  end.
Fixpoint trimTrailing (s : string) : string :=
  match s with
  | EmptyString => EmptyString
  | String c r =>
    match trimTrailing r with
    | EmptyString => if Ascii.eqb c "-" then EmptyString else String c EmptyString
    | t => String c t
    end
  end.
Definition specSlug (name : string) : string :=
  trimTrailing (trimLeading (runsToHyphen (toLowerCase name))).

(** The override table as the specification words it. *)
Definition specOverride (slug : string) : string :=
  if String.eqb slug "school-gym" then "gym" else slug.

End Slug.

(** ** The data adapter (class DataAdapter) *)

Module DataAdapter.
Import Js.

Definition K12_DEFAULTS_heroBg := "./Content/imgs/k-12-hero-bg.png".
Definition K12_DEFAULTS_mapImage := "./Content/imgs/k-12-map.svg".
Definition K12_DEFAULTS_markersImage := "./Content/imgs/k-12-markers.svg".
Definition K12_DEFAULTS_icons_primary := "./Content/imgs/icons/select-a-space.svg".
Definition K12_DEFAULTS_icons_secondary := "./Content/imgs/icons/share.svg".

Definition SPACE_ID_OVERRIDES : Value := VObj [("school-gym", VStr "gym")].

Definition pinsDir := "./Content/imgs/Space Pins and Labels with Popover/".

(** [{ pageMetadata: {}, spaces: [] }]. *)
Definition emptyStructure : Value :=
  VObj [("pageMetadata", VObj []); ("spaces", VArr [])].

Definition generateId (name : Value) : Exc Value :=
  if negb (truthy name) then Ok (VStr "unknown-space")
  else
    match name with
    | VStr s =>
      let slug := Slug.slug s in
      v ← get SPACE_ID_OVERRIDES slug;
      Ok (or v (VStr slug))
    | _ => Throw TypeError              (* [name.toLowerCase] is not a function *)
    end.

Section Coercion.

(** [v > 0] on a string, array or object operand goes through
    ECMAScript's ToPrimitive and StringToNumber, which are not code of
    this repository: the comparison on such an operand is a parameter,
    and may throw. *)
Variable ToNumber_positive : Value → Exc bool.

Definition gt0 (v : Value) : Exc bool :=
  match v with
  | VNum z => Ok (0 <? z)%Z
  | VBool b => Ok b
  | VUndefined | VNull | VBuiltin _ => Ok false
  | VStr _ | VArr _ | VObj _ => ToNumber_positive v
  end.

(** [(a && a.length > 0) ? a[0] : {}]. *)
Definition firstOrEmpty (a : Value) : Exc Value :=
  if truthy a then
    len ← get a "length";
    pos ← gt0 len;
    if pos : bool then get0 a else Ok (VObj [])
  else Ok (VObj []).

Definition extractImageUrl (imageArray : Value) : Exc Value :=
  if truthy imageArray then
    len ← get imageArray "length";
    pos ← gt0 len;
    if pos : bool then
      first ← get0 imageArray;
      url ← get first "Url";
      if truthy url then Ok url else Ok VNull
    else Ok VNull
  else Ok VNull.

Definition transformAction (action : Value) : Exc Value :=
  ty ← get action "Type";
  let type := if strictEqStr ty "1" then "primary" else "secondary" in
  label ← get action "Title";
  act ← get action "Action";
  Ok (VObj [ ("type", VStr type);
             ("label", label);
             ("iconClass", VStr (if String.eqb type "primary"
                                 then K12_DEFAULTS_icons_primary
                                 else K12_DEFAULTS_icons_secondary));
             ("actionId", VStr (if strictEqStr act "1"
                                then "select-space-btn" else "share-btn")) ]).

Definition transformActions (actions : Value) : Exc Value :=
  match actions with
  | VArr l => VArr <$> mapM transformAction l
  | _ => Ok (VArr [])
  end.

Definition transformPageMetadata (root : Value) : Exc Value :=
  hs ← get root "HeroSection";
  hero ← firstOrEmpty hs;
  title ← get root "Title";
  heroTitle ← get hero "Title";
  heroDescription ← get hero "Description";
  actionButton ← get hero "ActionButton";
  actions ← transformActions actionButton;
  Ok (VObj [ ("title", or title (VStr "K-12 Education"));
             ("heroSection",
              VObj [ ("backgroundImage", VStr K12_DEFAULTS_heroBg);
                     ("title", or heroTitle (VStr ""));
                     ("description", or heroDescription (VStr ""));
                     ("actions", actions) ]);
             ("modalMapImage", VStr K12_DEFAULTS_mapImage);
             ("modalMarkersImage", VStr K12_DEFAULTS_markersImage) ]).

Definition transformOverview (overviewArray spaceId : Value) : Exc Value :=
  overview ← firstOrEmpty overviewArray;
  title ← get overview "Title";
  body ← get overview "Body";
  bg ← get overview "BackgroundImage";
  url ← extractImageUrl bg;
  Ok (VObj [ ("title", or title (VStr ""));
             ("body", or body (VStr ""));
             ("bgImg", or url (VStr (pinsDir ++ toString spaceId ++ "-overview.png"))) ]).

Definition transformEquipmentItem (item : Value) : Exc Value :=
  i ← get item "Id";
  title ← get item "Title";
  slider ← get item "SliderImage";
  slideUrl ← extractImageUrl slider;
  body ← get item "Body";
  productUrl ← get item "ProductUrl";
  bg ← get item "BackgroundImage";
  bgUrl ← extractImageUrl bg;
  Ok (VObj [ ("id", i);
             ("title", title);
             ("slideImg", or slideUrl (VStr "./Content/imgs/prd-1.png"));
             ("body", body);
             ("productDetailsUrl", or productUrl (VStr "#"));
             ("bgImg", or bgUrl (VStr "./Content/imgs/RooftopUnits.png")) ]).

Definition transformEquipment (equipmentArray : Value) : Exc Value :=
  match equipmentArray with
  | VArr l => VArr <$> mapM transformEquipmentItem l
  | _ => Ok (VArr [])
  end.

Definition transformNarrative (narrativeArray spaceId : Value) : Exc Value :=
  narrative ← firstOrEmpty narrativeArray;
  title ← get narrative "Title";
  body ← get narrative "Body";
  bg ← get narrative "BackgroundImage";
  url ← extractImageUrl bg;
  Ok (VObj [ ("title", or title (VStr ""));
             ("body", or body (VStr ""));
             ("img", or url (VStr "./Content/imgs/k-12-hero-bg.png")) ]).

Definition transformSpace (space : Value) : Exc Value :=
  title ← get space "Title";
  name ← get space "Name";
  let spaceName := or title name in
  generatedId ← generateId spaceName;
  description ← get space "Description";
  ov ← get space "Overview";
  overview ← transformOverview ov generatedId;
  eq ← get space "SystemEquipment";
  systemEquipment ← transformEquipment eq;
  dn ← get space "DesignNarrative";
  designNarrative ← transformNarrative dn generatedId;
  Ok (VObj [ ("id", generatedId);
             ("name", spaceName);
             ("systemName", or description name);
             ("markerImg", VStr (pinsDir ++ toString generatedId ++ ".svg"));
             ("overview", overview);
             ("systemEquipment", systemEquipment);
             ("designNarrative", designNarrative) ]).

Definition transformSpaces (spaces : Value) : Exc Value :=
  match spaces with
  | VArr l => VArr <$> mapM transformSpace l
  | _ => Ok (VArr [])
  end.

(** The [try] block of [transform]. *)
Definition transform_try (apiResponse : Value) : Exc Value :=
  if negb (truthy apiResponse) then Throw InvalidFormat
  else
    value ← get apiResponse "value";
    if negb (truthy value) then Throw InvalidFormat
    else
      len ← get value "length";
      if strictEq0 len then Throw InvalidFormat
      else
        root ← get0 value;
        pageMetadata ← transformPageMetadata root;
        sp ← get root "Spaces";
        spaces ← transformSpaces sp;
        Ok (VObj [ ("pageMetadata", pageMetadata); ("spaces", spaces) ]).

Definition transform (apiResponse : Value) : Value :=
  match transform_try apiResponse with
  | Ok data => data
  | Throw _ => emptyStructure
  end.

End Coercion.

End DataAdapter.

(** ** Service layer (class SpaceService) *)

(** What one [fetch] of the data file comes to. *)
Inductive FetchOutcome :=
| NetworkError                                   (* [fetch] rejects *)
| Response (ok : bool) (json : option Value).    (* [json = None]: [response.json()] rejects *)

Module SpaceService.
Import DataAdapter.

(** [fetchData()].  [network n] is the outcome of the request issued when [n]
    requests have been issued before it; the result comes with the number of
    requests issued so far.  [adapter] is the global [DataAdapter] when the
    adapter script is loaded. *)
Definition fetchData (adapter : option (Value → Value))
    (network : nat → FetchOutcome) (requests : nat) : Value * nat :=
  match network requests with
  | NetworkError => (emptyStructure, S requests)
  | Response ok json =>
    if negb ok then (emptyStructure, S requests)
    else
      match json with
      | None => (emptyStructure, S requests)
      | Some rawData =>
        match adapter with
        | Some transform => (transform rawData, S requests)
        | None => (rawData, S requests)
        end
      end
  end.

End SpaceService.

(** ** Notions used to state the properties *)

Module Obs.
Import SpaceView.

(** The markers document of a page, when loaded. *)
Definition markersDocument (page : Page) : option Document :=
  page !! APP_CONFIG.buildingMarkersSvg ≫= contentDocument.

Definition notRoof (doc : Document) (h : Handle) : bool :=
  match doc !! h with
  | Some n => negb (String.eqb (el_id n) APP_CONFIG.buildingRoof)
  | None => false
  end.

(** The marker groups of a document: the [g] children of the container,
    the designated roof group apart. *)
Definition markerGroups (doc : Document) : list Handle :=
  match markerContainer doc with
  | Some container => List.filter (notRoof doc) (children_with_tag doc container "g")
  | None => []
  end.

Definition hasClass (doc : Document) (h : Handle) (c : string) : bool :=
  match doc !! h with
  | Some n => classList_contains c n
  | None => false
  end.

Definition idOf (doc : Document) (h : Handle) : string :=
  match doc !! h with
  | Some n => el_id n
  | None => ""
  end.

Definition isDimmed (doc : Document) (h : Handle) : bool :=
  hasClass doc h APP_CONFIG.markerDimmed.

(** A sequence of calls of [updateMarkerVisibility]. *)
Definition setActiveSeq (calls : list (option string)) (page : Page) : Page :=
  foldl (λ p activeId, updateMarkerVisibility activeId p) page calls.

(** The marker groups of the page's markers document, and the dimming of
    one of them. *)
Definition pageMarkerGroups (page : Page) : list Handle :=
  match markersDocument page with
  | Some doc => markerGroups doc
  | None => []
  end.
Definition pageDimmed (page : Page) (h : Handle) : bool :=
  match markersDocument page with
  | Some doc => isDimmed doc h
  | None => false
  end.
Definition pageIdOf (page : Page) (h : Handle) : string :=
  match markersDocument page with
  | Some doc => idOf doc h
  | None => ""
  end.

(** What [updateMarkerVisibility] does to one element. *)
Definition dimNode (activeId : option string) (n : Node) : Node :=
  if String.eqb (el_id n) APP_CONFIG.buildingRoof then n
  else if truthy activeId && differs (el_id n) activeId
       then classList_add APP_CONFIG.markerDimmed n
       else classList_remove APP_CONFIG.markerDimmed n.

(** What [updateMarkerVisibility] does to a loaded markers document. *)
Definition dimDocument (activeId : option string) (doc : Document) : Document :=
  match markerContainer doc with
  | Some container => foldl (dimGroup activeId) doc (children_with_tag doc container "g")
  | None => doc
  end.

(** What [initMarkerVisibility] does to a loaded markers document. *)
Definition initDocument (doc : Document) : Document :=
  default doc (initMarkerVisibility (Some doc)).

(** What [initMarkerVisibility] does to a pin and to a label. *)
Definition showNode (n : Node) : Node :=
  classList_remove APP_CONFIG.childHidden (classList_add APP_CONFIG.childVisible n).
Definition hideNode (n : Node) : Node :=
  classList_remove APP_CONFIG.childVisible (classList_add APP_CONFIG.childHidden n).

(** The state [initMarkerVisibility] aims at for a marker group: the group
    carries the marker class, its first child group is visible and not
    hidden, its other child groups are hidden and not visible. *)
Definition initialized (doc : Document) (group : Handle) : Prop :=
  hasClass doc group APP_CONFIG.markerGroup = true ∧
  match children_with_tag doc group "g" with
  | [] => True
  | first :: rest =>
    hasClass doc first APP_CONFIG.childVisible = true ∧
    hasClass doc first APP_CONFIG.childHidden = false ∧
    Forall (λ c, hasClass doc c APP_CONFIG.childHidden = true ∧
                 hasClass doc c APP_CONFIG.childVisible = false) rest
  end.

(** What one round of the [groups.forEach] loop of [initMarkerVisibility],
    run for [group], does to the element [h]. *)
Definition initNode (doc : Document) (group h : Handle) (n : Node) : Node :=
  if notRoof doc group then
    let n := if decide (group = h) then classList_add APP_CONFIG.markerGroup n else n in
    match children_with_tag doc group "g" with
    | [] => n
    | first :: rest =>
      if decide (h = first) then showNode n
      else if bool_decide (h ∈ rest) then hideNode n
      else n
    end
  else n.

(** What the lookups of the script depend on. *)
Definition skeleton (n : Node) : string * string * option Handle :=
  (tagName n, el_id n, parent n).

(** A sequence of clicks on the next and previous buttons of the carousel. *)
Inductive CarouselAction := Next | Prev.
Definition runCarousel (acts : list CarouselAction) (a : App) : App :=
  foldl (λ a act,
           match act with
           | Next => Controller.nextProduct a
           | Prev => Controller.prevProduct a
           end) a acts.

(** The space ids handed to the click listeners registered on [h]. *)
Definition listenersOn (clicks : list (Handle * string)) (h : Handle) : list string :=
  snd <$> List.filter (fun c => Nat.eqb (fst c) h) clicks.

(** The non-empty [data-space-id] of an element, if it has one. *)
Definition dynamicId (doc : Document) (h : Handle) : option string :=
  match doc !! h with
  | Some n =>
    match getAttribute "data-space-id" n with
    | Some v => if String.eqb v "" then None else Some v
    | None => None
    end
  | None => None
  end.

(** The id of the first space of the list that resolves to [h]. *)
Definition firstSpaceResolving (doc : Document) (l : list Space) (h : Handle)
    : option string :=
  space_id <$>
    List.find (fun s => bool_decide (Binding.resolveMarker doc (space_id s) = Some h)) l.

(** The binding order of [attachSvgHandlers]: the element's own
    [data-space-id] first, then the first space that resolves to it. *)
Definition bindingOf (doc : Document) (l : list Space) (h : Handle) : option string :=
  match dynamicId doc h with
  | Some v => Some v
  | None => firstSpaceResolving doc l h
  end.

(** What the binding code keeps of a document while it runs: every element
    bound so far is in [processed]. *)
Definition wiringInv (doc : Document) (w : Wiring) (processed : list Handle) : Prop :=
  skeleton <$> w_doc w = skeleton <$> doc
  ∧ (∀ h, dynamicId (w_doc w) h = dynamicId doc h)
  ∧ (∀ h n, w_doc w !! h = Some n →
            getAttribute "data-gh-bound" n = Some "true" → h ∈ processed)
  ∧ (∀ h, h ∈ w_bound w → h ∈ processed).

End Obs.

(** Notions about slugs. *)
Module SlugObs.

Definition startsWithHyphen (s : string) : bool :=
  match s with
  | String "-" _ => true
  | _ => false
  end.

(** No two hyphens in a row. *)
Fixpoint noDoubleHyphen (s : string) : bool :=
  match s with
  | EmptyString => true
  | String c r =>
    negb (Ascii.eqb c "-" && startsWithHyphen r) && noDoubleHyphen r
  end.

(** Every character is of [[a-z0-9]] or a hyphen. *)
Fixpoint slugChars (s : string) : bool :=
  match s with
  | EmptyString => true
  | String c r => (Slug.alnum c || Ascii.eqb c "-") && slugChars r
  end.

End SlugObs.

(** ** A concrete page, used to instantiate the statements

    The markers document holds the pins group with the roof and two
    markers, each marker a pin and a label; the page holds the markers
    object and the overlay object. *)

Module Example.

Definition el (tag i : string) (p : option Handle) : Node :=
  mkNode tag i [] [] [] p.

Definition markersDoc : Document :=
  [ el "svg" "" None;                                    (* 0 *)
    el "g" "K-12-Pins-Roof-Closed" (Some 0);             (* 1 *)
    el "g" "school-roof" (Some 1);                       (* 2 *)
    el "g" "lobby" (Some 1);                             (* 3 *)
    el "g" "lobby-pin" (Some 3);                         (* 4 *)
    el "g" "lobby-label" (Some 3);                       (* 5 *)
    el "g" "gym" (Some 1);                               (* 6 *)
    el "g" "gym-pin" (Some 6);                           (* 7 *)
    el "g" "gym-label" (Some 6);                         (* 8 *)
    el "g" "" (Some 0) ].                                (* 9: a group without id *)

Definition page : Page :=
  <[APP_CONFIG.buildingMarkersSvg := mkPageElement [] None (Some markersDoc)]>
    (<[APP_CONFIG.overlaySvg := mkPageElement [] None None]> ∅).

Definition product (i : string) : Product :=
  mkProduct i ("Unit " ++ i) "slide.png" "" "#" "bg.png".

Definition space (i : string) (equipment : list Product) : Space :=
  mkSpace i i "system" ("pins/" ++ i ++ ".svg")
          (mkOverview "" "" "") equipment (mkNarrative "" "" "").

(** Three units in the lobby, one in the gym. *)
Definition lobby : Space := space "lobby" [product "a"; product "b"; product "c"].
Definition gym : Space := space "gym" [product "d"].

(** A space whose name has no letter or digit gets the empty id. *)
Definition unnamed : Space := space "" [].

(** The application once the data is loaded. *)
Definition app (l : list Space) : App :=
  with_model (Model.setSpaces l) (Controller.DOMContentLoaded page).



(** A response whose space list holds a number where a space is expected,
    and what [transform] makes of it. *)
Definition malformedResponse : Value :=
  VObj [("value", VArr [VObj [("Title", VStr "K-12"); ("Spaces", VArr [VNum 5])]])].

Definition malformedOutput : Value :=
  VObj
    [("pageMetadata",
      VObj
        [("title", VStr "K-12");
         ("heroSection",
          VObj
            [("backgroundImage", VStr "./Content/imgs/k-12-hero-bg.png");
             ("title", VStr ""); ("description", VStr "");
             ("actions", VArr [])]);
         ("modalMapImage", VStr "./Content/imgs/k-12-map.svg");
         ("modalMarkersImage", VStr "./Content/imgs/k-12-markers.svg")]);
     ("spaces",
      VArr
        [VObj
           [("id", VStr "unknown-space"); ("name", VUndefined);
            ("systemName", VUndefined);
            ("markerImg",
             VStr "./Content/imgs/Space Pins and Labels with Popover/unknown-space.svg");
            ("overview",
             VObj
               [("title", VStr ""); ("body", VStr "");
                ("bgImg",
                 VStr "./Content/imgs/Space Pins and Labels with Popover/unknown-space-overview.png")]);
            ("systemEquipment", VArr []);
            ("designNarrative",
             VObj
               [("title", VStr ""); ("body", VStr "");
                ("img", VStr "./Content/imgs/k-12-hero-bg.png")])]])].

(** A response with two elements in its value array. *)
Definition school (title : string) : Value :=
  VObj [("Title", VStr title);
        ("Spaces", VArr [VObj [("Title", VStr "School Gym")]])].

Definition twoElementResponse : Value :=
  VObj [("value", VArr [school "K-12"; school "Campus"])].

(** A network on which the first request fails and every later one would
    succeed. *)
Definition flakyNetwork (n : nat) : FetchOutcome :=
  match n with
  | 0 => NetworkError
  | S _ => Response true (Some twoElementResponse)
  end.

End Example.

(** ** Further notions used to state properties of the adapter *)

Module IdObs.
Import SlugObs.

(** A well-formed id: characters of [[a-z0-9-]] only, no hyphen at either
    end, no two hyphens in a row. *)
Definition wellFormed (t : string) : bool :=
  slugChars t && noDoubleHyphen t && negb (startsWithHyphen t) && negb (endsWith t "-").

(** Some character of the string is of [[a-z0-9]]. *)
Fixpoint hasAlnum (s : string) : bool :=
  match s with
  | EmptyString => false
  | String c r => Slug.alnum c || hasAlnum r
  end.

End IdObs.

(** Notions used to state properties of the adapter's output. *)
Module AdapterObs.
Import Js IdObs.

(** The own property [k] of an object built by the adapter. *)
Definition field (k : string) (v : Value) : Value :=
  match v with
  | VObj props => default VUndefined (own props k)
  | _ => VUndefined
  end.

(** An id as [generateId] returns it. *)
Definition idShape (v : Value) : Prop :=
  v = VBuiltin "constructor" ∨ ∃ t, v = VStr t ∧ wellFormed t = true.

(** The image and link fields of an equipment item are set. *)
Definition equipmentLinked (item : Value) : Prop :=
  truthy (field "slideImg" item) = true
  ∧ truthy (field "productDetailsUrl" item) = true
  ∧ truthy (field "bgImg" item) = true.

(** The image fields of a space are set, those of its equipment included. *)
Definition spaceLinked (space : Value) : Prop :=
  truthy (field "markerImg" space) = true
  ∧ truthy (field "bgImg" (field "overview" space)) = true
  ∧ truthy (field "img" (field "designNarrative" space)) = true
  ∧ ∃ items, field "systemEquipment" space = VArr items ∧ Forall equipmentLinked items.

(** The properties of an entry of the space list that [transformSpaces]
    reads. *)
Definition spaceFields : list string :=
  ["Title"; "Name"; "Description"; "Overview"; "SystemEquipment"; "DesignNarrative"].

(** An entry that can be read and has none of these: a number, a boolean,
    a string, an object without them. *)
Definition hasNoField (x : Value) : Prop :=
  Forall (λ k, get x k = Ok VUndefined) spaceFields.

(** The Title and the Name of an entry are both falsy. *)
Definition unnamed (x : Value) : Prop :=
  ∃ title name, get x "Title" = Ok title ∧ get x "Name" = Ok name
                ∧ truthy title = false ∧ truthy name = false.

(** The space made of defaults only. *)
Definition unknownSpace : Value :=
  VObj
    [("id", VStr "unknown-space"); ("name", VUndefined); ("systemName", VUndefined);
     ("markerImg",
      VStr "./Content/imgs/Space Pins and Labels with Popover/unknown-space.svg");
     ("overview",
      VObj [("title", VStr ""); ("body", VStr "");
            ("bgImg",
             VStr "./Content/imgs/Space Pins and Labels with Popover/unknown-space-overview.png")]);
     ("systemEquipment", VArr []);
     ("designNarrative",
      VObj [("title", VStr ""); ("body", VStr "");
            ("img", VStr "./Content/imgs/k-12-hero-bg.png")])].

End AdapterObs.

(** ** Rendering the carousel ([renderProductCarousel]) *)

Module CarouselView.

Section Markup.

(** A product title is written into the page as markup; the text of the
    heading that results is the browser's reading of that markup, a
    parameter here. *)
Variable textContent : string → string.

(** [renderProductCarousel(products)]: the markup of the container is
    replaced, so nothing of the former carousel remains, the focus on one
    of its controls included.  The first slide is the active one; in the
    dots of each slide the dot of that slide is the active one. *)
Definition renderProductCarousel (products : list Product) : Carousel :=
  if Nat.eqb (length products) 0 then mkCarousel [] None None
  else
    mkCarousel
      (imap (λ index product,
               mkSlide (Nat.eqb index 0) (textContent (product_title product))
                       (imap (λ i _, Nat.eqb i index) products))
            products)
      (Some "") None.

End Markup.

(** The carousel shows the slide of index [idx]: that slide and no other
    is active, and in the dots of every slide the dot of that index and no
    other is the active one. *)
Definition showsIndex (c : Carousel) (idx : Z) : Prop :=
  ∀ i s, slides c !! i = Some s →
    slide_active s = bool_decide (Z.of_nat i = idx)
    ∧ ∀ j d, dots_active s !! j = Some d → d = bool_decide (Z.of_nat j = idx).

(** The carousel holds the slides of [products], as [renderProductCarousel]
    builds them: one slide for each product, each slide with one dot for
    each product. *)
Definition renderedFor (c : Carousel) (products : list Product) : Prop :=
  length (slides c) = length products
  ∧ Forall (λ s, length (dots_active s) = length products) (slides c).

(** The carousel shows exactly the slide of index [idx]: the slide of that
    index is there and is active, no other slide is; and in every slide the
    dot of that index is there and is active, no other dot is. *)
Definition showsSlide (c : Carousel) (idx : Z) : Prop :=
  (0 ≤ idx)%Z
  ∧ (∃ s, slides c !! Z.to_nat idx = Some s ∧ slide_active s = true)
  ∧ Forall (λ s, dots_active s !! Z.to_nat idx = Some true) (slides c)
  ∧ showsIndex c idx.

(** Nothing of the carousel is marked active. *)
Definition showsNothing (c : Carousel) : Prop :=
  Forall (λ s, slide_active s = false ∧ Forall (λ d, d = false) (dots_active s))
         (slides c).

End CarouselView.

(** ** Leaving a selection ([restoreLandingSvg]) and the timer it starts *)

(** A callback handed to [setTimeout]: [() => el.removeAttribute('data')],
    [el] being the page element of the given id. *)
Inductive Timer := RemoveData (element : string).

Module Overlay.
Import SpaceView.

(** [restoreLandingSvg()]: the page after the call, and the callbacks it
    has handed to [setTimeout], which run later. *)
Definition restoreLandingSvg (page : Page) : Page * list Timer :=
  let '(page, timers) :=
    match page !! APP_CONFIG.overlaySvg with
    | Some overlay =>
      (<[APP_CONFIG.overlaySvg :=
           mkPageElement (remove "is-visible" (pe_classList overlay)) (pe_data overlay)
                         (contentDocument overlay)]> page,
       [RemoveData APP_CONFIG.overlaySvg])
    | None => (page, [])
    end in
  let page :=
    match page !! APP_CONFIG.buildingMarkersSvg with
    | Some markersLayer =>
      <[APP_CONFIG.buildingMarkersSvg :=
          mkPageElement (remove "is-hidden" (pe_classList markersLayer))
                        (pe_data markersLayer) (contentDocument markersLayer)]> page
    | None => page
    end in
  (updateMarkerVisibility None page, timers).

(** The callback of a timer runs. *)
Definition fire (t : Timer) (page : Page) : Page :=
  match t with
  | RemoveData el =>
    match page !! el with
    | Some e => <[el := mkPageElement (pe_classList e) None (contentDocument e)]> page
    | None => page
    end
  end.

(** The click listener of the overlay's close button and the click
    listener on the markers document: [this.view.restoreLandingSvg()]. *)
Definition restore (a : App) : App * list Timer :=
  (with_page (λ p, fst (restoreLandingSvg p)) a, snd (restoreLandingSvg (page a))).

(** A timer started by the page runs out. *)
Definition timeout (t : Timer) (a : App) : App := with_page (fire t) a.

(** A page on which no space is shown as selected: the overlay is not
    visible and has no data source, the markers layer is not hidden and no
    marker group is dimmed. *)
Definition unselected (page : Page) : Prop :=
  (∀ o, page !! APP_CONFIG.overlaySvg = Some o →
        contains "is-visible" (pe_classList o) = false ∧ pe_data o = None)
  ∧ (∀ l, page !! APP_CONFIG.buildingMarkersSvg = Some l →
          contains "is-hidden" (pe_classList l) = false)
  ∧ (∀ h, h ∈ Obs.pageMarkerGroups page → Obs.pageDimmed page h = false).

End Overlay.

(** ** Notions used to state what a run of [attachSvgHandlers] leaves *)

Module BindingObs.

(** The element carries the mark [data-gh-bound="true"]. *)
Definition ghBound (doc : Document) (h : Handle) : Prop :=
  ∃ n, doc !! h = Some n ∧ getAttribute "data-gh-bound" n = Some "true".

(** The first statement of [attachSvgHandlers]: the group [Map], if the
    document has one, gets [display: none]. *)
Definition hideMap (doc : Document) : Document :=
  match getElementById doc "Map" with
  | Some mapGroup => alter (setStyle "display" "none") mapGroup doc
  | None => doc
  end.

(** What the binding loops keep once an element is bound: the lookups, the
    tags, and the mark on every element processed or recorded as bound. *)
Definition boundInv (doc : Document) (w : Wiring) (processed : list Handle) : Prop :=
  Obs.skeleton <$> w_doc w = Obs.skeleton <$> doc
  ∧ (∀ h, Obs.dynamicId (w_doc w) h = Obs.dynamicId doc h)
  ∧ (∀ h, h ∈ processed → ghBound (w_doc w) h)
  ∧ (∀ h, h ∈ w_bound w → ghBound (w_doc w) h).

End BindingObs.

(** ** Binding over the ids the adapter produces

    The model keeps as [space.id] what [generateId] returned: a string or,
    for a name whose slug is [constructor], the function [Object], which the
    lookup in the override table inherits from [Object.prototype].
    [attachSvgHandlers] reads nothing else of a space, so the model is here
    the list of its space ids. *)

Inductive SpaceId :=
| StringId (s : string)
| ObjectFunction.                          (* the function [Object] *)

(** What the binding code reads and writes, the listeners with the id they
    hand to [handleMarkerClick]. *)
Record Registry := mkRegistry {
  r_doc : Document;
  r_bound : list Handle;
  r_clicks : list (Handle * SpaceId);
}.

(** The controller and the page as [attachSvgHandlers] sees them. *)
Record Loaded := mkLoaded {
  spaceIds : list SpaceId;                 (* [space.id] of [getAllSpaces()], in order *)
  l_page : Page;
  l_bound : list Handle;                   (* the controller's set of bound elements *)
  l_clicks : list (Handle * SpaceId);      (* click listeners of [attachInteraction] *)
}.

Module BindingJs.
Import Model SpaceView.
Local Open Scope list_scope.

(** The id of a space object built by the adapter. *)
Definition ofValue (v : Value) : option SpaceId :=
  match v with
  | VStr s => Some (StringId s)
  | VBuiltin "constructor" => Some ObjectFunction
  | _ => None
  end.

(** The id as a string: what [getElementById] looks up. *)
Definition toString (spaceId : SpaceId) : string :=
  match spaceId with
  | StringId s => s
  | ObjectFunction => Js.toString (VBuiltin "constructor")
  end.

Definition attachInteraction (el : Handle) (spaceId : SpaceId) (r : Registry)
    : Registry :=
  match r_doc r !! el with
  | None => r
  | Some n =>
    if bool_decide (getAttribute "data-gh-bound" n = Some "true") then r
    else if bool_decide (el ∈ r_bound r) then r
    else
      mkRegistry
        (alter (λ n, setAttribute "data-gh-bound" "true" (setStyle "cursor" "pointer" n))
               el (r_doc r))
        (el :: r_bound r)
        (r_clicks r ++ [(el, spaceId)])
  end.

(** Step 1 of [attachSvgHandlers]: the value of [data-space-id] is a
    string. *)
Definition bindDynamic (st : Registry * list Handle) (el : Handle)
    : Registry * list Handle :=
  let '(r, processedElements) := st in
  match r_doc r !! el with
  | None => st
  | Some n =>
    match getAttribute "data-space-id" n with
    | Some spaceId =>
      if String.eqb spaceId "" then st
      else (attachInteraction el (StringId spaceId) r, el :: processedElements)
    | None => st
    end
  end.

(** The lookups of one round of [spaces.forEach].  A string id goes the way
    of [Binding.resolveMarker].  The function [Object] is looked up by
    [getElementById] under the string it converts to; no [g.id] is identical
    to it; and when no element is found the test [space.id.endsWith('s')]
    calls [undefined], a function having no [endsWith]. *)
Definition resolveMarker (doc : Document) (spaceId : SpaceId) : Exc (option Handle) :=
  match spaceId with
  | StringId s => Ok (Binding.resolveMarker doc s)
  | ObjectFunction =>
    match getElementById doc (toString ObjectFunction) with
    | Some el => Ok (Some el)
    | None => Throw TypeError
    end
  end.

(** One round of [spaces.forEach] in step 2. *)
Definition bindSpace (st : Registry * list Handle) (spaceId : SpaceId)
    : Exc (Registry * list Handle) :=
  let '(r, processedElements) := st in
  found ← resolveMarker (r_doc r) spaceId;
  match found with
  | Some el =>
    if bool_decide (el ∈ processedElements) then Ok st
    else Ok (attachInteraction el spaceId r, el :: processedElements)
  | None => Ok st
  end.

(** [spaces.forEach(...)]: the rounds run in list order until one throws;
    what the rounds before it did to the document and to the listeners
    stays. *)
Fixpoint forEach (st : Registry * list Handle) (ids : list SpaceId)
    : (Registry * list Handle) * Completion :=
  match ids with
  | [] => (st, Normal)
  | spaceId :: rest =>
    match bindSpace st spaceId with
    | Ok st => forEach st rest
    | Throw _ => (st, Thrown "TypeError: space.id.endsWith is not a function")
    end
  end.

(** [attachSvgHandlers(svgObject)]: the state it leaves and how it ends. *)
Definition attachSvgHandlers (svgObject : string) (s : Loaded) : Loaded * Completion :=
  match l_page s !! svgObject with
  | None => (s, Normal)
  | Some obj =>
    match contentDocument obj with
    | None => (s, Normal)
    | Some doc =>
      let doc :=
        match getElementById doc "Map" with
        | Some mapGroup => alter (setStyle "display" "none") mapGroup doc
        | None => doc
        end in
      let doc := default doc (initMarkerVisibility (Some doc)) in
      let dynamicElements := querySelectorAll_attr doc "data-space-id" in
      let st := (mkRegistry doc (l_bound s) (l_clicks s), []) in
      let st := foldl bindDynamic st dynamicElements in
      let '(st, completion) := forEach st (spaceIds s) in
      let r := fst st in
      (mkLoaded (spaceIds s)
                (<[svgObject := with_contentDocument (r_doc r) obj]> (l_page s))
                (r_bound r) (r_clicks r),
       completion)
    end
  end.

(** The application of [Binding], whose space ids are strings, as a state
    of this module. *)
Definition withStringId (c : Handle * string) : Handle * SpaceId :=
  (fst c, StringId (snd c)).
Definition ofWiring (w : Wiring) : Registry :=
  mkRegistry (w_doc w) (w_bound w) (withStringId <$> w_clicks w).
Definition ofApp (a : App) : Loaded :=
  mkLoaded (StringId ∘ space_id <$> spaces (model a)) (page a) (boundElements a)
           (withStringId <$> clickListeners a).

(** A space of a given id; the binding code reads nothing else of a
    space. *)
Definition spaceOfId (i : string) : Space :=
  mkSpace i "" "" "" (mkOverview "" "" "") [] (mkNarrative "" "" "").

(** The space ids handed to the click listeners registered on [h]. *)
Definition listenersOn (clicks : list (Handle * SpaceId)) (h : Handle) : list SpaceId :=
  snd <$> List.filter (fun c => Nat.eqb (fst c) h) clicks.

(** The first id of the list that resolves to [h]. *)
Definition firstIdResolving (doc : Document) (ids : list string) (h : Handle)
    : option string :=
  List.find (fun i => bool_decide (Binding.resolveMarker doc i = Some h)) ids.

(** The binding order of [attachSvgHandlers] over string ids: the element's
    own [data-space-id] first, then the first id that resolves to it. *)
Definition bindingOf (doc : Document) (ids : list string) (h : Handle) : option string :=
  match Obs.dynamicId doc h with
  | Some v => Some v
  | None => firstIdResolving doc ids h
  end.

(** Nothing of the document carries the mark of a bound element. *)
Definition unbound (doc : Document) : Prop :=
  ∀ h n, doc !! h = Some n → getAttribute "data-gh-bound" n ≠ Some "true".

End BindingJs.

(** ** Clicks on the markers document

    A click dispatched on an element runs the click listeners of that
    element, then those of its parent, and so on up to the document itself.
    The listener that [attachInteraction] registers stops the propagation:
    once an element with such listeners is reached, its listeners run and
    nothing above it is notified. *)

Module Events.
Import Controller Overlay.
Local Open Scope list_scope.

(** The elements a click on [h] passes, from [h] up. *)
Fixpoint propagationPath (fuel : nat) (doc : Document) (h : Handle) : list Handle :=
  match fuel with
  | 0 => []
  | S fuel =>
    match doc !! h with
    | None => []
    | Some n =>
      h :: match parent n with
           | Some p => propagationPath fuel doc p
           | None => []
           end
    end
  end.

Definition hasListener (clicks : list (Handle * string)) (h : Handle) : bool :=
  match Obs.listenersOn clicks h with
  | [] => false
  | _ :: _ => true
  end.

(** The listeners of one element run, in the order of their registration:
    [e.stopPropagation(); this.handleMarkerClick(spaceId)]. *)
Definition runListeners (spaceIds : list string) (a : App) : App :=
  foldl (λ a spaceId, handleMarkerClick spaceId a) a spaceIds.

(** The click listeners on the document itself run; each run of
    [attachSvgHandlers] has registered one, [() => this.view.restoreLandingSvg()]. *)
Fixpoint runDocumentListeners (documentListeners : nat) (a : App) : App * list Timer :=
  match documentListeners with
  | 0 => (a, [])
  | S k =>
    let '(a, timers) := restore a in
    let '(a, timers') := runDocumentListeners k a in
    (a, timers ++ timers')
  end.

(** [target.dispatchEvent(new MouseEvent('click', { bubbles: true }))] for
    an element of the markers document, and a click of the user on it. *)
Definition dispatchClick (documentListeners : nat) (target : Handle) (a : App)
    : App * list Timer :=
  match Obs.markersDocument (page a) with
  | None => (a, [])
  | Some doc =>
    match propagationPath (length doc) doc target with
    | [] => (a, [])
    | path =>
      match List.find (hasListener (clickListeners a)) path with
      | Some el => (runListeners (Obs.listenersOn (clickListeners a) el) a, [])
      | None => runDocumentListeners documentListeners a
      end
    end
  end.

(** The click listener that [attachOverlayHandlers] puts on the overlay's
    document: the click is handed on to the element of the markers document
    under the pointer, [targetUnderneath], which is what the browser's
    [elementFromPoint] returns. *)
Definition overlayBackgroundClick (documentListeners : nat)
    (targetUnderneath : option Handle) (a : App) : App * list Timer :=
  match Obs.markersDocument (page a), targetUnderneath with
  | Some _, Some target => dispatchClick documentListeners target a
  | _, _ => restore a
  end.

(** The store lists every element after its parent. *)
Definition treeOrdered (doc : Document) : Prop :=
  ∀ h n p, doc !! h = Some n → parent n = Some p → p < h.

(** Going up from [h], the first element that has a binding is [el], and
    its binding is [spaceId]. *)
Inductive nearestBinding (doc : Document) (binding : Handle → option string)
    : Handle → Handle → string → Prop :=
| nearest_here h n spaceId :
    doc !! h = Some n → binding h = Some spaceId →
    nearestBinding doc binding h h spaceId
| nearest_up h n p el spaceId :
    doc !! h = Some n → binding h = None → parent n = Some p →
    nearestBinding doc binding p el spaceId →
    nearestBinding doc binding h el spaceId.

(** Going up from [h], no element has a binding. *)
Inductive noBinding (doc : Document) (binding : Handle → option string)
    : Handle → Prop :=
| unbound_root h n :
    doc !! h = Some n → binding h = None → parent n = None →
    noBinding doc binding h
| unbound_up h n p :
    doc !! h = Some n → binding h = None → parent n = Some p →
    noBinding doc binding p →
    noBinding doc binding h.

End Events.

(** ** The checks the controller carries ([testVisibilityLogic],
    [runMarkerClickTest]) *)

Inductive Status := status_ok | status_fail | status_missing.

Module SelfTest.
Import Model SpaceView Obs Events.
Local Open Scope list_scope.

(** [testVisibilityLogic()]: what it returns or throws, and the page it
    leaves. *)
Definition testVisibilityLogic (page : Page) : Exc bool * Page :=
  match markersDocument page with
  | None => (Ok false, page)
  | Some doc =>
    match getElementById doc "lobby" with
    | None => (Ok false, page)
    | Some lobby =>
      let hasGroupClass := hasClass doc lobby APP_CONFIG.markerGroup in
      match children_with_tag doc lobby "g" with
      | [] => (Throw TypeError, page)            (* [children[0]] is undefined *)
      | first :: rest =>
        let child1Visible := hasClass doc first APP_CONFIG.childVisible in
        let child2Hidden :=
          match rest with
          | second :: _ => hasClass doc second APP_CONFIG.childHidden
          | [] => true
          end in
        if negb hasGroupClass || negb child1Visible || negb child2Hidden
        then (Ok false, page)
        else
          let page := updateMarkerVisibility (Some "gym") page in
          let doc := default doc (markersDocument page) in
          let lobbyDimmed := hasClass doc lobby APP_CONFIG.markerDimmed in
          match getElementById doc "gym" with
          | None => (Throw TypeError, page)      (* [gym] is null *)
          | Some gym =>
            let gymNotDimmed := negb (hasClass doc gym APP_CONFIG.markerDimmed) in
            if negb lobbyDimmed || negb gymNotDimmed then (Ok false, page)
            else
              let page := updateMarkerVisibility None page in
              let doc := default doc (markersDocument page) in
              let lobbyRestored := negb (hasClass doc lobby APP_CONFIG.markerDimmed) in
              if negb lobbyRestored then (Ok false, page) else (Ok true, page)
          end
      end
    end
  end.

(** [doc.getElementById(id)], else the first group of that id. *)
Definition markerOfId (doc : Document) (id : string) : option Handle :=
  match getElementById doc id with
  | Some el => Some el
  | None => findGroupById doc id
  end.

(** One round of the [ids.forEach] loop of [runMarkerClickTest]; the
    [detail] of a result is left out. *)
Definition testMarker (documentListeners : nat)
    (st : list (string * Status) * App * list Timer) (id : string)
    : list (string * Status) * App * list Timer :=
  let '(results, a, timers) := st in
  let doc := default [] (markersDocument (page a)) in
  match markerOfId doc id with
  | None => (results ++ [(id, status_missing)], a, timers)
  | Some el =>
    let space := getSpace (model a) (Some id) in
    let '(a', timers') := dispatchClick documentListeners el a in
    let overlay := page a' !! APP_CONFIG.overlaySvg in
    let overlayVisible :=
      match overlay with
      | Some o => contains "is-visible" (pe_classList o)
      | None => false
      end in
    let overlayData := overlay ≫= pe_data in
    let expectedData := markerImg <$> space in
    let ok :=
      bool_decide (currentSpaceId (model a') = Some id) && overlayVisible
      && bool_decide (overlayData = expectedData) in
    (results ++ [(id, if ok then status_ok else status_fail)], a', timers ++ timers')
  end.

(** [runMarkerClickTest(ids)]: the results, with the state and the timers
    the clicks leave. *)
Definition runMarkerClickTest (documentListeners : nat) (ids : list string) (a : App)
    : list (string * Status) * App * list Timer :=
  match markersDocument (page a) with
  | None => ([], a, [])
  | Some _ => foldl (testMarker documentListeners) ([], a, []) ids
  end.

End SelfTest.

(** ** The modal: scenes, tabs and panels

    The elements that the view reads without testing for them (the modal
    and its title, the system name, the tabs, the three tab panels, the two
    scenes, the back button, the popover) are taken to be in the page; each
    is a field of the record below.  The object of the detail scene is
    tested for by the code, and may be missing. *)

Record Tab := mkTab {
  dataset_tab : option string;             (* [t.dataset.tab] *)
  tab_classList : list string;
  disabled : bool;
  tab_opacity : option string;             (* [t.style.opacity] *)
  tab_cursor : option string;              (* [t.style.cursor] *)
}.

(** What the code writes into a panel with [innerHTML]: one of its two
    templates, with the values it fills in. *)
Inductive Markup :=
| AsLoaded                                              (* the markup the page came with *)
| OverviewLayout (bgImg title body : string)
| NarrativeLayout (title body img name : string).

Record Panel := mkPanel {
  panel_classList : list string;
  innerHTML : Markup;
}.

Record Modal := mkModal {
  modal_display : option string;           (* [this.modal.style.display] *)
  body_overflow : option string;           (* [document.body.style.overflow] *)
  modalTitle : string;                     (* [this.modalTitle.textContent] *)
  modalSystemName : string;                (* [this.modalSystemName.textContent] *)
  modalSystemName_display : option string;
  modalTabs : list Tab;
  overviewContent : Panel;
  systemEquipmentContent : Panel;
  designNarrativeContent : Panel;
  otherTabContents : list (list string);   (* class lists of the other [.tab-content] elements *)
  buildingScene : list string;             (* class list *)
  detailScene : list string;               (* class list *)
  modalBackBtn_display : option string;
  popover_display : option string;
  spaceSvg_data : option (option string);  (* [data] of the detail scene's object;
                                              [None]: the page has no such object *)
}.

Module ModalView.

Definition tabs_overview : string := "overview".
Definition tabs_equipment : string := "system-equipment".
Definition tabs_narrative : string := "design-narrative".

Definition showModal (m : Modal) : Modal :=
  mkModal (Some "flex") (Some "hidden") (modalTitle m) (modalSystemName m)
          (modalSystemName_display m) (modalTabs m) (overviewContent m)
          (systemEquipmentContent m) (designNarrativeContent m) (otherTabContents m)
          (buildingScene m) (detailScene m) (modalBackBtn_display m)
          (popover_display m) (spaceSvg_data m).

(** [hidePopover()], on the page and on the view's flag. *)
Definition hidePopover (m : Modal) : Modal :=
  mkModal (modal_display m) (body_overflow m) (modalTitle m) (modalSystemName m)
          (modalSystemName_display m) (modalTabs m) (overviewContent m)
          (systemEquipmentContent m) (designNarrativeContent m) (otherTabContents m)
          (buildingScene m) (detailScene m) (modalBackBtn_display m)
          (Some "none") (spaceSvg_data m).
Definition hidePopover_flag (a : App) : App :=
  mkApp (model a) (page a) (carousel a) false (view_model a)
        (boundElements a) (clickListeners a).

Definition hideModal (m : Modal) : Modal :=
  hidePopover
    (mkModal (Some "none") (Some "auto") (modalTitle m) (modalSystemName m)
             (modalSystemName_display m) (modalTabs m) (overviewContent m)
             (systemEquipmentContent m) (designNarrativeContent m) (otherTabContents m)
             (buildingScene m) (detailScene m) (modalBackBtn_display m)
             (popover_display m) (spaceSvg_data m)).

(** The body of the [forEach] callback of [setTabsState]. *)
Definition setTabState (enabled : bool) (t : Tab) : Tab :=
  if enabled
  then mkTab (dataset_tab t) (tab_classList t) false (Some "1") (Some "pointer")
  else mkTab (dataset_tab t) (remove "active" (tab_classList t)) true
             (Some "0.5") (Some "not-allowed").

Definition with_modalTabs (f : list Tab → list Tab) (m : Modal) : Modal :=
  mkModal (modal_display m) (body_overflow m) (modalTitle m) (modalSystemName m)
          (modalSystemName_display m) (f (modalTabs m)) (overviewContent m)
          (systemEquipmentContent m) (designNarrativeContent m) (otherTabContents m)
          (buildingScene m) (detailScene m) (modalBackBtn_display m)
          (popover_display m) (spaceSvg_data m).

Definition setTabsState (enabled : bool) : Modal → Modal :=
  with_modalTabs (fmap (setTabState enabled)).

Definition switchScene (sceneName : string) (m : Modal) : Modal :=
  if String.eqb sceneName "detail" then
    setTabsState true
      (mkModal (modal_display m) (body_overflow m) (modalTitle m) (modalSystemName m)
               (modalSystemName_display m) (modalTabs m) (overviewContent m)
               (systemEquipmentContent m) (designNarrativeContent m)
               (otherTabContents m)
               (remove "active" (buildingScene m)) (add "active" (detailScene m))
               (Some "flex") (popover_display m) (spaceSvg_data m))
  else
    setTabsState false
      (mkModal (modal_display m) (body_overflow m) "" (modalSystemName m)
               (Some "none") (modalTabs m) (overviewContent m)
               (systemEquipmentContent m) (designNarrativeContent m)
               (otherTabContents m)
               (add "active" (buildingScene m)) (remove "active" (detailScene m))
               (Some "none") (popover_display m) (spaceSvg_data m)).

(** [loadSpaceSvg(markerImg)]. *)
Definition loadSpaceSvg (markerImg : string) (m : Modal) : Modal :=
  mkModal (modal_display m) (body_overflow m) (modalTitle m) (modalSystemName m)
          (modalSystemName_display m) (modalTabs m) (overviewContent m)
          (systemEquipmentContent m) (designNarrativeContent m) (otherTabContents m)
          (buildingScene m) (detailScene m) (modalBackBtn_display m)
          (popover_display m)
          (match spaceSvg_data m with
           | Some _ => Some (Some markerImg)
           | None => None
           end).

(** [t.classList.toggle('active', t.dataset.tab === tab); t.disabled = false]. *)
Definition markTab (tab : string) (t : Tab) : Tab :=
  mkTab (dataset_tab t)
        (if bool_decide (dataset_tab t = Some tab)
         then add "active" (tab_classList t)
         else remove "active" (tab_classList t))
        false (tab_opacity t) (tab_cursor t).

(** [c.classList.remove('active')] for the elements of class [tab-content]. *)
Definition deactivate (cl : list string) : list string :=
  if contains "tab-content" cl then remove "active" cl else cl.
Definition deactivatePanel (p : Panel) : Panel :=
  mkPanel (deactivate (panel_classList p)) (innerHTML p).

Definition activate (p : Panel) : Panel :=
  mkPanel (add "active" (panel_classList p)) (innerHTML p).

Section Markup.

Variable textContent : string → string.

(** [renderSpaceDetails(space, tab)]; an undefined [tab] is the overview
    tab, by the default of the parameter.  The carousel is the one of the
    page, which the equipment tab renders anew. *)
Definition renderSpaceDetails (space : option Space) (tab : option string)
    (st : Modal * Carousel) : Modal * Carousel :=
  match space with
  | None => st
  | Some space =>
    let '(m, c) := st in
    let tab := default tabs_overview tab in
    let tabs := markTab tab <$> modalTabs m in
    let overviewPanel := deactivatePanel (overviewContent m) in
    let equipmentPanel := deactivatePanel (systemEquipmentContent m) in
    let narrativePanel := deactivatePanel (designNarrativeContent m) in
    let others := remove "active" <$> otherTabContents m in
    let rendered (overviewPanel equipmentPanel narrativePanel : Panel) :=
      mkModal (modal_display m) (body_overflow m) (space_name space) (systemName space)
              (Some "block") tabs overviewPanel equipmentPanel narrativePanel others
              (buildingScene m) (detailScene m) (modalBackBtn_display m)
              (popover_display m) (spaceSvg_data m) in
    if String.eqb tab tabs_overview then
      (rendered (mkPanel (add "active" (panel_classList overviewPanel))
                         (OverviewLayout (overview_bgImg (overview space))
                                         (overview_title (overview space))
                                         (overview_body (overview space))))
                equipmentPanel narrativePanel, c)
    else if String.eqb tab tabs_equipment then
      (rendered overviewPanel (activate equipmentPanel) narrativePanel,
       CarouselView.renderProductCarousel textContent (systemEquipment space))
    else if String.eqb tab tabs_narrative then
      (rendered overviewPanel equipmentPanel
                (mkPanel (add "active" (panel_classList narrativePanel))
                         (NarrativeLayout (narrative_title (designNarrative space))
                                          (narrative_body (designNarrative space))
                                          (narrative_img (designNarrative space))
                                          (space_name space))), c)
    else (rendered overviewPanel equipmentPanel narrativePanel, c)
  end.

End Markup.

End ModalView.

(** ** The buttons of the overlay ([attachOverlayHandlers]) *)

Module OverlayHandlers.

(** [findElement(id)]: [doc.getElementById(id)], else the first element
    whose [id] attribute is [id]. *)
Definition findElement (doc : Document) (i : string) : option Handle :=
  match getElementById doc i with
  | Some el => Some el
  | None => fst <$> list_find (λ n, el_id n = i) doc
  end.

(** What [attachOverlayHandlers] does to the button of the given id, when
    the overlay's document has it; the listeners it registers are the
    listeners [OverlayView] and [OverlayClose] below. *)
Definition prepareButton (i : string) (doc : Document) : Document :=
  match findElement doc i with
  | Some btn =>
    alter (λ n, setStyle "pointer-events" "auto" (setStyle "cursor" "pointer" n)) btn doc
  | None => doc
  end.

Definition overlayViewBtn : string := "view-default".
Definition overlayCloseBtn : string := "close-btn".

(** [attachOverlayHandlers(svgObject)], [svgObject] being the page element
    of that id. *)
Definition attachOverlayHandlers (svgObject : string) (page : Page) : Page :=
  match page !! svgObject with
  | None => page
  | Some obj =>
    match contentDocument obj with
    | None => page
    | Some doc =>
      <[svgObject :=
          with_contentDocument
            (prepareButton overlayCloseBtn (prepareButton overlayViewBtn doc)) obj]> page
    end
  end.

End OverlayHandlers.

(** ** The listeners of the page

    The state they act on: the application, the modal, and the timers that
    are running. *)

Record World := mkWorld {
  w_app : App;
  w_modal : Modal;
  w_timers : list Timer;
}.

(** Where a click inside the carousel lands, as the delegated listener
    tells it apart with [closest]. *)
Inductive CarouselTarget := onNextButton | onPrevButton | elsewhere.

Inductive Listener :=
| HeroButton                                   (* first hero action *)
| ModalClose
| ModalBack
| PopoverView
| PopoverClose
| ModalTab (tabName : option string)           (* [e.target.dataset.tab] *)
| CarouselClick (target : CarouselTarget)
| CarouselDot (idx : Z)
| Marker (spaceId : string)                    (* the listener of [attachInteraction] *)
| MarkersDocument
| OverlayView
| OverlayClose
| OverlayBackground (documentListeners : nat) (targetUnderneath : option Handle)
| Timeout                                      (* the oldest timer runs out *)
| MarkersLoad                                  (* [load] of the markers object *)
| OverlayLoad.                                 (* [load] of the overlay object *)

Module Listeners.
Import Model Controller ModalView.
Local Open Scope list_scope.

Definition with_app (f : App → App) (w : World) : World :=
  mkWorld (f (w_app w)) (w_modal w) (w_timers w).
Definition with_modal (f : Modal → Modal) (w : World) : World :=
  mkWorld (w_app w) (f (w_modal w)) (w_timers w).

(** [this.view.restoreLandingSvg()]. *)
Definition restoreLandingSvg (w : World) : World :=
  mkWorld (fst (Overlay.restore (w_app w))) (w_modal w)
          (w_timers w ++ snd (Overlay.restore (w_app w))).

(** [this.view.hidePopover()]. *)
Definition hidePopover (w : World) : World :=
  with_app hidePopover_flag (with_modal ModalView.hidePopover w).

Section Markup.

Variable textContent : string → string.

(** [switchScene('detail'); renderSpaceDetails(space, overview);
    loadSpaceSvg(space.markerImg)]. *)
Definition showDetail (space : Space) (w : World) : World :=
  let m := switchScene "detail" (w_modal w) in
  let '(m, c) :=
    renderSpaceDetails textContent (Some space) (Some tabs_overview)
      (m, carousel (w_app w)) in
  mkWorld (with_carousel (λ _, c) (w_app w)) (loadSpaceSvg (markerImg space) m)
          (w_timers w).

(** The body of each listener. *)
Definition run (l : Listener) (w : World) : World :=
  match l with
  | HeroButton => with_modal (λ m, switchScene tabs_overview (showModal m)) w
  | ModalClose =>
    restoreLandingSvg (with_app hidePopover_flag (with_modal hideModal w))
  | ModalBack => restoreLandingSvg (with_modal (switchScene "overview") w)
  | PopoverView =>
    match getCurrentSpace (model (w_app w)) with
    | Some space => showDetail space (hidePopover w)
    | None => w
    end
  | PopoverClose => restoreLandingSvg (hidePopover w)
  | ModalTab tabName =>
    let '(m, c) :=
      renderSpaceDetails textContent (getCurrentSpace (model (w_app w))) tabName
        (w_modal w, carousel (w_app w)) in
    mkWorld (with_carousel (λ _, c) (w_app w)) m (w_timers w)
  | CarouselClick onNextButton => with_app nextProduct w
  | CarouselClick onPrevButton => with_app prevProduct w
  | CarouselClick elsewhere => w
  | CarouselDot idx => with_app (λ a, fst (dotClick idx a)) w
  | Marker spaceId => with_app (handleMarkerClick spaceId) w
  | MarkersDocument => restoreLandingSvg w
  | OverlayView =>
    match getCurrentSpace (model (w_app w)) with
    | Some space => showDetail space w
    | None => w
    end
  | OverlayClose => restoreLandingSvg w
  | OverlayBackground documentListeners targetUnderneath =>
    mkWorld (fst (Events.overlayBackgroundClick documentListeners targetUnderneath
                    (w_app w)))
            (w_modal w)
            (w_timers w ++ snd (Events.overlayBackgroundClick documentListeners
                                  targetUnderneath (w_app w)))
  | Timeout =>
    match w_timers w with
    | t :: timers => mkWorld (Overlay.timeout t (w_app w)) (w_modal w) timers
    | [] => w
    end
  | MarkersLoad =>
    with_app (Binding.attachSvgHandlers APP_CONFIG.buildingMarkersSvg) w
  | OverlayLoad =>
    with_app (with_page (OverlayHandlers.attachOverlayHandlers APP_CONFIG.overlaySvg)) w
  end.

(** Any sequence of listeners, run one after the other. *)
Definition runs (ls : list Listener) (w : World) : World :=
  foldl (λ w l, run l w) w ls.

End Markup.

(** The listeners other than those of the dots. *)
Definition notDot (l : Listener) : bool :=
  match l with
  | CarouselDot _ => false
  | _ => true
  end.

(** The state that [switchScene] gives the modal for the building scene. *)
Definition overviewScene (m : Modal) : Prop :=
  modalTitle m = ""
  ∧ modalSystemName_display m = Some "none"
  ∧ modalBackBtn_display m = Some "none"
  ∧ contains "active" (buildingScene m) = true
  ∧ contains "active" (detailScene m) = false
  ∧ Forall (λ t, disabled t = true ∧ contains "active" (tab_classList t) = false
                 ∧ tab_opacity t = Some "0.5" ∧ tab_cursor t = Some "not-allowed")
           (modalTabs m).

(** What no listener changes, [a0] being the application before: the
    popover stays hidden, the view gets no model, the model keeps its tab,
    its spaces, its metadata and its marker data, the index of the carousel
    stays non-negative, and the current space is the one it was or one of
    the spaces of the model. *)
Definition keeps (a0 a : App) : Prop :=
  isPopoverVisible a = false
  ∧ view_model a = None
  ∧ currentTab (model a) = currentTab (model a0)
  ∧ spaces (model a) = spaces (model a0)
  ∧ pageMetadata (model a) = pageMetadata (model a0)
  ∧ markerData (model a) = markerData (model a0)
  ∧ (0 ≤ currentProductIndex (model a))%Z
  ∧ (currentSpaceId (model a) = currentSpaceId (model a0)
     ∨ ∃ i, currentSpaceId (model a) = Some i ∧ i ∈ space_id <$> spaces (model a0)).

End Listeners.

(** ** Further concrete data, used to instantiate the statements *)

Module Sample.

(** The application with its two spaces, before and after the markers are
    bound. *)
Definition loaded : App := Example.app [Example.lobby; Example.gym].
Definition wired : App := Binding.attachSvgHandlers APP_CONFIG.buildingMarkersSvg loaded.

(** The lobby selected and its equipment rendered, every title being plain
    text. *)
Definition rendered : App :=
  with_carousel
    (λ _, CarouselView.renderProductCarousel (λ title, title)
            (systemEquipment Example.lobby))
    (Controller.handleMarkerClick "lobby" loaded).

(** An entry of the response for the gym, with one item of equipment that
    has a title only, and the space the adapter makes of it. *)
Definition gymEntry : Value :=
  VObj [("Title", VStr "School Gym");
        ("SystemEquipment", VArr [VObj [("Title", VStr "Supply Fan")]])].

Definition gymSpace : Value :=
  VObj
    [("id", VStr "gym"); ("name", VStr "School Gym"); ("systemName", VUndefined);
     ("markerImg", VStr "./Content/imgs/Space Pins and Labels with Popover/gym.svg");
     ("overview",
      VObj [("title", VStr ""); ("body", VStr "");
            ("bgImg",
             VStr "./Content/imgs/Space Pins and Labels with Popover/gym-overview.png")]);
     ("systemEquipment",
      VArr [VObj [("id", VUndefined); ("title", VStr "Supply Fan");
                  ("slideImg", VStr "./Content/imgs/prd-1.png");
                  ("body", VUndefined); ("productDetailsUrl", VStr "#");
                  ("bgImg", VStr "./Content/imgs/RooftopUnits.png")]]);
     ("designNarrative",
      VObj [("title", VStr ""); ("body", VStr "");
            ("img", VStr "./Content/imgs/k-12-hero-bg.png")])].

(** The modal as the page comes with it: three tabs, three panels, the
    building scene active; and the page with its two spaces loaded. *)
Definition tab (name : string) : Tab := mkTab (Some name) ["modal-tab"] false None None.

Definition modal : Modal :=
  mkModal None None "" "" None
          [tab "overview"; tab "system-equipment"; tab "design-narrative"]
          (mkPanel ["tab-content"; "active"] AsLoaded)
          (mkPanel ["tab-content"] AsLoaded)
          (mkPanel ["tab-content"] AsLoaded)
          []
          ["scene"; "active"] ["scene"] None None (Some None).

Definition world : World := mkWorld loaded modal [].

(** A visit: the lobby is selected, its details opened, the equipment tab
    shown, the carousel moved, a dot clicked, and the visitor goes back;
    then the timer runs out. *)
Definition visit : list Listener :=
  [ HeroButton; Marker "lobby"; OverlayView; ModalTab (Some "system-equipment");
    CarouselClick onNextButton; CarouselDot 2; ModalBack; Timeout ].

(** A response whose space list holds a number, an empty object and a
    string where spaces are expected, and the page metadata of a response
    that has none. *)
Definition malformedSpaces : Value :=
  VObj [("value", VArr [VObj [("Spaces", VArr [VNum 5; VObj []; VStr "gym"])]])].

Definition defaultMetadata : Value :=
  VObj
    [("title", VStr "K-12 Education");
     ("heroSection",
      VObj
        [("backgroundImage", VStr "./Content/imgs/k-12-hero-bg.png");
         ("title", VStr ""); ("description", VStr ""); ("actions", VArr [])]);
     ("modalMapImage", VStr "./Content/imgs/k-12-map.svg");
     ("modalMarkersImage", VStr "./Content/imgs/k-12-markers.svg")].

(** A visit to two spaces: the lobby, whose three units are stepped
    through twice, then the gym with its one unit, its equipment tab
    shown. *)
Definition twoSpaces : list Listener :=
  [ HeroButton; Marker "lobby"; OverlayView; ModalTab (Some "system-equipment");
    CarouselClick onNextButton; CarouselClick onNextButton; ModalBack;
    Marker "gym"; OverlayView; ModalTab (Some "system-equipment") ].


(** The ids the adapter gives spaces named Lobby, Constructor and School
    Gym, and the application holding them over the page of [Example]. *)
Definition schoolIds : Exc (list (option SpaceId)) :=
  mapM (λ name, BindingJs.ofValue <$> DataAdapter.generateId (VStr name))
       ["Lobby"; "Constructor"; "School Gym"].

Definition school : Loaded :=
  mkLoaded [StringId "lobby"; ObjectFunction; StringId "gym"] Example.page [] [].

End Sample.

(** * Properties *)

(** ** Class lists *)

Section ClassLists.
Implicit Types (c : string) (cl : list string).

Lemma contains_true c cl : contains c cl = true ↔ c ∈ cl.
Proof.
  unfold contains. rewrite existsb_exists. setoid_rewrite String.eqb_eq.
  setoid_rewrite <- list_elem_of_In. split; [by intros (? & ? & ->)|eauto].
Qed.

Lemma contains_app c cl1 cl2 : contains c (cl1 ++ cl2) = contains c cl1 || contains c cl2.
Proof. unfold contains. apply existsb_app. Qed.

Lemma contains_add c c' cl : contains c (add c' cl) = String.eqb c c' || contains c cl.
Proof.
  unfold add. destruct (contains c' cl) eqn:E.
  - destruct (String.eqb_spec c c') as [->|]; [by rewrite E|done].
  - rewrite contains_app. simpl. rewrite orb_false_r. apply orb_comm.
Qed.

Lemma contains_remove c c' cl :
  contains c (remove c' cl) = negb (String.eqb c c') && contains c cl.
Proof.
  unfold remove, contains. induction cl as [|x cl IH]; simpl.
  - by rewrite andb_false_r.
  - destruct (String.eqb_spec c' x) as [->|Hne]; simpl; rewrite IH.
    + destruct (String.eqb_spec c x); simpl; [done|].
      by destruct (negb _).
    + destruct (String.eqb_spec c x) as [->|]; simpl; [|done].
      destruct (String.eqb_spec x c'); [congruence|done].
Qed.

Lemma add_present c cl : contains c cl = true → add c cl = cl.
Proof. unfold add. by intros ->. Qed.

Lemma remove_absent c cl : contains c cl = false → remove c cl = cl.
Proof.
  unfold remove, contains. induction cl as [|x cl IH]; simpl; [done|].
  intros [Hx Hcl]%orb_false_iff. rewrite Hx. simpl. by rewrite IH.
Qed.

Lemma add_add c cl : add c (add c cl) = add c cl.
Proof. apply add_present. rewrite contains_add, String.eqb_refl. done. Qed.

Lemma remove_remove c cl : remove c (remove c cl) = remove c cl.
Proof.
  apply remove_absent. rewrite contains_remove, String.eqb_refl. done.
Qed.

End ClassLists.

(** ** Updates that leave the lookups alone *)

Section Skeleton.
Import Obs.
Implicit Types (d : Document) (h : Handle) (n : Node).

Lemma with_classList_id f n : f (classList n) = classList n → with_classList f n = n.
Proof. destruct n. unfold with_classList. simpl. by intros ->. Qed.

Lemma skeleton_with_classList f n : skeleton (with_classList f n) = skeleton n.
Proof. done. Qed.

Lemma alter_id_at {A} (f : A → A) (l : list A) i :
  (∀ x, l !! i = Some x → f x = x) → alter f i l = l.
Proof.
  intros Hf. apply list_eq. intros j. rewrite list_lookup_alter.
  case_decide; [subst|done]. destruct (l !! j) eqn:E; simpl; [|done].
  by rewrite Hf.
Qed.

Lemma skeleton_alter f h d :
  (∀ n, skeleton (f n) = skeleton n) →
  skeleton <$> alter f h d = skeleton <$> d.
Proof.
  intros Hf. apply list_eq. intros j. rewrite !list_lookup_fmap, list_lookup_alter.
  case_decide; [subst|done]. destruct (d !! j); simpl; [|done]. by rewrite Hf.
Qed.

Lemma skeleton_lookup d d' h :
  skeleton <$> d = skeleton <$> d' → skeleton <$> d !! h = skeleton <$> d' !! h.
Proof. intros E. rewrite <- !list_lookup_fmap. by rewrite E. Qed.

Lemma skeleton_length d d' : skeleton <$> d = skeleton <$> d' → length d = length d'.
Proof. intros E. rewrite <- (length_fmap skeleton d), E. apply length_fmap. Qed.

Ltac skeleton_cases d d' h E :=
  let Hi := fresh "Hi" in
  let Ht := fresh "Ht" in
  let Hid := fresh "Hid" in
  let Hp := fresh "Hp" in
  pose proof (skeleton_lookup d d' h E) as Hi;
  destruct (d !! h) as [?n|], (d' !! h) as [?n|]; simpl in Hi; try done;
  injection Hi as Ht Hid Hp; rewrite ?Ht, ?Hid, ?Hp.

Lemma getElementById_skeleton d d' i :
  skeleton <$> d = skeleton <$> d' → getElementById d i = getElementById d' i.
Proof.
  intros E. unfold getElementById. destruct (String.eqb i ""); [done|].
  change (λ n, el_id n = i) with ((λ s : string * string * option Handle, s.1.2 = i) ∘ skeleton).
  pose proof (list_find_fmap skeleton (λ s, s.1.2 = i) d) as H1.
  pose proof (list_find_fmap skeleton (λ s, s.1.2 = i) d') as H2.
  rewrite E in H1. rewrite H2 in H1.
  destruct (list_find _ d) as [[]|], (list_find _ d') as [[]|]; simpl in *; congruence.
Qed.

Lemma querySelector_skeleton d d' tag :
  skeleton <$> d = skeleton <$> d' → querySelector d tag = querySelector d' tag.
Proof.
  intros E. unfold querySelector.
  change (λ n, tagName n = tag) with ((λ s : string * string * option Handle, s.1.1 = tag) ∘ skeleton).
  pose proof (list_find_fmap skeleton (λ s, s.1.1 = tag) d) as H1.
  pose proof (list_find_fmap skeleton (λ s, s.1.1 = tag) d') as H2.
  rewrite E in H1. rewrite H2 in H1.
  destruct (list_find _ d) as [[]|], (list_find _ d') as [[]|]; simpl in *; congruence.
Qed.

Lemma findGroupById_skeleton d d' i :
  skeleton <$> d = skeleton <$> d' → findGroupById d i = findGroupById d' i.
Proof.
  intros E. unfold findGroupById.
  change (λ n, tagName n = "g" ∧ el_id n = i)
    with ((λ s : string * string * option Handle, s.1.1 = "g" ∧ s.1.2 = i) ∘ skeleton).
  pose proof (list_find_fmap skeleton (λ s, s.1.1 = "g" ∧ s.1.2 = i) d) as H1.
  pose proof (list_find_fmap skeleton (λ s, s.1.1 = "g" ∧ s.1.2 = i) d') as H2.
  rewrite E in H1. rewrite H2 in H1.
  destruct (list_find _ d) as [[]|], (list_find _ d') as [[]|]; simpl in *; congruence.
Qed.

Lemma is_child_with_tag_skeleton d d' h tag i :
  skeleton <$> d = skeleton <$> d' →
  is_child_with_tag d h tag i = is_child_with_tag d' h tag i.
Proof.
  intros E. unfold is_child_with_tag.
  skeleton_cases d d' i E. done.
Qed.

Lemma children_with_tag_skeleton d d' h tag :
  skeleton <$> d = skeleton <$> d' →
  children_with_tag d h tag = children_with_tag d' h tag.
Proof.
  intros E. unfold children_with_tag. rewrite (skeleton_length d d' E).
  apply List.filter_ext. intros i. by apply is_child_with_tag_skeleton.
Qed.

Lemma markerContainer_skeleton d d' :
  skeleton <$> d = skeleton <$> d' →
  SpaceView.markerContainer d = SpaceView.markerContainer d'.
Proof.
  intros E. unfold SpaceView.markerContainer.
  rewrite (getElementById_skeleton d d' _ E), (querySelector_skeleton d d' _ E). done.
Qed.

Lemma notRoof_skeleton d d' h :
  skeleton <$> d = skeleton <$> d' → notRoof d h = notRoof d' h.
Proof.
  intros E. unfold notRoof. skeleton_cases d d' h E. done.
Qed.

Lemma markerGroups_skeleton d d' :
  skeleton <$> d = skeleton <$> d' → markerGroups d = markerGroups d'.
Proof.
  intros E. unfold markerGroups. rewrite (markerContainer_skeleton d d' E).
  destruct (SpaceView.markerContainer d'); [|done].
  rewrite (children_with_tag_skeleton d d' _ _ E).
  apply List.filter_ext. intros i. by apply notRoof_skeleton.
Qed.

Lemma idOf_skeleton d d' h :
  skeleton <$> d = skeleton <$> d' → idOf d h = idOf d' h.
Proof.
  intros E. unfold idOf. skeleton_cases d d' h E. done.
Qed.

Lemma children_with_tag_NoDup d h tag : NoDup (children_with_tag d h tag).
Proof.
  unfold children_with_tag. apply NoDup_ListNoDup, List.NoDup_filter, List.seq_NoDup.
Qed.

Lemma elem_of_children_with_tag d h tag i :
  i ∈ children_with_tag d h tag ↔
  ∃ n, d !! i = Some n ∧ parent n = Some h ∧ tagName n = tag.
Proof.
  unfold children_with_tag. rewrite list_elem_of_In, List.filter_In, List.in_seq.
  unfold is_child_with_tag. split.
  - intros [_ Hc]. destruct (d !! i) as [n|]; [|done].
    apply andb_true_iff in Hc as [Hp Ht]. apply bool_decide_eq_true in Hp.
    apply String.eqb_eq in Ht. eauto.
  - intros (n & Hn & Hp & Ht). split.
    + apply lookup_lt_Some in Hn. lia.
    + rewrite Hn. apply andb_true_iff. split.
      * by apply bool_decide_eq_true.
      * by apply String.eqb_eq.
Qed.

End Skeleton.

(** ** Marker dimming ([updateMarkerVisibility]) *)

Section Dimming.
Import Obs SpaceView.
Implicit Types (d : Document) (h g : Handle) (n : Node) (a : option string)
  (page : Page).

Lemma alter_ext_at {A} (f f' : A → A) (l : list A) i :
  (∀ x, l !! i = Some x → f x = f' x) → alter f i l = alter f' i l.
Proof.
  intros Hf. apply list_eq. intros j. rewrite !list_lookup_alter.
  case_decide; [subst|done]. destruct (l !! j) eqn:E; simpl; [|done].
  by rewrite Hf.
Qed.

Lemma foldl_alter_lookup {A} (f : A → A) (l : list A) (js : list nat) j :
  NoDup js →
  foldl (λ l i, alter f i l) l js !! j =
  if bool_decide (j ∈ js) then f <$> l !! j else l !! j.
Proof.
  intros Hnd. revert l. induction Hnd as [|i js Hi Hnd IH]; intros l; simpl.
  - done.
  - rewrite IH, list_lookup_alter. destruct (decide (j ∈ js)) as [Hj|Hj].
    + rewrite (bool_decide_eq_true_2 _ Hj).
      rewrite bool_decide_eq_true_2 by (by right).
      destruct (decide (i = j)) as [->|]; [by destruct Hi|done].
    + rewrite (bool_decide_eq_false_2 _ Hj). destruct (decide (i = j)) as [->|].
      * rewrite bool_decide_eq_true_2 by (by left). done.
      * rewrite bool_decide_eq_false_2; [done|]. rewrite elem_of_cons. by intros [?|?].
Qed.

Lemma dimGroup_alter a d g : dimGroup a d g = alter (dimNode a) g d.
Proof.
  unfold dimGroup. destruct (d !! g) as [n|] eqn:E.
  - assert (Hn : ∀ x, d !! g = Some x → x = n) by (intros; congruence).
    unfold classList_contains.
    destruct (String.eqb (el_id n) APP_CONFIG.buildingRoof) eqn:Hroof.
    { symmetry. apply alter_id_at. intros x ->%Hn. unfold dimNode. by rewrite Hroof. }
    destruct (truthy a && differs (el_id n) a) eqn:Hact;
      destruct (contains APP_CONFIG.markerDimmed (classList n)) eqn:Hc; simpl.
    + symmetry. apply alter_id_at. intros x ->%Hn. unfold dimNode.
      rewrite Hroof, Hact. by apply with_classList_id, add_present.
    + apply alter_ext_at. intros x ->%Hn. unfold dimNode. by rewrite Hroof, Hact.
    + apply alter_ext_at. intros x ->%Hn. unfold dimNode. by rewrite Hroof, Hact.
    + symmetry. apply alter_id_at. intros x ->%Hn. unfold dimNode.
      rewrite Hroof, Hact. by apply with_classList_id, remove_absent.
  - symmetry. apply alter_id_at. intros; congruence.
Qed.

Lemma skeleton_dimNode a n : skeleton (dimNode a n) = skeleton n.
Proof. unfold dimNode. by repeat case_match. Qed.

Lemma dimNode_idemp a n : dimNode a (dimNode a n) = dimNode a n.
Proof.
  unfold dimNode. destruct n as [t i cl at_ st p]. simpl.
  destruct (String.eqb i APP_CONFIG.buildingRoof) eqn:E; simpl; [by rewrite E|].
  destruct (truthy a && differs i a) eqn:E2; simpl; rewrite E, E2;
    unfold classList_add, classList_remove, with_classList; simpl;
    by rewrite ?add_add, ?remove_remove.
Qed.

Lemma dimDocument_foldl a d :
  dimDocument a d =
  match markerContainer d with
  | Some c => foldl (λ l i, alter (dimNode a) i l) d (children_with_tag d c "g")
  | None => d
  end.
Proof.
  unfold dimDocument. destruct (markerContainer d) as [c|]; [|done].
  generalize (children_with_tag d c "g"). intros gs. revert d.
  induction gs as [|g gs IH]; intros d; simpl; [done|].
  by rewrite dimGroup_alter, IH.
Qed.

Lemma dimDocument_lookup a d h :
  dimDocument a d !! h =
  if bool_decide (h ∈ markerGroups d) then dimNode a <$> d !! h else d !! h.
Proof.
  rewrite dimDocument_foldl. unfold markerGroups.
  destruct (markerContainer d) as [c|]; [|done].
  rewrite foldl_alter_lookup by apply children_with_tag_NoDup.
  destruct (decide (h ∈ children_with_tag d c "g")) as [Hh|Hh].
  - rewrite (bool_decide_eq_true_2 _ Hh). case_bool_decide as Hf; [done|].
    rewrite list_elem_of_In, List.filter_In, <- list_elem_of_In in Hf.
    assert (notRoof d h = false) as Hr by (destruct (notRoof d h); [by destruct Hf|done]).
    unfold notRoof in Hr. destruct (d !! h) as [n|]; [|done]. simpl.
    unfold dimNode. apply negb_false_iff in Hr. by rewrite Hr.
  - rewrite (bool_decide_eq_false_2 _ Hh). rewrite bool_decide_eq_false_2; [done|].
    rewrite list_elem_of_In, List.filter_In, <- list_elem_of_In. by intros [? _].
Qed.

Lemma skeleton_dimDocument a d : skeleton <$> dimDocument a d = skeleton <$> d.
Proof.
  apply list_eq. intros h. rewrite !list_lookup_fmap, dimDocument_lookup.
  case_bool_decide; [|done]. destruct (d !! h); simpl; [|done].
  by rewrite skeleton_dimNode.
Qed.

Lemma dimDocument_idemp a d : dimDocument a (dimDocument a d) = dimDocument a d.
Proof.
  apply list_eq. intros h. rewrite dimDocument_lookup.
  rewrite (markerGroups_skeleton _ _ (skeleton_dimDocument a d)).
  rewrite dimDocument_lookup. case_bool_decide; [|done].
  destruct (d !! h); simpl; [|done]. by rewrite dimNode_idemp.
Qed.

Lemma isDimmed_dimDocument a d h :
  h ∈ markerGroups d →
  isDimmed (dimDocument a d) h = truthy a && differs (idOf d h) a.
Proof.
  intros Hh. unfold isDimmed, hasClass, idOf. rewrite dimDocument_lookup.
  rewrite (bool_decide_eq_true_2 _ Hh).
  unfold markerGroups in Hh.
  destruct (markerContainer d) as [c|]; [|by apply elem_of_nil in Hh].
  rewrite list_elem_of_In, List.filter_In in Hh. destruct Hh as [_ Hr].
  unfold notRoof in Hr. destruct (d !! h) as [n|]; [|done]. simpl.
  unfold dimNode. apply negb_true_iff in Hr. rewrite Hr.
  unfold classList_contains, classList_add, classList_remove.
  destruct (truthy a && differs (el_id n) a); simpl.
  - by rewrite contains_add, String.eqb_refl.
  - by rewrite contains_remove, String.eqb_refl.
Qed.

Lemma updateMarkerVisibility_unfold a page :
  updateMarkerVisibility a page =
  match page !! APP_CONFIG.buildingMarkersSvg with
  | Some svgObj =>
    match contentDocument svgObj with
    | Some doc =>
      match markerContainer doc with
      | Some _ =>
        <[APP_CONFIG.buildingMarkersSvg :=
            with_contentDocument (dimDocument a doc) svgObj]> page
      | None => page
      end
    | None => page
    end
  | None => page
  end.
Proof.
  unfold updateMarkerVisibility, dimDocument.
  repeat case_match; simplify_eq; done.
Qed.

Lemma markersDocument_update a page :
  markersDocument (updateMarkerVisibility a page) = dimDocument a <$> markersDocument page.
Proof.
  rewrite updateMarkerVisibility_unfold. unfold markersDocument.
  destruct (page !! APP_CONFIG.buildingMarkersSvg) as [obj|] eqn:E; simpl; [|by rewrite E].
  destruct (contentDocument obj) as [doc|] eqn:E2; simpl.
  - destruct (markerContainer doc) eqn:E3.
    + by rewrite lookup_insert_eq.
    + rewrite E. simpl. rewrite E2. simpl. unfold dimDocument. by rewrite E3.
  - rewrite E. simpl. by rewrite E2.
Qed.

Lemma updateMarkerVisibility_idemp a page :
  updateMarkerVisibility a (updateMarkerVisibility a page) = updateMarkerVisibility a page.
Proof.
  rewrite (updateMarkerVisibility_unfold a page).
  destruct (page !! APP_CONFIG.buildingMarkersSvg) as [obj|] eqn:E;
    [|by rewrite updateMarkerVisibility_unfold, E].
  destruct (contentDocument obj) as [doc|] eqn:E2;
    [|by rewrite updateMarkerVisibility_unfold, E, E2].
  destruct (markerContainer doc) as [c|] eqn:E3;
    [|by rewrite updateMarkerVisibility_unfold, E, E2, E3].
  rewrite updateMarkerVisibility_unfold, lookup_insert_eq. simpl.
  rewrite (markerContainer_skeleton _ _ (skeleton_dimDocument a doc)), E3.
  rewrite insert_insert_eq, dimDocument_idemp. done.
Qed.

End Dimming.

Section DimmingSequences.
Import Obs SpaceView.
Implicit Types (d : Document) (h : Handle) (a : option string) (page : Page)
  (calls : list (option string)).

Lemma skeleton_dimSeq calls d :
  skeleton <$> foldl (λ d a, dimDocument a d) d calls = skeleton <$> d.
Proof.
  revert d. induction calls as [|a calls IH]; intros d; simpl; [done|].
  by rewrite IH, skeleton_dimDocument.
Qed.

Lemma markersDocument_setActiveSeq calls page :
  markersDocument (setActiveSeq calls page) =
  (λ d, foldl (λ d a, dimDocument a d) d calls) <$> markersDocument page.
Proof.
  unfold setActiveSeq. revert page.
  induction calls as [|a calls IH]; intros page; simpl.
  - by destruct (markersDocument page).
  - rewrite IH, markersDocument_update. by destruct (markersDocument page).
Qed.

Lemma pageMarkerGroups_setActiveSeq calls page :
  pageMarkerGroups (setActiveSeq calls page) = pageMarkerGroups page.
Proof.
  unfold pageMarkerGroups. rewrite markersDocument_setActiveSeq.
  destruct (markersDocument page) as [d|]; simpl; [|done].
  apply markerGroups_skeleton, skeleton_dimSeq.
Qed.

Lemma pageIdOf_setActiveSeq calls page h :
  pageIdOf (setActiveSeq calls page) h = pageIdOf page h.
Proof.
  unfold pageIdOf. rewrite markersDocument_setActiveSeq.
  destruct (markersDocument page) as [d|]; simpl; [|done].
  apply idOf_skeleton, skeleton_dimSeq.
Qed.

Lemma pageDimmed_last calls a page h :
  h ∈ pageMarkerGroups page →
  pageDimmed (setActiveSeq (calls ++ [a]) page) h =
  truthy a && differs (pageIdOf page h) a.
Proof.
  intros Hh. unfold setActiveSeq. rewrite foldl_snoc.
  fold (setActiveSeq calls page).
  rewrite <- (pageMarkerGroups_setActiveSeq calls) in Hh.
  rewrite <- (pageIdOf_setActiveSeq calls).
  revert Hh. generalize (setActiveSeq calls page). intros p.
  unfold pageMarkerGroups, pageDimmed, pageIdOf. rewrite markersDocument_update.
  destruct (markersDocument p) as [d|]; simpl; [|by intros ?%elem_of_nil].
  apply isDimmed_dimDocument.
Qed.

(** C1, as amended: for ids A ≠ B with B non-empty, after [setActive(A)]
    then [setActive(B)] the marker group of id A is dimmed, the one of id B
    is not, and every marker group of another id is dimmed (marker groups
    are the groups of the container, the roof apart); [setActive(null)]
    after any sequence of calls leaves no marker group dimmed; a repeated
    call with the same argument leaves the page as the first call left it;
    and after any sequence of calls the dimming of a marker group depends
    only on its id and on the last argument: it is dimmed exactly when that
    argument is a non-empty string other than its id. *)
Theorem setActive_dimming :
  (∀ page A B h,
     A ≠ B → B ≠ "" → h ∈ pageMarkerGroups page →
     (pageIdOf page h = A →
        pageDimmed (setActiveSeq [Some A; Some B] page) h = true) ∧
     (pageIdOf page h = B →
        pageDimmed (setActiveSeq [Some A; Some B] page) h = false) ∧
     (pageIdOf page h ≠ B →
        pageDimmed (setActiveSeq [Some A; Some B] page) h = true))
  ∧ (∀ page calls h,
       h ∈ pageMarkerGroups page →
       pageDimmed (setActiveSeq (calls ++ [None]) page) h = false)
  ∧ (∀ page a,
       updateMarkerVisibility a (updateMarkerVisibility a page) =
       updateMarkerVisibility a page)
  ∧ (∀ page calls a h,
       pageMarkerGroups (setActiveSeq (calls ++ [a]) page) = pageMarkerGroups page ∧
       pageIdOf (setActiveSeq (calls ++ [a]) page) h = pageIdOf page h ∧
       (h ∈ pageMarkerGroups page →
        pageDimmed (setActiveSeq (calls ++ [a]) page) h =
        truthy a && differs (pageIdOf page h) a)).
Proof.
  split_and!.
  - intros page A B h HAB HB Hh.
    pose proof (pageDimmed_last [Some A] (Some B) page h Hh) as Hd.
    simpl app in Hd. rewrite Hd. simpl.
    apply String.eqb_neq in HB. rewrite HB. simpl.
    split_and!.
    + intros ->. apply negb_true_iff. by apply String.eqb_neq.
    + intros ->. apply negb_false_iff. apply String.eqb_refl.
    + intros Hne. apply negb_true_iff. by apply String.eqb_neq.
  - intros page calls h Hh. by rewrite pageDimmed_last.
  - intros page a. apply updateMarkerVisibility_idemp.
  - intros page calls a h. split_and!.
    + apply pageMarkerGroups_setActiveSeq.
    + apply pageIdOf_setActiveSeq.
    + apply pageDimmed_last.
Qed.

Lemma setActive_dimming_witness :
  pageDimmed (setActiveSeq [Some "lobby"; Some "gym"] Example.page) 3 = true
  ∧ pageDimmed (setActiveSeq [Some "lobby"; Some "gym"] Example.page) 6 = false.
Proof.
  assert (Hne : "lobby" ≠ "gym") by discriminate.
  assert (Hgym : "gym" ≠ "") by discriminate.
  assert (H3 : 3 ∈ pageMarkerGroups Example.page)
    by (vm_compute; apply list_elem_of_In; simpl; auto).
  assert (H6 : 6 ∈ pageMarkerGroups Example.page)
    by (vm_compute; apply list_elem_of_In; simpl; auto).
  split.
  - exact (proj1 (proj1 setActive_dimming Example.page "lobby" "gym" 3 Hne Hgym H3)
                 eq_refl).
  - exact (proj1 (proj2 (proj1 setActive_dimming Example.page "lobby" "gym" 6 Hne Hgym H6))
                 eq_refl).
Defined.

(** C1 as stated fails when the second id is the empty string (the id of a
    group without an id attribute): the call then restores every marker,
    the group of id A included. *)
Lemma setActive_empty_id_restores :
  pageMarkerGroups Example.page = [3; 6]
  ∧ pageIdOf Example.page 3 = "lobby"
  ∧ pageDimmed (setActiveSeq [Some "lobby"] Example.page) 6 = true
  ∧ pageDimmed (setActiveSeq [Some "lobby"; Some ""] Example.page) 3 = false
  ∧ pageDimmed (setActiveSeq [Some "lobby"; Some ""] Example.page) 6 = false.
Proof. vm_compute. done. Qed.

End DimmingSequences.

(** ** Marker initialisation ([initMarkerVisibility]) *)

Section Initialisation.
Import Obs SpaceView.
Implicit Types (d : Document) (h g c : Handle) (n : Node).

Lemma alter_alter {A} (f f' : A → A) (l : list A) i :
  alter f i (alter f' i l) = alter (f ∘ f') i l.
Proof.
  apply list_eq. intros j. rewrite !list_lookup_alter.
  destruct (decide (i = j)) as [->|]; [|done].
  rewrite decide_True by done. by destruct (l !! j).
Qed.

Lemma showChild_alter d c : showChild d c = alter showNode c d.
Proof. unfold showChild. by rewrite alter_alter. Qed.

Lemma hideChild_alter d c : hideChild d c = alter hideNode c d.
Proof. unfold hideChild. by rewrite alter_alter. Qed.

Lemma foldl_hideChild d cs :
  foldl hideChild d cs = foldl (λ l i, alter hideNode i l) d cs.
Proof.
  revert d. induction cs as [|c cs IH]; intros d; simpl; [done|].
  by rewrite hideChild_alter, IH.
Qed.

Lemma skeleton_showNode n : skeleton (showNode n) = skeleton n.
Proof. done. Qed.
Lemma skeleton_hideNode n : skeleton (hideNode n) = skeleton n.
Proof. done. Qed.

Lemma skeleton_initNode d g h n : skeleton (initNode d g h n) = skeleton n.
Proof. unfold initNode. by repeat case_match. Qed.

Lemma notRoof_Some d g :
  notRoof d g = true ↔
  ∃ n, d !! g = Some n ∧ String.eqb (el_id n) APP_CONFIG.buildingRoof = false.
Proof.
  unfold notRoof. destruct (d !! g) as [n|].
  - rewrite negb_true_iff. split; [eauto|]. by intros (? & [= <-] & ?).
  - split; [done|]. by intros (? & ? & ?).
Qed.

Lemma initGroup_lookup d g h : initGroup d g !! h = initNode d g h <$> d !! h.
Proof.
  unfold initGroup, initNode, notRoof.
  destruct (d !! g) as [n0|] eqn:Eg; [|by destruct (d !! h)].
  destruct (String.eqb (el_id n0) APP_CONFIG.buildingRoof); simpl;
    [by destruct (d !! h)|].
  set (d1 := alter (classList_add APP_CONFIG.markerGroup) g d).
  assert (Hsk : skeleton <$> d1 = skeleton <$> d) by (by apply skeleton_alter).
  rewrite (children_with_tag_skeleton d1 d g "g" Hsk).
  pose proof (children_with_tag_NoDup d g "g") as Hnd.
  assert (H1 : d1 !! h =
    (λ n, if decide (g = h) then classList_add APP_CONFIG.markerGroup n else n)
      <$> d !! h).
  { unfold d1. rewrite list_lookup_alter. case_decide; [by subst|].
    by destruct (d !! h). }
  destruct (children_with_tag d g "g") as [|first rest].
  - rewrite H1. by destruct (d !! h).
  - apply NoDup_cons in Hnd as [Hfirst Hnd].
    rewrite foldl_hideChild, foldl_alter_lookup by done.
    rewrite showChild_alter, list_lookup_alter, H1.
    destruct (decide (h = first)) as [->|Hne].
    + rewrite bool_decide_eq_false_2 by done. rewrite decide_True by done.
      rewrite H1. by destruct (d !! first).
    + rewrite decide_False by done. case_bool_decide; by destruct (d !! h).
Qed.

Lemma skeleton_initGroup d g : skeleton <$> initGroup d g = skeleton <$> d.
Proof.
  apply list_eq. intros h. rewrite !list_lookup_fmap, initGroup_lookup.
  destruct (d !! h); simpl; [|done]. by rewrite skeleton_initNode.
Qed.

Lemma skeleton_foldl_initGroup gs d :
  skeleton <$> foldl initGroup d gs = skeleton <$> d.
Proof.
  revert d. induction gs as [|g gs IH]; intros d; simpl; [done|].
  by rewrite IH, skeleton_initGroup.
Qed.

Lemma hasClass_initGroup d g h cls n :
  d !! h = Some n →
  hasClass (initGroup d g) h cls = classList_contains cls (initNode d g h n).
Proof. intros Hn. unfold hasClass. by rewrite initGroup_lookup, Hn. Qed.

End Initialisation.

Section InitialisationInvariant.
Import Obs SpaceView.
Implicit Types (d : Document) (h g c : Handle) (n : Node) (cls : string).

Lemma contains_showNode cls n :
  classList_contains cls (showNode n) =
  negb (String.eqb cls APP_CONFIG.childHidden) &&
  (String.eqb cls APP_CONFIG.childVisible || classList_contains cls n).
Proof.
  unfold showNode, classList_contains, classList_remove, classList_add. simpl.
  by rewrite contains_remove, contains_add.
Qed.

Lemma contains_hideNode cls n :
  classList_contains cls (hideNode n) =
  negb (String.eqb cls APP_CONFIG.childVisible) &&
  (String.eqb cls APP_CONFIG.childHidden || classList_contains cls n).
Proof.
  unfold hideNode, classList_contains, classList_remove, classList_add. simpl.
  by rewrite contains_remove, contains_add.
Qed.

Lemma contains_markNode cls n :
  classList_contains cls (classList_add APP_CONFIG.markerGroup n) =
  String.eqb cls APP_CONFIG.markerGroup || classList_contains cls n.
Proof. unfold classList_contains, classList_add. simpl. apply contains_add. Qed.

Lemma hasClass_Some d h cls :
  hasClass d h cls = true → ∃ n, d !! h = Some n ∧ classList_contains cls n = true.
Proof. unfold hasClass. destruct (d !! h); [eauto|done]. Qed.

(** A round of the loop never takes the marker class away. *)
Lemma initNode_keeps_marker d g h n :
  classList_contains APP_CONFIG.markerGroup n = true →
  classList_contains APP_CONFIG.markerGroup (initNode d g h n) = true.
Proof.
  intros Hn. unfold initNode.
  repeat case_match;
    rewrite ?contains_showNode, ?contains_hideNode, ?contains_markNode, ?Hn; done.
Qed.

(** A round run for [g] leaves the visibility of what is no child of [g]. *)
Lemma initNode_other_child d g h n cls :
  h ∉ children_with_tag d g "g" →
  String.eqb cls APP_CONFIG.markerGroup = false →
  classList_contains cls (initNode d g h n) = classList_contains cls n.
Proof.
  intros Hh Hcls. unfold initNode.
  destruct (notRoof d g); [|done].
  assert (Hm : classList_contains cls
                 (if decide (g = h) then classList_add APP_CONFIG.markerGroup n else n)
               = classList_contains cls n).
  { case_decide; [|done]. by rewrite contains_markNode, Hcls. }
  destruct (children_with_tag d g "g") as [|first rest]; [done|].
  apply not_elem_of_cons in Hh as [Hne Hrest].
  rewrite decide_False by done. by rewrite bool_decide_eq_false_2.
Qed.

Lemma initGroup_establishes d g :
  notRoof d g = true → initialized (initGroup d g) g.
Proof.
  intros Hr. pose proof Hr as (ng & Hg & _)%notRoof_Some.
  unfold initialized.
  rewrite (children_with_tag_skeleton _ _ g "g" (skeleton_initGroup d g)).
  pose proof (children_with_tag_NoDup d g "g") as Hnd.
  pose proof (elem_of_children_with_tag d g "g") as Hch.
  split.
  - rewrite (hasClass_initGroup d g g _ ng Hg). unfold initNode. rewrite Hr.
    rewrite decide_True by done.
    repeat case_match;
      rewrite ?contains_showNode, ?contains_hideNode, ?contains_markNode; done.
  - destruct (children_with_tag d g "g") as [|first rest] eqn:Ecs; [done|].
    apply NoDup_cons in Hnd as [Hfirst Hnd].
    assert (Hin : ∀ c, c ∈ first :: rest →
              ∃ n, d !! c = Some n ∧
                   initNode d g c n =
                   (if decide (c = first) then showNode else hideNode)
                     (if decide (g = c)
                      then classList_add APP_CONFIG.markerGroup n else n)).
    { intros c Hc. destruct (proj1 (Hch c) Hc) as (n & Hn & _). exists n.
      split; [done|]. unfold initNode. rewrite Hr, Ecs.
      apply elem_of_cons in Hc as [->|Hc].
      - by destruct (decide (first = first)).
      - assert (c ≠ first) by (by intros ->).
        destruct (decide (c = first)); [done|].
        by rewrite bool_decide_eq_true_2. }
    split_and!.
    + destruct (Hin first) as (n & Hn & Hi); [by left|].
      rewrite (hasClass_initGroup d g first _ n Hn), Hi, decide_True by done.
      by rewrite contains_showNode.
    + destruct (Hin first) as (n & Hn & Hi); [by left|].
      rewrite (hasClass_initGroup d g first _ n Hn), Hi, decide_True by done.
      by rewrite contains_showNode.
    + apply Forall_forall. intros c Hc.
      assert (c ≠ first) by (by intros ->).
      destruct (Hin c) as (n & Hn & Hi); [by right|].
      rewrite !(hasClass_initGroup d g c _ n Hn), Hi, decide_False by done.
      by rewrite !contains_hideNode.
Qed.

Lemma initGroup_preserves d g g' :
  g' ≠ g → initialized d g' → initialized (initGroup d g) g'.
Proof.
  intros Hne [Hm Hc]. unfold initialized.
  rewrite (children_with_tag_skeleton _ _ g' "g" (skeleton_initGroup d g)).
  pose proof (elem_of_children_with_tag d g' "g") as Hch'.
  pose proof (elem_of_children_with_tag d g "g") as Hch.
  assert (Hkeep : ∀ c cls, c ∈ children_with_tag d g' "g" →
            String.eqb cls APP_CONFIG.markerGroup = false →
            hasClass (initGroup d g) c cls = hasClass d c cls).
  { intros c cls Hc' Hcls. destruct (proj1 (Hch' c) Hc') as (n & Hn & Hp & _).
    rewrite (hasClass_initGroup d g c _ n Hn). unfold hasClass. rewrite Hn.
    apply initNode_other_child; [|done].
    intros (n' & Hn' & Hp' & _)%Hch. congruence. }
  split.
  - apply hasClass_Some in Hm as (n & Hn & Hm).
    rewrite (hasClass_initGroup d g g' _ n Hn). by apply initNode_keeps_marker.
  - destruct (children_with_tag d g' "g") as [|first rest]; [done|].
    destruct Hc as (Hv & Hh & Hrest). split_and!.
    + rewrite Hkeep; [done|by left|done].
    + rewrite Hkeep; [done|by left|done].
    + apply Forall_forall. intros c Hc.
      rewrite Forall_forall in Hrest. destruct (Hrest c Hc) as [? ?].
      rewrite !Hkeep; [done|by right|done|by right|done].
Qed.

Lemma foldl_initGroup_preserves gs d g :
  g ∉ gs → initialized d g → initialized (foldl initGroup d gs) g.
Proof.
  revert d. induction gs as [|g0 gs IH]; intros d Hg Hi; simpl; [done|].
  apply not_elem_of_cons in Hg as [? ?]. apply IH; [done|].
  by apply initGroup_preserves.
Qed.

Lemma foldl_initGroup_establishes gs d g :
  NoDup gs → g ∈ gs → notRoof d g = true →
  initialized (foldl initGroup d gs) g.
Proof.
  intros Hnd. revert d. induction Hnd as [|g0 gs Hg0 Hnd IH]; intros d Hg Hr; simpl.
  - by apply elem_of_nil in Hg.
  - apply elem_of_cons in Hg as [->|Hg].
    + apply foldl_initGroup_preserves; [done|]. by apply initGroup_establishes.
    + apply IH; [done|]. by rewrite (notRoof_skeleton _ _ g (skeleton_initGroup d g0)).
Qed.

(** On a group already in the state aimed at, a round changes nothing. *)
Lemma initGroup_fix d g :
  (notRoof d g = true → initialized d g) → initGroup d g = d.
Proof.
  intros Hi. apply list_eq. intros h. rewrite initGroup_lookup.
  destruct (d !! h) as [n|] eqn:Eh; simpl; [|done]. f_equal.
  unfold initNode. destruct (notRoof d g) eqn:Hr; [|done].
  destruct (Hi eq_refl) as [Hm Hc].
  assert (Hn : (if decide (g = h)
                then classList_add APP_CONFIG.markerGroup n else n) = n).
  { case_decide as Hgh; [|done]. subst g. unfold hasClass in Hm. rewrite Eh in Hm.
    by apply with_classList_id, add_present. }
  rewrite Hn. destruct (children_with_tag d g "g") as [|first rest]; [done|].
  destruct Hc as (Hv & Hh & Hrest).
  destruct (decide (h = first)) as [->|Hne].
  - unfold hasClass in Hv, Hh. rewrite Eh in Hv, Hh.
    unfold showNode, classList_remove, classList_add.
    rewrite (with_classList_id _ n) by (by apply add_present).
    by apply with_classList_id, remove_absent.
  - case_bool_decide as Hin; [|done].
    rewrite Forall_forall in Hrest. destruct (Hrest h Hin) as [Hh' Hv'].
    unfold hasClass in Hh', Hv'. rewrite Eh in Hh', Hv'.
    unfold hideNode, classList_remove, classList_add.
    rewrite (with_classList_id _ n) by (by apply add_present).
    by apply with_classList_id, remove_absent.
Qed.

Lemma foldl_initGroup_fix gs d :
  (∀ g, g ∈ gs → notRoof d g = true → initialized d g) →
  foldl initGroup d gs = d.
Proof.
  induction gs as [|g gs IH]; intros Hi; simpl; [done|].
  rewrite initGroup_fix.
  - apply IH. intros g' Hg'. apply Hi. by right.
  - apply Hi. by left.
Qed.

Lemma initDocument_unfold d :
  initDocument d =
  match markerContainer d with
  | Some c => foldl initGroup d (children_with_tag d c "g")
  | None => d
  end.
Proof. unfold initDocument. simpl. by destruct (markerContainer d). Qed.

Lemma skeleton_initDocument d : skeleton <$> initDocument d = skeleton <$> d.
Proof.
  rewrite initDocument_unfold. destruct (markerContainer d); [|done].
  apply skeleton_foldl_initGroup.
Qed.

Lemma initDocument_initialized d g :
  g ∈ markerGroups d → initialized (initDocument d) g.
Proof.
  rewrite initDocument_unfold. unfold markerGroups.
  destruct (markerContainer d) as [c|]; [|by intros ?%elem_of_nil].
  rewrite list_elem_of_In, List.filter_In, <- list_elem_of_In. intros [Hg Hr].
  apply foldl_initGroup_establishes; [apply children_with_tag_NoDup|done..].
Qed.

Lemma initDocument_idemp d : initDocument (initDocument d) = initDocument d.
Proof.
  pose proof (skeleton_initDocument d) as Hsk.
  rewrite (initDocument_unfold (initDocument d)).
  rewrite (markerContainer_skeleton _ _ Hsk).
  destruct (markerContainer d) as [c|] eqn:Ec; [|done].
  rewrite (children_with_tag_skeleton _ _ c "g" Hsk).
  apply foldl_initGroup_fix. intros g Hg Hr.
  apply initDocument_initialized. unfold markerGroups. rewrite Ec.
  rewrite list_elem_of_In, List.filter_In, <- list_elem_of_In. split; [done|].
  by rewrite <- (notRoof_skeleton _ _ g Hsk).
Qed.

End InitialisationInvariant.

Section InitialisationTheorem.
Import Obs SpaceView.

Lemma initMarkerVisibility_Some (doc : Document) :
  initMarkerVisibility (Some doc) = Some (initDocument doc).
Proof. unfold initDocument. simpl. by destruct (markerContainer doc). Qed.

Lemma initMarkerVisibility_iter (doc : Document) (k : nat) :
  Nat.iter (S k) initMarkerVisibility (Some doc) = Some (initDocument doc).
Proof.
  induction k as [|k IH].
  - apply initMarkerVisibility_Some.
  - change (Nat.iter (S (S k)) initMarkerVisibility (Some doc))
      with (initMarkerVisibility (Nat.iter (S k) initMarkerVisibility (Some doc))).
    by rewrite IH, initMarkerVisibility_Some, initDocument_idemp.
Qed.

(** C2: after [initMarkerVisibility] has run on a markers document any
    positive number of times, every marker group (the groups of the
    container, the roof apart) carries the marker class, its first child
    group carries the visible class and not the hidden class, and each of
    its other child groups carries the hidden class and not the visible
    class; the marker groups are those of the document as it was; and
    running it again gives exactly the state one run gives. *)
Theorem initialize_invariant_idempotent (doc : Document) (k : nat) :
  ∃ doc',
    Nat.iter (S k) initMarkerVisibility (Some doc) = Some doc'
    ∧ markerGroups doc' = markerGroups doc
    ∧ Forall (initialized doc') (markerGroups doc')
    ∧ Nat.iter (S k) initMarkerVisibility (Some doc) = initMarkerVisibility (Some doc)
    ∧ initMarkerVisibility (initMarkerVisibility (Some doc)) =
      initMarkerVisibility (Some doc).
Proof.
  exists (initDocument doc). split_and!.
  - apply initMarkerVisibility_iter.
  - apply markerGroups_skeleton, skeleton_initDocument.
  - rewrite (markerGroups_skeleton _ _ (skeleton_initDocument doc)).
    apply Forall_forall. intros g Hg. by apply initDocument_initialized.
  - by rewrite initMarkerVisibility_iter, initMarkerVisibility_Some.
  - by rewrite !initMarkerVisibility_Some, initDocument_idemp.
Qed.

(** The example document after two runs: pins visible, labels hidden. *)
Example initialize_example :
  (λ d, (hasClass d 3 APP_CONFIG.markerGroup,
         hasClass d 4 APP_CONFIG.childVisible, hasClass d 4 APP_CONFIG.childHidden,
         hasClass d 5 APP_CONFIG.childVisible, hasClass d 5 APP_CONFIG.childHidden,
         hasClass d 2 APP_CONFIG.markerGroup))
    <$> Nat.iter 2 initMarkerVisibility (Some Example.markersDoc)
  = Some (true, true, false, false, true, false).
Proof. vm_compute. done. Qed.

End InitialisationTheorem.

(** ** Selecting a space ([handleMarkerClick]) *)

Section Selection.
Import Obs Model SpaceView Controller.
Implicit Types (a : App) (page : Page) (m : SpaceModel) (spaceId : string).

Lemma getSpace_Some m spaceId s :
  getSpace m (Some spaceId) = Some s → s ∈ spaces m ∧ space_id s = spaceId.
Proof.
  unfold getSpace. intros [Hin Heq]%List.find_some.
  split; [by apply list_elem_of_In|by apply String.eqb_eq].
Qed.

Lemma getSpace_known m spaceId :
  spaceId ∈ space_id <$> spaces m → ∃ s, getSpace m (Some spaceId) = Some s.
Proof.
  intros (s & -> & Hs)%list_elem_of_fmap. unfold getSpace.
  destruct (List.find _ (spaces m)) as [s'|] eqn:E; [eauto|].
  apply list_elem_of_In in Hs.
  pose proof (List.find_none _ _ E s Hs) as Hne. simpl in Hne.
  by rewrite String.eqb_refl in Hne.
Qed.

Lemma getSpace_unknown m spaceId :
  spaceId ∉ space_id <$> spaces m → getSpace m (Some spaceId) = None.
Proof.
  intros Hnot. destruct (getSpace m (Some spaceId)) as [s|] eqn:E; [|done].
  apply getSpace_Some in E as [Hin <-]. destruct Hnot.
  apply list_elem_of_fmap. eauto.
Qed.

Lemma updateMarkerVisibility_lookup_ne activeId page k :
  k ≠ APP_CONFIG.buildingMarkersSvg →
  updateMarkerVisibility activeId page !! k = page !! k.
Proof.
  intros Hk. rewrite updateMarkerVisibility_unfold.
  repeat case_match; try done. by rewrite lookup_insert_ne.
Qed.

Lemma updateMarkerVisibility_lookup activeId page :
  updateMarkerVisibility activeId page !! APP_CONFIG.buildingMarkersSvg =
  (λ obj, mkPageElement (pe_classList obj) (pe_data obj)
                        (dimDocument activeId <$> contentDocument obj))
    <$> page !! APP_CONFIG.buildingMarkersSvg.
Proof.
  rewrite updateMarkerVisibility_unfold.
  destruct (page !! APP_CONFIG.buildingMarkersSvg) as [[cl dt cd]|] eqn:E;
    simpl; [|by rewrite E].
  destruct cd as [doc|]; simpl; [|by rewrite E].
  destruct (markerContainer doc) eqn:Ec.
  - by rewrite lookup_insert_eq.
  - rewrite E. unfold dimDocument. by rewrite Ec.
Qed.

Lemma replaceLandingSvg_overlay img page :
  replaceLandingSvg img page !! APP_CONFIG.overlaySvg =
  (λ o, mkPageElement (add "is-visible" (pe_classList o)) (Some img) (contentDocument o))
    <$> page !! APP_CONFIG.overlaySvg.
Proof.
  unfold replaceLandingSvg.
  assert (Hne : APP_CONFIG.buildingMarkersSvg ≠ APP_CONFIG.overlaySvg) by done.
  destruct (page !! APP_CONFIG.overlaySvg) as [o|] eqn:Eo.
  - case_match; [rewrite lookup_insert_ne by done|]; by rewrite lookup_insert_eq.
  - case_match; [rewrite lookup_insert_ne by done|]; by rewrite Eo.
Qed.

Lemma replaceLandingSvg_markers img page :
  replaceLandingSvg img page !! APP_CONFIG.buildingMarkersSvg =
  (λ l, mkPageElement (add "is-hidden" (pe_classList l)) (pe_data l) (contentDocument l))
    <$> page !! APP_CONFIG.buildingMarkersSvg.
Proof.
  unfold replaceLandingSvg.
  assert (Hne : APP_CONFIG.overlaySvg ≠ APP_CONFIG.buildingMarkersSvg) by done.
  destruct (page !! APP_CONFIG.overlaySvg) as [o|].
  - rewrite lookup_insert_ne by done.
    destruct (page !! APP_CONFIG.buildingMarkersSvg) as [l|] eqn:El; simpl.
    + by rewrite lookup_insert_eq.
    + by rewrite lookup_insert_ne.
  - destruct (page !! APP_CONFIG.buildingMarkersSvg) as [l|] eqn:El; simpl.
    + by rewrite lookup_insert_eq.
    + done.
Qed.

Lemma markersDocument_replaceLandingSvg img page :
  markersDocument (replaceLandingSvg img page) = markersDocument page.
Proof.
  unfold markersDocument. rewrite replaceLandingSvg_markers.
  by destruct (page !! APP_CONFIG.buildingMarkersSvg).
Qed.

Lemma handleMarkerClick_known a spaceId s :
  getSpace (model a) (Some spaceId) = Some s →
  handleMarkerClick spaceId a =
  mkApp (setCurrentSpace spaceId (model a))
        (updateMarkerVisibility (Some spaceId) (replaceLandingSvg (markerImg s) (page a)))
        (carousel a) (isPopoverVisible a) (view_model a)
        (boundElements a) (clickListeners a).
Proof. unfold handleMarkerClick. by intros ->. Qed.

End Selection.

Section SelectionTheorems.
Import Obs Model SpaceView Controller.
Implicit Types (a : App) (spaceId : string).

(** C3, as amended: for a space id of the model's list, on a page that has
    the overlay object and the markers object, [handleMarkerClick] makes the
    id the current space id, gives the overlay object the visible class and
    the marker image of the space (the first of that id) as its data
    source, gives the markers layer the hidden class, and leaves the page as
    [updateMarkerVisibility(id)] leaves it after that; when the id is not
    the empty string, every marker group of another id is then dimmed and
    the groups of that id are not. *)
Theorem marker_click_selects a spaceId overlay markersLayer :
  spaceId ∈ space_id <$> spaces (model a) →
  page a !! APP_CONFIG.overlaySvg = Some overlay →
  page a !! APP_CONFIG.buildingMarkersSvg = Some markersLayer →
  ∃ space overlay' markersLayer',
    getSpace (model a) (Some spaceId) = Some space
    ∧ space_id space = spaceId
    ∧ currentSpaceId (model (handleMarkerClick spaceId a)) = Some spaceId
    ∧ page (handleMarkerClick spaceId a) !! APP_CONFIG.overlaySvg = Some overlay'
    ∧ contains "is-visible" (pe_classList overlay') = true
    ∧ pe_data overlay' = Some (markerImg space)
    ∧ page (handleMarkerClick spaceId a) !! APP_CONFIG.buildingMarkersSvg
      = Some markersLayer'
    ∧ contains "is-hidden" (pe_classList markersLayer') = true
    ∧ page (handleMarkerClick spaceId a)
      = updateMarkerVisibility (Some spaceId)
          (replaceLandingSvg (markerImg space) (page a))
    ∧ (spaceId ≠ "" →
       ∀ h, h ∈ pageMarkerGroups (page a) →
            pageDimmed (page (handleMarkerClick spaceId a)) h
            = negb (String.eqb (pageIdOf (page a) h) spaceId)).
Proof.
  intros Hknown Ho Hm.
  destruct (getSpace_known _ _ Hknown) as [space Hs].
  pose proof (getSpace_Some _ _ _ Hs) as [_ Hid].
  rewrite (handleMarkerClick_known a spaceId space Hs). simpl.
  eexists space, _, _. split_and!; try done.
  - rewrite updateMarkerVisibility_lookup_ne by done.
    rewrite replaceLandingSvg_overlay, Ho. done.
  - simpl. by rewrite contains_add, String.eqb_refl.
  - done.
  - rewrite updateMarkerVisibility_lookup, replaceLandingSvg_markers, Hm. done.
  - simpl. by rewrite contains_add, String.eqb_refl.
  - intros Hne h Hh.
    pose proof (pageDimmed_last [] (Some spaceId)
                  (replaceLandingSvg (markerImg space) (page a)) h) as Hd.
    unfold pageMarkerGroups, pageIdOf in Hd.
    rewrite markersDocument_replaceLandingSvg in Hd.
    specialize (Hd Hh). simpl in Hd. rewrite Hd. simpl.
    apply String.eqb_neq in Hne. by rewrite Hne.
Qed.

Lemma marker_click_selects_witness :
  currentSpaceId (model (handleMarkerClick "gym" (Example.app [Example.lobby; Example.gym])))
    = Some "gym"
  ∧ pe_data <$> page (handleMarkerClick "gym" (Example.app [Example.lobby; Example.gym]))
                !! APP_CONFIG.overlaySvg = Some (Some "pins/gym.svg")
  ∧ pageDimmed (page (handleMarkerClick "gym" (Example.app [Example.lobby; Example.gym]))) 3
    = true.
Proof.
  assert (Hk : "gym" ∈ space_id <$> spaces (model (Example.app [Example.lobby; Example.gym])))
    by (apply list_elem_of_In; simpl; auto).
  assert (Hne : "gym" ≠ "") by discriminate.
  assert (H3 : 3 ∈ pageMarkerGroups (page (Example.app [Example.lobby; Example.gym])))
    by (vm_compute; apply list_elem_of_In; simpl; auto).
  destruct (marker_click_selects (Example.app [Example.lobby; Example.gym]) "gym"
              (mkPageElement [] None None)
              (mkPageElement [] None (Some Example.markersDoc))
              Hk eq_refl eq_refl)
    as (space & o & m & Hs & _ & Hcur & Ho & _ & Hdata & _ & _ & _ & Hdim).
  split_and!.
  - exact Hcur.
  - rewrite Ho. simpl. rewrite Hdata. f_equal. f_equal.
    vm_compute in Hs. by injection Hs as <-.
  - exact (Hdim Hne 3 H3).
Defined.

(** C3 as stated fails for a space whose id is the empty string: the group
    without id is bound to it, and a click on it selects the space and
    restores every marker instead of dimming the others. *)
Lemma marker_click_empty_id_dims_nothing :
  let app := Example.app [Example.unnamed; Example.lobby; Example.gym] in
  Binding.resolveMarker Example.markersDoc "" = Some 9
  ∧ clickListeners (Binding.attachSvgHandlers APP_CONFIG.buildingMarkersSvg app)
    = [(9, ""); (3, "lobby"); (6, "gym")]
  ∧ currentSpaceId (model (handleMarkerClick "" (handleMarkerClick "lobby" app))) = Some ""
  ∧ pageMarkerGroups (page app) = [3; 6]
  ∧ pageDimmed (page (handleMarkerClick "lobby" app)) 6 = true
  ∧ pageDimmed (page (handleMarkerClick "" (handleMarkerClick "lobby" app))) 3 = false
  ∧ pageDimmed (page (handleMarkerClick "" (handleMarkerClick "lobby" app))) 6 = false.
Proof. vm_compute. done. Qed.

(** C6: a click carrying an id that no space of the model has finds no
    space and leaves the whole application state, model and page, as it
    was. *)
Theorem unknown_marker_click_is_noop a spaceId :
  spaceId ∉ space_id <$> spaces (model a) →
  getSpace (model a) (Some spaceId) = None
  ∧ handleMarkerClick spaceId a = a.
Proof.
  intros Hnot. pose proof (getSpace_unknown _ _ Hnot) as Hn.
  split; [done|]. unfold handleMarkerClick. by rewrite Hn.
Qed.

Lemma unknown_marker_click_is_noop_witness :
  handleMarkerClick "kitchen"
    (handleMarkerClick "lobby" (Example.app [Example.lobby; Example.gym]))
  = handleMarkerClick "lobby" (Example.app [Example.lobby; Example.gym]).
Proof.
  refine (proj2 (unknown_marker_click_is_noop
                   (handleMarkerClick "lobby" (Example.app [Example.lobby; Example.gym]))
                   "kitchen" _)).
  vm_compute. intros H. apply list_elem_of_In in H. simpl in H.
  destruct H as [H|[H|[]]]; discriminate H.
Defined.

(** C9: for a known space id, [handleMarkerClick] changes the model in its
    current space id only: the spaces, the page metadata, the current tab,
    the carousel index and the marker data stay as they were. *)
Theorem marker_click_model_frame a spaceId :
  spaceId ∈ space_id <$> spaces (model a) →
  model (handleMarkerClick spaceId a) = setCurrentSpace spaceId (model a)
  ∧ currentSpaceId (model (handleMarkerClick spaceId a)) = Some spaceId
  ∧ currentTab (model (handleMarkerClick spaceId a)) = currentTab (model a)
  ∧ currentProductIndex (model (handleMarkerClick spaceId a))
    = currentProductIndex (model a)
  ∧ spaces (model (handleMarkerClick spaceId a)) = spaces (model a)
  ∧ pageMetadata (model (handleMarkerClick spaceId a)) = pageMetadata (model a)
  ∧ markerData (model (handleMarkerClick spaceId a)) = markerData (model a).
Proof.
  intros [s Hs]%getSpace_known.
  rewrite (handleMarkerClick_known a spaceId s Hs). done.
Qed.

(** The index reached in the lobby's carousel is still there once the gym is
    selected. *)
Lemma marker_click_model_frame_witness :
  currentProductIndex
    (model (nextProduct (nextProduct
       (handleMarkerClick "lobby" (Example.app [Example.lobby; Example.gym])))))
  = 2%Z
  ∧ currentProductIndex
      (model (handleMarkerClick "gym" (nextProduct (nextProduct
         (handleMarkerClick "lobby" (Example.app [Example.lobby; Example.gym]))))))
    = 2%Z.
Proof.
  split; [by vm_compute|].
  refine (eq_trans
    (proj1 (proj2 (proj2 (proj2 (marker_click_model_frame
       (nextProduct (nextProduct
          (handleMarkerClick "lobby" (Example.app [Example.lobby; Example.gym]))))
       "gym" _)))))
    _); [|by vm_compute].
  vm_compute. apply list_elem_of_In. simpl. auto.
Defined.

End SelectionTheorems.

(** ** The carousel ([nextProduct], [prevProduct], the dots) *)

Section CarouselTheorems.
Import Obs Model SpaceView Controller.
Implicit Types (a : App) (space : Space).

Lemma nextProduct_index a space :
  getCurrentSpace (model a) = Some space →
  systemEquipment space ≠ [] →
  currentProductIndex (model (nextProduct a)) =
  (if (currentProductIndex (model a) + 1 >=? Z.of_nat (length (systemEquipment space)))%Z
   then 0 else currentProductIndex (model a) + 1)%Z.
Proof.
  intros Hs Hne. unfold nextProduct. rewrite Hs.
  destruct (systemEquipment space); [done|]. done.
Qed.

Lemma prevProduct_index a space :
  getCurrentSpace (model a) = Some space →
  systemEquipment space ≠ [] →
  currentProductIndex (model (prevProduct a)) =
  (if (currentProductIndex (model a) - 1 <? 0)%Z
   then Z.of_nat (length (systemEquipment space)) - 1
   else currentProductIndex (model a) - 1)%Z.
Proof.
  intros Hs Hne. unfold prevProduct. rewrite Hs.
  destruct (systemEquipment space); [done|]. done.
Qed.

Lemma nextProduct_selection a :
  getCurrentSpace (model (nextProduct a)) = getCurrentSpace (model a).
Proof. unfold nextProduct. by repeat case_match. Qed.

Lemma prevProduct_selection a :
  getCurrentSpace (model (prevProduct a)) = getCurrentSpace (model a).
Proof. unfold prevProduct. by repeat case_match. Qed.

(** X22.  Within one selection the carousel wraps as C5 says: the index is
    0 when the application starts; for a selected space with a non-empty
    equipment list of length n and an index i in [0, n), [nextProduct] sets
    the index to 0 when i = n - 1 and to i + 1 otherwise, [prevProduct]
    sets it to n - 1 when i = 0 and to i - 1 otherwise, both keep it in
    [0, n) and keep the selection; so the index stays in [0, n) through any
    sequence of the two. *)
Theorem carousel_index_wraps :
  (∀ pg, currentProductIndex (model (DOMContentLoaded pg)) = 0%Z)
  ∧ (∀ a space,
       getCurrentSpace (model a) = Some space →
       systemEquipment space ≠ [] →
       (0 ≤ currentProductIndex (model a) < Z.of_nat (length (systemEquipment space)))%Z →
       currentProductIndex (model (nextProduct a))
       = (if (currentProductIndex (model a)
              =? Z.of_nat (length (systemEquipment space)) - 1)%Z
          then 0 else currentProductIndex (model a) + 1)%Z
       ∧ currentProductIndex (model (prevProduct a))
         = (if (currentProductIndex (model a) =? 0)%Z
            then Z.of_nat (length (systemEquipment space)) - 1
            else currentProductIndex (model a) - 1)%Z
       ∧ (0 ≤ currentProductIndex (model (nextProduct a))
            < Z.of_nat (length (systemEquipment space)))%Z
       ∧ (0 ≤ currentProductIndex (model (prevProduct a))
            < Z.of_nat (length (systemEquipment space)))%Z
       ∧ getCurrentSpace (model (nextProduct a)) = Some space
       ∧ getCurrentSpace (model (prevProduct a)) = Some space)
  ∧ (∀ a space acts,
       getCurrentSpace (model a) = Some space →
       systemEquipment space ≠ [] →
       (0 ≤ currentProductIndex (model a) < Z.of_nat (length (systemEquipment space)))%Z →
       getCurrentSpace (model (runCarousel acts a)) = Some space
       ∧ (0 ≤ currentProductIndex (model (runCarousel acts a))
            < Z.of_nat (length (systemEquipment space)))%Z).
Proof.
  assert (Hstep : ∀ a space,
    getCurrentSpace (model a) = Some space →
    systemEquipment space ≠ [] →
    (0 ≤ currentProductIndex (model a) < Z.of_nat (length (systemEquipment space)))%Z →
    currentProductIndex (model (nextProduct a))
    = (if (currentProductIndex (model a)
           =? Z.of_nat (length (systemEquipment space)) - 1)%Z
       then 0 else currentProductIndex (model a) + 1)%Z
    ∧ currentProductIndex (model (prevProduct a))
      = (if (currentProductIndex (model a) =? 0)%Z
         then Z.of_nat (length (systemEquipment space)) - 1
         else currentProductIndex (model a) - 1)%Z
    ∧ (0 ≤ currentProductIndex (model (nextProduct a))
         < Z.of_nat (length (systemEquipment space)))%Z
    ∧ (0 ≤ currentProductIndex (model (prevProduct a))
         < Z.of_nat (length (systemEquipment space)))%Z
    ∧ getCurrentSpace (model (nextProduct a)) = Some space
    ∧ getCurrentSpace (model (prevProduct a)) = Some space).
  { intros a space Hs Hne Hi.
    rewrite (nextProduct_index a space Hs Hne), (prevProduct_index a space Hs Hne).
    rewrite nextProduct_selection, prevProduct_selection.
    split_and!; try done; repeat case_match; lia. }
  split_and!; [done|exact Hstep|].
  intros a space acts. revert a.
  induction acts as [|act acts IH]; intros a Hs Hne Hi; [done|].
  destruct (Hstep a space Hs Hne Hi) as (_ & _ & Hn & Hp & Hsn & Hsp).
  destruct act; simpl; by apply IH.
Qed.

Lemma carousel_index_wraps_witness :
  currentProductIndex
    (model (nextProduct (nextProduct (nextProduct
       (handleMarkerClick "lobby" (Example.app [Example.lobby; Example.gym]))))))
  = 0%Z.
Proof.
  refine (eq_trans
    (proj1 (proj1 (proj2 carousel_index_wraps)
       (nextProduct (nextProduct
          (handleMarkerClick "lobby" (Example.app [Example.lobby; Example.gym]))))
       Example.lobby eq_refl _ _))
    _).
  - discriminate.
  - vm_compute. split; [by intros ?|done].
  - by vm_compute.
Defined.

(** No handler of the controller gives the view a [model]: the listener of a
    dot fails the same way in every state the application reaches. *)
Lemma view_model_never_set a spaceId svgObject :
  view_model (handleMarkerClick spaceId a) = view_model a
  ∧ view_model (nextProduct a) = view_model a
  ∧ view_model (prevProduct a) = view_model a
  ∧ view_model (Binding.attachSvgHandlers svgObject a) = view_model a
  ∧ (∀ pg, view_model (DOMContentLoaded pg) = None).
Proof.
  unfold handleMarkerClick, nextProduct, prevProduct, Binding.attachSvgHandlers.
  split_and!; try done; by repeat case_match.
Qed.

End CarouselTheorems.

(** ** Binding markers to spaces ([attachSvgHandlers]) *)

Section BindingFacts.
Import Obs Model SpaceView Binding.
Local Open Scope list_scope.
Implicit Types (d : Document) (h el : Handle) (n : Node) (w : Wiring)
  (P : list Handle) (sid : string).

Lemma getAttribute_setAttribute k k' v n :
  getAttribute k (setAttribute k' v n) =
  if String.eqb k' k then Some v else getAttribute k n.
Proof.
  unfold getAttribute, setAttribute. simpl.
  destruct (String.eqb k' k) eqn:E; [done|].
  f_equal. induction (attributes n) as [|[k0 v0] l IH]; simpl; [done|].
  destruct (String.eqb k0 k') eqn:E'; simpl.
  - apply String.eqb_eq in E' as ->. by rewrite E.
  - by destruct (String.eqb k0 k).
Qed.

Lemma getAttribute_setStyle k p v n :
  getAttribute k (setStyle p v n) = getAttribute k n.
Proof. done. Qed.

Lemma listenersOn_app clicks clicks' h :
  listenersOn (clicks ++ clicks') h = listenersOn clicks h ++ listenersOn clicks' h.
Proof. unfold listenersOn. by rewrite List.filter_app, fmap_app. Qed.

Lemma listenersOn_snoc clicks el sid h :
  listenersOn (clicks ++ [(el, sid)]) h =
  listenersOn clicks h ++ (if decide (el = h) then [sid] else []).
Proof.
  rewrite listenersOn_app. f_equal. unfold listenersOn. simpl.
  case_decide as E.
  - subst. by rewrite Nat.eqb_refl.
  - apply Nat.eqb_neq in E. by rewrite E.
Qed.

Lemma resolveMarker_skeleton d d' sid :
  skeleton <$> d = skeleton <$> d' → resolveMarker d sid = resolveMarker d' sid.
Proof.
  intros E. unfold resolveMarker.
  by rewrite !(getElementById_skeleton d d' _ E), !(findGroupById_skeleton d d' _ E).
Qed.

Lemma list_find_fst_valid {A} (Q : A → Prop) `{∀ x, Decision (Q x)} (l : list A) i :
  fst <$> list_find Q l = Some i → is_Some (l !! i).
Proof.
  destruct (list_find Q l) as [[j x]|] eqn:E; [|done].
  intros [= <-]. apply list_find_Some in E as [? _]. eauto.
Qed.

Lemma resolveMarker_valid d sid el : resolveMarker d sid = Some el → is_Some (d !! el).
Proof.
  unfold resolveMarker, getElementById, findGroupById.
  intros Hr. repeat case_match; simplify_eq;
    (eapply list_find_fst_valid; eassumption).
Qed.

(** Binding an element that nothing has bound yet. *)
Lemma attachInteraction_fresh d w P el sid :
  wiringInv d w P → el ∉ P → is_Some (d !! el) →
  w_clicks (attachInteraction el sid w) = w_clicks w ++ [(el, sid)]
  ∧ wiringInv d (attachInteraction el sid w) (el :: P).
Proof.
  intros (Hsk & Hdyn & Hgh & Hb) HP [n0 Hn0].
  assert (∃ n, w_doc w !! el = Some n) as [n Hn].
  { pose proof (skeleton_lookup _ _ el Hsk) as Hl. rewrite Hn0 in Hl.
    destruct (w_doc w !! el); [eauto|done]. }
  unfold attachInteraction. rewrite Hn.
  rewrite bool_decide_eq_false_2 by (intros Hg; by apply HP, (Hgh el n)).
  rewrite bool_decide_eq_false_2 by (intros Hin; by apply HP, Hb).
  simpl. split; [done|]. split_and!; simpl.
  - rewrite <- Hsk. by apply skeleton_alter.
  - intros h. rewrite <- Hdyn. unfold dynamicId. rewrite list_lookup_alter.
    case_decide; [subst|done]. rewrite Hn. simpl.
    by rewrite getAttribute_setAttribute.
  - intros h n' Hn' Hg. rewrite list_lookup_alter in Hn'.
    destruct (decide (el = h)) as [->|]; [by left|].
    right. by apply (Hgh h n').
  - intros h [->|Hin]%elem_of_cons; [by left|]. right. by apply Hb.
Qed.

Lemma dynamicId_Some_valid d h v : dynamicId d h = Some v → is_Some (d !! h).
Proof. unfold dynamicId. destruct (d !! h); [eauto|done]. Qed.

(** Step 1, over any list of distinct elements not yet processed. *)
Lemma foldl_bindDynamic d hs : ∀ w P,
  wiringInv d w P → NoDup hs → (∀ h, h ∈ hs → h ∉ P) →
  ∃ w' P',
    foldl bindDynamic (w, P) hs = (w', P')
    ∧ wiringInv d w' P'
    ∧ (∀ h, h ∈ P' ↔ h ∈ P ∨ (h ∈ hs ∧ is_Some (dynamicId d h)))
    ∧ (∀ h, listenersOn (w_clicks w') h =
            listenersOn (w_clicks w) h ++
            (if bool_decide (h ∈ hs) then option_list (dynamicId d h) else [])).
Proof.
  induction hs as [|el hs IH]; intros w P Hinv Hnd Hfresh.
  - exists w, P. split_and!; [done..| |].
    + intros h. split; [by left|]. intros [?|[?%elem_of_nil _]]; done.
    + intros h. simpl. by rewrite app_nil_r.
  - apply NoDup_cons in Hnd as [Hel Hnd].
    change (foldl bindDynamic (w, P) (el :: hs))
      with (foldl bindDynamic (bindDynamic (w, P) el) hs).
    assert (Hstep : ∃ w1 P1,
      bindDynamic (w, P) el = (w1, P1) ∧ wiringInv d w1 P1
      ∧ (∀ h, h ∈ P1 ↔ h ∈ P ∨ (h = el ∧ is_Some (dynamicId d h)))
      ∧ (∀ h, listenersOn (w_clicks w1) h =
              listenersOn (w_clicks w) h ++
              (if decide (el = h) then option_list (dynamicId d h) else []))).
    { pose proof Hinv as (_ & Hdyn & _).
      specialize (Hdyn el). unfold bindDynamic. unfold dynamicId in Hdyn at 1.
      destruct (w_doc w !! el) as [n|] eqn:En.
      - destruct (getAttribute "data-space-id" n) as [v|] eqn:Ev.
        + destruct (String.eqb v "") eqn:Eempty.
          * exists w, P. split_and!; [done..| |].
            -- intros h. split; [by left|]. intros [?|[-> [? Hs]]]; [done|].
               congruence.
            -- intros h. case_decide; [subst|by rewrite app_nil_r].
               rewrite <- Hdyn. by rewrite app_nil_r.
          * destruct (attachInteraction_fresh d w P el v Hinv) as [Hc Hi].
            { apply Hfresh. by left. }
            { by apply (dynamicId_Some_valid d el v). }
            eexists _, _. split_and!; [done|done| |].
            -- intros h. rewrite elem_of_cons. split.
               ++ intros [->|?]; [right|by left]. split; [done|]. rewrite <- Hdyn. eauto.
               ++ intros [?|[-> _]]; [by right|by left].
            -- intros h. rewrite Hc, listenersOn_snoc.
               case_decide; [subst|done]. by rewrite <- Hdyn.
        + exists w, P. split_and!; [done..| |].
          -- intros h. split; [by left|]. intros [?|[-> [? Hs]]]; [done|]. congruence.
          -- intros h. case_decide; [subst|by rewrite app_nil_r].
             rewrite <- Hdyn. by rewrite app_nil_r.
      - exists w, P. split_and!; [done..| |].
        + intros h. split; [by left|]. intros [?|[-> [? Hs]]]; [done|]. congruence.
        + intros h. case_decide; [subst|by rewrite app_nil_r].
          rewrite <- Hdyn. by rewrite app_nil_r. }
    destruct Hstep as (w1 & P1 & -> & Hinv1 & HP1 & Hl1).
    destruct (IH w1 P1 Hinv1 Hnd) as (w' & P' & -> & Hinv' & HP' & Hl').
    { intros h Hh [HhP|[-> _]]%HP1; [|done].
      apply (Hfresh h); [by right|done]. }
    exists w', P'. split_and!; [done..| |].
    + intros h. rewrite HP', HP1, elem_of_cons. intuition (subst; auto).
    + intros h. rewrite Hl', Hl1, <- app_assoc. f_equal.
      destruct (decide (el = h)) as [->|Hne].
      * rewrite bool_decide_eq_false_2 by done.
        rewrite bool_decide_eq_true_2 by (by left). by rewrite app_nil_r.
      * simpl. destruct (decide (h ∈ hs)).
        -- rewrite !bool_decide_eq_true_2; [done|by right|done].
        -- rewrite !bool_decide_eq_false_2; [done| |done].
           by intros [?|?]%elem_of_cons.
Qed.

End BindingFacts.

Section BindingOrder.
Import Obs Model SpaceView Binding.
Implicit Types (d : Document) (h el : Handle) (n : Node) (w : Wiring)
  (P : list Handle) (sid : string).
Local Open Scope list_scope.

Lemma firstSpaceResolving_cons d s ss h :
  firstSpaceResolving d (s :: ss) h =
  if bool_decide (resolveMarker d (space_id s) = Some h) then Some (space_id s)
  else firstSpaceResolving d ss h.
Proof. unfold firstSpaceResolving. simpl. by case_bool_decide. Qed.

(** Step 2, over any list of spaces. *)
Lemma foldl_bindSpace d ss : ∀ w P,
  wiringInv d w P →
  ∃ w' P',
    foldl bindSpace (w, P) ss = (w', P')
    ∧ wiringInv d w' P'
    ∧ (∀ h, listenersOn (w_clicks w') h =
            listenersOn (w_clicks w) h ++
            (if bool_decide (h ∈ P) then []
             else option_list (firstSpaceResolving d ss h))).
Proof.
  induction ss as [|s ss IH]; intros w P Hinv.
  - exists w, P. split_and!; [done..|]. intros h.
    case_bool_decide; simpl; by rewrite app_nil_r.
  - change (foldl bindSpace (w, P) (s :: ss))
      with (foldl bindSpace (bindSpace (w, P) s) ss).
    pose proof Hinv as (Hsk & _).
    unfold bindSpace at 2. rewrite (resolveMarker_skeleton _ _ (space_id s) Hsk).
    destruct (resolveMarker d (space_id s)) as [el|] eqn:Er.
    + destruct (decide (el ∈ P)) as [Hin|Hnin].
      * rewrite bool_decide_eq_true_2 by done.
        destruct (IH w P Hinv) as (w' & P' & -> & Hinv' & Hl).
        exists w', P'. split_and!; [done..|]. intros h. rewrite Hl. f_equal.
        case_bool_decide as HhP; [done|]. rewrite firstSpaceResolving_cons.
        rewrite bool_decide_eq_false_2; [done|]. rewrite Er. by intros [= ->].
      * rewrite bool_decide_eq_false_2 by done.
        destruct (attachInteraction_fresh d w P el (space_id s) Hinv Hnin)
          as [Hc Hinv1]; [by apply (resolveMarker_valid d (space_id s))|].
        destruct (IH _ _ Hinv1) as (w' & P' & -> & Hinv' & Hl).
        exists w', P'. split_and!; [done..|]. intros h.
        rewrite Hl, Hc, listenersOn_snoc, <- app_assoc. f_equal.
        rewrite firstSpaceResolving_cons.
        destruct (decide (el = h)) as [->|Hne].
        -- rewrite (bool_decide_eq_true_2 (h ∈ h :: P)) by (by left).
           rewrite (bool_decide_eq_false_2 (h ∈ P)) by done.
           by rewrite bool_decide_eq_true_2.
        -- rewrite (bool_decide_eq_false_2 (_ = Some h)) by (rewrite Er; by intros [= ->]).
           simpl. destruct (decide (h ∈ P)).
           ++ rewrite (bool_decide_eq_true_2 (h ∈ el :: P)) by (by right).
              by rewrite (bool_decide_eq_true_2 (h ∈ P)).
           ++ rewrite (bool_decide_eq_false_2 (h ∈ el :: P))
                by (by intros [?|?]%elem_of_cons).
              by rewrite (bool_decide_eq_false_2 (h ∈ P)).
    + destruct (IH w P Hinv) as (w' & P' & -> & Hinv' & Hl).
      exists w', P'. split_and!; [done..|]. intros h. rewrite Hl. f_equal.
      case_bool_decide; [done|]. rewrite firstSpaceResolving_cons.
      by rewrite bool_decide_eq_false_2 by (by rewrite Er).
Qed.

Lemma dynamicId_attributes d d' h :
  attributes <$> d = attributes <$> d' → dynamicId d h = dynamicId d' h.
Proof.
  intros E. unfold dynamicId, getAttribute.
  assert (Hl : attributes <$> d !! h = attributes <$> d' !! h)
    by (by rewrite <- !list_lookup_fmap, E).
  destruct (d !! h), (d' !! h); simpl in Hl; try done. by injection Hl as ->.
Qed.

Lemma attributes_alter (f : Node → Node) h d :
  (∀ n, attributes (f n) = attributes n) →
  attributes <$> alter f h d = attributes <$> d.
Proof.
  intros Hf. apply list_eq. intros j. rewrite !list_lookup_fmap, list_lookup_alter.
  case_decide; [subst|done]. destruct (d !! j); simpl; [|done]. by rewrite Hf.
Qed.

Lemma attributes_initNode d g h n : attributes (initNode d g h n) = attributes n.
Proof. unfold initNode. by repeat case_match. Qed.

Lemma attributes_initDocument d : attributes <$> initDocument d = attributes <$> d.
Proof.
  rewrite initDocument_unfold. destruct (markerContainer d) as [c|]; [|done].
  generalize (children_with_tag d c "g"). intros gs. revert d.
  induction gs as [|g gs IH]; intros d; simpl; [done|].
  rewrite IH. apply list_eq. intros h.
  rewrite !list_lookup_fmap, initGroup_lookup.
  destruct (d !! h); simpl; [|done]. by rewrite attributes_initNode.
Qed.

Lemma firstSpaceResolving_skeleton d d' ss h :
  skeleton <$> d = skeleton <$> d' →
  firstSpaceResolving d ss h = firstSpaceResolving d' ss h.
Proof.
  intros E. induction ss as [|s ss IH]; [done|].
  by rewrite !firstSpaceResolving_cons, IH, (resolveMarker_skeleton d d' _ E).
Qed.

Lemma querySelectorAll_attr_spec d name h :
  h ∈ querySelectorAll_attr d name ↔
  ∃ n, d !! h = Some n ∧ is_Some (getAttribute name n).
Proof.
  unfold querySelectorAll_attr, hasAttribute.
  rewrite list_elem_of_In, List.filter_In, List.in_seq. split.
  - intros [_ Hh]. destruct (d !! h) as [n|]; [|done].
    apply bool_decide_eq_true in Hh. eauto.
  - intros (n & Hn & Ha). split.
    + apply lookup_lt_Some in Hn. lia.
    + rewrite Hn. by apply bool_decide_eq_true.
Qed.

End BindingOrder.

Section BindingTheorem.
Import Obs Model SpaceView Binding.
Implicit Types (d : Document) (h el : Handle) (n : Node) (a : App).
Local Open Scope list_scope.

(** The document on which the binding loops of [attachSvgHandlers] start. *)
Lemma attachSvgHandlers_unfold a obj doc :
  page a !! APP_CONFIG.buildingMarkersSvg = Some obj →
  contentDocument obj = Some doc →
  ∃ d0,
    skeleton <$> d0 = skeleton <$> doc
    ∧ attributes <$> d0 = attributes <$> doc
    ∧ clickListeners (attachSvgHandlers APP_CONFIG.buildingMarkersSvg a) =
      w_clicks (fst (foldl bindSpace
                       (foldl bindDynamic
                          (mkWiring d0 (boundElements a) (clickListeners a), [])
                          (querySelectorAll_attr d0 "data-space-id"))
                       (spaces (model a)))).
Proof.
  intros Hobj Hdoc. unfold attachSvgHandlers. rewrite Hobj, Hdoc.
  set (d1 := match getElementById doc "Map" with
             | Some mapGroup => alter (setStyle "display" "none") mapGroup doc
             | None => doc
             end).
  assert (skeleton <$> d1 = skeleton <$> doc ∧ attributes <$> d1 = attributes <$> doc)
    as [Hs1 Ha1].
  { unfold d1. destruct (getElementById doc "Map"); [|done].
    split; [by apply skeleton_alter|by apply attributes_alter]. }
  exists (initDocument d1). split_and!.
  - by rewrite skeleton_initDocument.
  - by rewrite attributes_initDocument.
  - done.
Qed.

(** The listeners a run of [attachSvgHandlers] leaves on a fresh document. *)
Lemma attachSvgHandlers_listeners a obj doc :
  page a !! APP_CONFIG.buildingMarkersSvg = Some obj →
  contentDocument obj = Some doc →
  boundElements a = [] →
  clickListeners a = [] →
  (∀ h n, doc !! h = Some n → getAttribute "data-gh-bound" n ≠ Some "true") →
  ∀ h, listenersOn (clickListeners (attachSvgHandlers APP_CONFIG.buildingMarkersSvg a)) h
       = option_list (bindingOf doc (spaces (model a)) h).
Proof.
  intros Hobj Hdoc Hbound Hclicks Hfresh.
  destruct (attachSvgHandlers_unfold a obj doc Hobj Hdoc) as (d0 & Hsk & Hat & ->).
  rewrite Hbound, Hclicks.
  assert (Hinv0 : wiringInv d0 (mkWiring d0 [] []) []).
  { split_and!; simpl; [done|done| |by intros ? ?%elem_of_nil].
    intros h n Hn Hg. exfalso.
    assert (Hl : attributes <$> d0 !! h = attributes <$> doc !! h)
      by (by rewrite <- !list_lookup_fmap, Hat).
    rewrite Hn in Hl. destruct (doc !! h) as [n'|] eqn:En'; [|done].
    simpl in Hl. injection Hl as Hl. apply (Hfresh h n' En').
    unfold getAttribute in *. by rewrite <- Hl. }
  destruct (foldl_bindDynamic d0 (querySelectorAll_attr d0 "data-space-id")
              _ _ Hinv0) as (w1 & P1 & -> & Hinv1 & HP1 & Hl1).
  { unfold querySelectorAll_attr. apply NoDup_ListNoDup, List.NoDup_filter, List.seq_NoDup. }
  { by intros ? _ ?%elem_of_nil. }
  destruct (foldl_bindSpace d0 (spaces (model a)) _ _ Hinv1)
    as (w2 & P2 & -> & _ & Hl2).
  intros h. simpl. rewrite Hl2, Hl1. simpl.
  unfold bindingOf.
  rewrite <- (dynamicId_attributes d0 doc h Hat).
  rewrite <- (firstSpaceResolving_skeleton d0 doc _ h Hsk).
  destruct (dynamicId d0 h) as [v|] eqn:Edyn.
  - assert (h ∈ querySelectorAll_attr d0 "data-space-id") as Hq.
    { apply querySelectorAll_attr_spec. unfold dynamicId in Edyn.
      destruct (d0 !! h) as [n|]; [|done]. exists n. split; [done|].
      destruct (getAttribute "data-space-id" n); [eauto|done]. }
    rewrite (bool_decide_eq_true_2 _ Hq).
    rewrite bool_decide_eq_true_2; [done|].
    apply HP1. right. split; [done|]. rewrite Edyn. eauto.
  - rewrite (bool_decide_eq_false_2 (h ∈ P1)).
    + by case_bool_decide.
    + intros [?%elem_of_nil|[_ [? Hs]]]%HP1; [done|]. by rewrite Edyn in Hs.
Qed.

End BindingTheorem.

Section BindingJsFacts.
Import Obs Model SpaceView.
Implicit Types (d : Document) (h el : Handle) (n : Node) (w : Wiring)
  (P : list Handle) (a : App) (sid : string) (s : Loaded).
Local Open Scope list_scope.

Lemma attachInteraction_ofWiring el sid w :
  BindingJs.attachInteraction el (StringId sid) (BindingJs.ofWiring w)
  = BindingJs.ofWiring (Binding.attachInteraction el sid w).
Proof.
  unfold BindingJs.attachInteraction, Binding.attachInteraction, BindingJs.ofWiring.
  simpl. destruct (w_doc w !! el); [|done].
  repeat case_bool_decide; try done. simpl. by rewrite fmap_app.
Qed.

Lemma bindDynamic_ofWiring w P el :
  BindingJs.bindDynamic (BindingJs.ofWiring w, P) el
  = prod_map BindingJs.ofWiring id (Binding.bindDynamic (w, P) el).
Proof.
  unfold BindingJs.bindDynamic, Binding.bindDynamic.
  change (r_doc (BindingJs.ofWiring w)) with (w_doc w).
  destruct (w_doc w !! el) as [n|]; [|done].
  destruct (getAttribute "data-space-id" n) as [v|]; [|done].
  destruct (String.eqb v ""); [done|].
  by rewrite attachInteraction_ofWiring.
Qed.

Lemma foldl_bindDynamic_ofWiring hs : ∀ w P,
  foldl BindingJs.bindDynamic (BindingJs.ofWiring w, P) hs
  = prod_map BindingJs.ofWiring id (foldl Binding.bindDynamic (w, P) hs).
Proof.
  induction hs as [|el hs IH]; intros w P; [done|].
  cbn [foldl]. rewrite bindDynamic_ofWiring.
  destruct (Binding.bindDynamic (w, P) el) as [w1 P1]. apply IH.
Qed.

Lemma bindSpace_ofWiring w P space :
  BindingJs.bindSpace (BindingJs.ofWiring w, P) (StringId (space_id space))
  = Ok (prod_map BindingJs.ofWiring id (Binding.bindSpace (w, P) space)).
Proof.
  unfold BindingJs.bindSpace, Binding.bindSpace, BindingJs.resolveMarker.
  change (r_doc (BindingJs.ofWiring w)) with (w_doc w). simpl.
  destruct (Binding.resolveMarker (w_doc w) (space_id space)) as [el|]; [|done].
  case_bool_decide; [done|]. by rewrite attachInteraction_ofWiring.
Qed.

(** The rounds of [spaces.forEach] for ids that are strings. *)
Lemma forEach_strings ss rest : ∀ w P,
  BindingJs.forEach (BindingJs.ofWiring w, P) ((StringId ∘ space_id <$> ss) ++ rest)
  = BindingJs.forEach
      (prod_map BindingJs.ofWiring id (foldl Binding.bindSpace (w, P) ss)) rest.
Proof.
  induction ss as [|space ss IH]; intros w P; [done|].
  cbn [fmap list_fmap app BindingJs.forEach compose foldl].
  rewrite bindSpace_ofWiring.
  destruct (Binding.bindSpace (w, P) space) as [w1 P1]. apply IH.
Qed.

(** A round for the function [Object] when no element has its name. *)
Lemma forEach_ObjectFunction (st : Registry * list Handle) rest :
  getElementById (r_doc (fst st)) (BindingJs.toString ObjectFunction) = None →
  BindingJs.forEach st (ObjectFunction :: rest)
  = (st, Thrown "TypeError: space.id.endsWith is not a function").
Proof.
  destruct st as [r P]. simpl. unfold BindingJs.resolveMarker. by intros ->.
Qed.

(** On a model whose space ids are strings the run over ids is the run of
    [Binding.attachSvgHandlers], and it ends normally. *)
Lemma attachSvgHandlers_string_ids svgObject a :
  BindingJs.attachSvgHandlers svgObject (BindingJs.ofApp a)
  = (BindingJs.ofApp (Binding.attachSvgHandlers svgObject a), Normal).
Proof.
  unfold BindingJs.attachSvgHandlers, Binding.attachSvgHandlers, BindingJs.ofApp.
  cbn [l_page l_bound l_clicks spaceIds].
  destruct (page a !! svgObject) as [obj|]; [|done].
  destruct (contentDocument obj) as [doc|]; [|done].
  set (d0 := default _ (initMarkerVisibility _)).
  change (mkRegistry d0 (boundElements a) (BindingJs.withStringId <$> clickListeners a))
    with (BindingJs.ofWiring (mkWiring d0 (boundElements a) (clickListeners a))).
  rewrite foldl_bindDynamic_ofWiring.
  destruct (foldl Binding.bindDynamic _ _) as [w1 P1].
  cbn [prod_map fst snd id].
  rewrite <- (app_nil_r (StringId ∘ space_id <$> _)) at 1.
  rewrite forEach_strings. unfold getAllSpaces.
  destruct (foldl Binding.bindSpace (w1, P1) (spaces (model a))) as [w2 P2].
  done.
Qed.

Lemma listenersOn_withStringId (clicks : list (Handle * string)) h :
  BindingJs.listenersOn (BindingJs.withStringId <$> clicks) h
  = StringId <$> listenersOn clicks h.
Proof.
  unfold BindingJs.listenersOn, listenersOn.
  induction clicks as [|[el sid] clicks IH]; [done|].
  cbn [fmap list_fmap List.filter BindingJs.withStringId fst snd].
  destruct (Nat.eqb el h); cbn [fmap list_fmap snd]; by rewrite IH.
Qed.

Lemma bindingOf_spaceOfId d ids h :
  bindingOf d (BindingJs.spaceOfId <$> ids) h = BindingJs.bindingOf d ids h.
Proof.
  unfold bindingOf, BindingJs.bindingOf. destruct (dynamicId d h); [done|].
  unfold firstSpaceResolving, BindingJs.firstIdResolving.
  induction ids as [|i ids IH]; [done|].
  cbn [fmap list_fmap List.find BindingJs.spaceOfId space_id].
  by destruct (bool_decide (Binding.resolveMarker d i = Some h)).
Qed.

(** The two binding loops over string ids, run on a document that differs
    from a fresh document [doc] in classes and inline style only. *)
Lemma binding_loops d0 doc ids :
  skeleton <$> d0 = skeleton <$> doc →
  attributes <$> d0 = attributes <$> doc →
  BindingJs.unbound doc →
  ∃ w P,
    foldl Binding.bindSpace
      (foldl Binding.bindDynamic (mkWiring d0 [] [], [])
         (querySelectorAll_attr d0 "data-space-id"))
      (BindingJs.spaceOfId <$> ids) = (w, P)
    ∧ skeleton <$> w_doc w = skeleton <$> doc
    ∧ (∀ h, listenersOn (w_clicks w) h = option_list (BindingJs.bindingOf doc ids h)).
Proof.
  intros Hsk Hat Hfresh.
  assert (Hinv0 : wiringInv d0 (mkWiring d0 [] []) []).
  { split_and!; simpl; [done|done| |by intros ? ?%elem_of_nil].
    intros h n Hn Hg. exfalso.
    assert (Ha : attributes <$> d0 !! h = attributes <$> doc !! h)
      by (by rewrite <- !list_lookup_fmap, Hat).
    rewrite Hn in Ha. destruct (doc !! h) as [n'|] eqn:En'; [|done].
    simpl in Ha. injection Ha as Ha. apply (Hfresh h n' En').
    unfold getAttribute in *. by rewrite <- Ha. }
  destruct (foldl_bindDynamic d0 (querySelectorAll_attr d0 "data-space-id")
              _ _ Hinv0) as (w1 & P1 & -> & Hinv1 & HP1 & Hl1).
  { unfold querySelectorAll_attr. apply NoDup_ListNoDup, List.NoDup_filter, List.seq_NoDup. }
  { by intros ? _ ?%elem_of_nil. }
  destruct (foldl_bindSpace d0 (BindingJs.spaceOfId <$> ids) _ _ Hinv1)
    as (w2 & P2 & -> & (Hsk2 & _) & Hl2).
  exists w2, P2. split_and!; [done|by rewrite Hsk2|].
  intros h. rewrite Hl2, Hl1. simpl.
  rewrite <- bindingOf_spaceOfId. unfold bindingOf.
  rewrite <- (dynamicId_attributes d0 doc h Hat).
  rewrite <- (firstSpaceResolving_skeleton d0 doc _ h Hsk).
  destruct (dynamicId d0 h) as [v|] eqn:Edyn.
  - assert (h ∈ querySelectorAll_attr d0 "data-space-id") as Hq.
    { apply querySelectorAll_attr_spec. unfold dynamicId in Edyn.
      destruct (d0 !! h) as [n|]; [|done]. exists n. split; [done|].
      destruct (getAttribute "data-space-id" n); [eauto|done]. }
    rewrite (bool_decide_eq_true_2 _ Hq).
    rewrite bool_decide_eq_true_2; [done|].
    apply HP1. right. split; [done|]. rewrite Edyn. eauto.
  - rewrite (bool_decide_eq_false_2 (h ∈ P1)).
    + by case_bool_decide.
    + intros [?%elem_of_nil|[_ [? Hs]]]%HP1; [done|]. by rewrite Edyn in Hs.
Qed.

(** The run on a fresh document with nothing bound yet, the first space ids
    being strings: the listeners the rounds for those ids leave, and the
    rounds that follow. *)
Lemma attachSvgHandlers_prefix ids rest page obj doc :
  page !! APP_CONFIG.buildingMarkersSvg = Some obj →
  contentDocument obj = Some doc →
  BindingJs.unbound doc →
  ∃ w P,
    skeleton <$> w_doc w = skeleton <$> doc
    ∧ (∀ h, listenersOn (w_clicks w) h = option_list (BindingJs.bindingOf doc ids h))
    ∧ BindingJs.attachSvgHandlers APP_CONFIG.buildingMarkersSvg
        (mkLoaded ((StringId <$> ids) ++ rest) page [] [])
      = (mkLoaded ((StringId <$> ids) ++ rest)
           (<[APP_CONFIG.buildingMarkersSvg :=
                with_contentDocument
                  (r_doc (fst (fst (BindingJs.forEach (BindingJs.ofWiring w, P) rest))))
                  obj]> page)
           (r_bound (fst (fst (BindingJs.forEach (BindingJs.ofWiring w, P) rest))))
           (r_clicks (fst (fst (BindingJs.forEach (BindingJs.ofWiring w, P) rest)))),
         snd (BindingJs.forEach (BindingJs.ofWiring w, P) rest)).
Proof.
  intros Hobj Hdoc Hfresh.
  unfold BindingJs.attachSvgHandlers. cbn [l_page l_bound l_clicks spaceIds].
  rewrite Hobj, Hdoc.
  set (d1 := match getElementById doc "Map" with
             | Some mapGroup => alter (setStyle "display" "none") mapGroup doc
             | None => doc
             end).
  assert (skeleton <$> d1 = skeleton <$> doc ∧ attributes <$> d1 = attributes <$> doc)
    as [Hs1 Ha1].
  { unfold d1. destruct (getElementById doc "Map"); [|done].
    split; [by apply skeleton_alter|by apply attributes_alter]. }
  change (default d1 (initMarkerVisibility (Some d1))) with (initDocument d1).
  destruct (binding_loops (initDocument d1) doc ids) as (w & P & E & Hsk & Hl).
  { by rewrite skeleton_initDocument. }
  { by rewrite attributes_initDocument. }
  { done. }
  exists w, P. split_and!; [done|done|].
  change (mkRegistry (initDocument d1) [] [])
    with (BindingJs.ofWiring (mkWiring (initDocument d1) [] [])).
  rewrite foldl_bindDynamic_ofWiring.
  destruct (foldl Binding.bindDynamic _ _) as [w1 P1].
  cbn [prod_map fst snd id].
  replace (StringId <$> ids) with (StringId ∘ space_id <$> (BindingJs.spaceOfId <$> ids))
    by (by rewrite <- list_fmap_compose).
  rewrite forEach_strings. rewrite E. cbn [prod_map fst snd id].
  by destruct (BindingJs.forEach (BindingJs.ofWiring w, P) rest) as [[r P'] c].
Qed.

End BindingJsFacts.

Section BindingJsTheorems.
Import Obs Model SpaceView.
Implicit Types (d : Document) (h el : Handle) (sid : string) (s : Loaded).
Local Open Scope list_scope.


(** X21.  A model that holds the function [Object] as a space id (the id
    the adapter gives a space named Constructor) stops the binding: on a
    fresh markers document none of whose elements is named like that
    function, [attachSvgHandlers] throws a TypeError at that space.  The
    elements tagged with [data-space-id] and the spaces before it are bound
    as usual; no space after it is bound by its id. *)
Theorem attachSvgHandlers_stops_at_function_id s obj doc ids rest :
  l_page s !! APP_CONFIG.buildingMarkersSvg = Some obj →
  contentDocument obj = Some doc →
  l_bound s = [] →
  l_clicks s = [] →
  BindingJs.unbound doc →
  spaceIds s = (StringId <$> ids) ++ ObjectFunction :: rest →
  getElementById doc (BindingJs.toString ObjectFunction) = None →
  snd (BindingJs.attachSvgHandlers APP_CONFIG.buildingMarkersSvg s)
  = Thrown "TypeError: space.id.endsWith is not a function"
  ∧ (∀ h, BindingJs.listenersOn
            (l_clicks (fst (BindingJs.attachSvgHandlers APP_CONFIG.buildingMarkersSvg s))) h
          = option_list (StringId <$> BindingJs.bindingOf doc ids h))
  ∧ (∀ i h, StringId i ∈ rest → i ∉ ids → dynamicId doc h ≠ Some i →
            StringId i ∉ BindingJs.listenersOn
              (l_clicks (fst (BindingJs.attachSvgHandlers
                                APP_CONFIG.buildingMarkersSvg s))) h).
Proof.
  intros Hobj Hdoc Hbound Hclicks Hfresh Hids Hnone.
  destruct s as [sids pg bound clicks]. cbn [l_page l_bound l_clicks spaceIds] in *.
  subst sids bound clicks.
  destruct (attachSvgHandlers_prefix ids (ObjectFunction :: rest) pg obj doc
              Hobj Hdoc Hfresh) as (w & P & Hsk & Hl & E).
  rewrite E. rewrite forEach_ObjectFunction.
  2:{ cbn [fst BindingJs.ofWiring r_doc].
      by rewrite (getElementById_skeleton _ doc _ Hsk). }
  cbn [fst snd l_clicks].
  assert (Hmain : ∀ h,
    BindingJs.listenersOn (r_clicks (BindingJs.ofWiring w)) h
    = option_list (StringId <$> BindingJs.bindingOf doc ids h)).
  { intros h. unfold BindingJs.ofWiring. cbn [r_clicks].
    rewrite listenersOn_withStringId, Hl.
    by destruct (BindingJs.bindingOf doc ids h). }
  split_and!; [done|exact Hmain|].
  intros i h _ Hi Hdyn. rewrite Hmain. unfold BindingJs.bindingOf.
  destruct (dynamicId doc h) as [v|] eqn:Ev; simpl.
  - intros [= ->]%list_elem_of_singleton. done.
  - unfold BindingJs.firstIdResolving.
    destruct (List.find _ ids) as [j|] eqn:Ef; simpl.
    + intros [= ->]%list_elem_of_singleton.
      apply List.find_some in Ef as [Hin _]. by apply Hi, list_elem_of_In.
    + by intros ?%elem_of_nil.
Qed.

End BindingJsTheorems.

Section BindingExamples.
Import Obs Model SpaceView.




Lemma markersDoc_unbound : BindingJs.unbound Example.markersDoc.
Proof.
  intros h n Hn.
  do 10 (destruct h as [|h]; [injection Hn as <-; discriminate|]).
  discriminate Hn.
Qed.

Lemma attachSvgHandlers_stops_at_function_id_witness :
  Sample.schoolIds = Ok (Some <$> spaceIds Sample.school)
  ∧ snd (BindingJs.attachSvgHandlers APP_CONFIG.buildingMarkersSvg Sample.school)
    = Thrown "TypeError: space.id.endsWith is not a function"
  ∧ BindingJs.listenersOn
      (l_clicks (fst (BindingJs.attachSvgHandlers APP_CONFIG.buildingMarkersSvg
                        Sample.school))) 3
    = [StringId "lobby"]
  ∧ BindingJs.listenersOn
      (l_clicks (fst (BindingJs.attachSvgHandlers APP_CONFIG.buildingMarkersSvg
                        Sample.school))) 6
    = [].
Proof.
  pose proof (attachSvgHandlers_stops_at_function_id Sample.school
                (mkPageElement [] None (Some Example.markersDoc))
                Example.markersDoc ["lobby"] [StringId "gym"]
                eq_refl eq_refl eq_refl eq_refl markersDoc_unbound eq_refl eq_refl)
    as (Ht & Hb & _).
  split_and!.
  - reflexivity.
  - exact Ht.
  - exact (eq_trans (Hb 3) eq_refl).
  - exact (eq_trans (Hb 6) eq_refl).
Defined.

End BindingExamples.

(** ** Id generation ([generateId]) *)

Section SlugFacts.
Import Slug SlugObs.
Implicit Types (s r : string) (c : ascii).

Lemma hyphen_not_alnum : alnum "-" = false.
Proof. done. Qed.

Lemma eqb_hyphen c : Ascii.eqb c "-" = true → c = "-"%char.
Proof. apply Ascii.eqb_eq. Qed.

Lemma alnum_not_hyphen c : alnum c = true → Ascii.eqb c "-" = false.
Proof.
  intros Hc. destruct (Ascii.eqb c "-") eqn:E; [|done].
  apply eqb_hyphen in E. subst. by rewrite hyphen_not_alnum in Hc.
Qed.

(** The two readings of "every maximal run becomes one hyphen" agree: the
    scan emits the hyphen where a run starts, the rule where it ends. *)
Lemma replaceRuns_runsToHyphen s : replaceRuns false s = runsToHyphen s.
Proof.
  induction s as [|c r IH]; [done|]. simpl.
  destruct (alnum c); [by rewrite IH|].
  destruct r as [|d r']; [done|].
  simpl in IH |- *. destruct (alnum d).
  - by rewrite <- IH.
  - by rewrite <- IH.
Qed.

Lemma replaceRuns_true_start s : startsWithHyphen (replaceRuns true s) = false.
Proof.
  induction s as [|c r IH]; [done|]. simpl.
  destruct (alnum c) eqn:E; [|done]. simpl.
  destruct c as [[] [] [] [] [] [] [] []]; try done.
Qed.

Lemma replaceRuns_noDoubleHyphen b s : noDoubleHyphen (replaceRuns b s) = true.
Proof.
  revert b. induction s as [|c r IH]; intros b; [done|]. simpl.
  destruct (alnum c) eqn:E.
  - simpl. rewrite IH, (alnum_not_hyphen c E). done.
  - destruct b; [apply IH|]. simpl. by rewrite replaceRuns_true_start, IH.
Qed.

Lemma replaceRuns_slugChars b s : slugChars (replaceRuns b s) = true.
Proof.
  revert b. induction s as [|c r IH]; intros b; [done|]. simpl.
  destruct (alnum c) eqn:E.
  - simpl. by rewrite E, IH.
  - destruct b; [apply IH|]. simpl. by rewrite IH.
Qed.

Lemma noDoubleHyphen_tail c r : noDoubleHyphen (String c r) = true → noDoubleHyphen r = true.
Proof. simpl. by intros [_ ?]%andb_true_iff. Qed.

Lemma trimLeading_noDoubleHyphen s :
  noDoubleHyphen s = true → trimLeading s = dropLeadingHyphen s.
Proof.
  destruct s as [|c r]; [done|]. simpl.
  destruct (Ascii.eqb_spec c "-") as [->|Hne].
  - simpl. intros H. apply andb_true_iff in H as [H _].
    apply negb_true_iff in H. destruct r as [|d r']; [done|].
    simpl in H. by destruct d as [[] [] [] [] [] [] [] []].
  - intros _. by destruct c as [[] [] [] [] [] [] [] []].
Qed.

Lemma dropTrailingHyphen_empty s :
  dropTrailingHyphen s = EmptyString → s = EmptyString ∨ s = "-".
Proof.
  destruct s as [|c r]; [by left|]. simpl. destruct r as [|d r']; [|done].
  destruct (Ascii.eqb_spec c "-") as [->|]; [by right|done].
Qed.

Lemma trimTrailing_noDoubleHyphen s :
  noDoubleHyphen s = true → trimTrailing s = dropTrailingHyphen s.
Proof.
  induction s as [|c r IH]; [done|]. intros Hnd.
  pose proof (noDoubleHyphen_tail c r Hnd) as Hr. specialize (IH Hr).
  change (trimTrailing (String c r))
    with (match trimTrailing r with
          | EmptyString => if Ascii.eqb c "-" then EmptyString else String c EmptyString
          | t => String c t
          end).
  rewrite IH. destruct r as [|d r']; [done|].
  change (dropTrailingHyphen (String c (String d r')))
    with (String c (dropTrailingHyphen (String d r'))).
  destruct (dropTrailingHyphen (String d r')) eqn:E; [|done].
  apply dropTrailingHyphen_empty in E as [E|E]; [done|]. injection E as -> ->.
  simpl in Hnd. by destruct (Ascii.eqb c "-").
Qed.

Lemma dropLeadingHyphen_noDoubleHyphen s :
  noDoubleHyphen s = true → noDoubleHyphen (dropLeadingHyphen s) = true.
Proof.
  destruct s as [|c r]; [done|]. intros H.
  assert (noDoubleHyphen r = true) by (by apply (noDoubleHyphen_tail c)).
  simpl. by destruct c as [[] [] [] [] [] [] [] []].
Qed.

(** The scan of the code computes the slug of the rule. *)
Lemma slug_specSlug s : slug s = specSlug s.
Proof.
  unfold slug, specSlug, replaceEdgeHyphens. rewrite <- replaceRuns_runsToHyphen.
  pose proof (replaceRuns_noDoubleHyphen false (toLowerCase s)) as Hnd.
  rewrite (trimLeading_noDoubleHyphen _ Hnd).
  by rewrite trimTrailing_noDoubleHyphen by (by apply dropLeadingHyphen_noDoubleHyphen).
Qed.

(** The two replacements of [generateId] compute the slug of the rule:
    once the runs are replaced no two hyphens are adjacent, so removing one
    hyphen at each end trims them all. *)
Theorem slug_follows_rule s :
  noDoubleHyphen (replaceRuns false (toLowerCase s)) = true
  ∧ replaceRuns false (toLowerCase s) = runsToHyphen (toLowerCase s)
  ∧ slug s = specSlug s.
Proof.
  split_and!.
  - apply replaceRuns_noDoubleHyphen.
  - apply replaceRuns_runsToHyphen.
  - apply slug_specSlug.
Qed.

Lemma dropTrailingHyphen_slugChars s :
  slugChars s = true → slugChars (dropTrailingHyphen s) = true.
Proof.
  induction s as [|c r IH]; [done|]. intros H. simpl in H.
  apply andb_true_iff in H as [Hc Hr].
  destruct r as [|d r'].
  - simpl. destruct (Ascii.eqb c "-") eqn:E; [done|].
    simpl. rewrite E in *. by rewrite Hc.
  - change (dropTrailingHyphen (String c (String d r')))
      with (String c (dropTrailingHyphen (String d r'))).
    simpl. rewrite Hc. simpl. by apply IH.
Qed.

Lemma slug_slugChars s : slugChars (slug s) = true.
Proof.
  unfold slug, replaceEdgeHyphens. apply dropTrailingHyphen_slugChars.
  pose proof (replaceRuns_slugChars false (toLowerCase s)) as H.
  destruct (replaceRuns false (toLowerCase s)) as [|c r]; [done|].
  simpl in *. apply andb_true_iff in H as [? ?].
  destruct c as [[] [] [] [] [] [] [] []]; simpl; try done; by apply andb_true_iff.
Qed.

End SlugFacts.

Section GenerateId.
Import Js Slug SlugObs DataAdapter.

Lemma objectPrototype_slug t :
  slugChars t = true →
  existsb (String.eqb t) objectPrototype = String.eqb t "constructor".
Proof.
  intros Ht.
  assert (Hno : ∀ name, slugChars name = false → String.eqb t name = false).
  { intros name Hn. destruct (String.eqb_spec t name); [congruence|done]. }
  unfold objectPrototype. simpl existsb.
  rewrite !(Hno "hasOwnProperty"), !(Hno "isPrototypeOf"), !(Hno "propertyIsEnumerable"),
    !(Hno "toLocaleString"), !(Hno "toString"), !(Hno "valueOf"), !(Hno "__proto__"),
    !(Hno "__defineGetter__"), !(Hno "__defineSetter__"), !(Hno "__lookupGetter__"),
    !(Hno "__lookupSetter__") by done.
  by rewrite !orb_false_r.
Qed.

(** Apart from the slug [constructor], the id is the slug of the rule with
    the override table applied. *)
Lemma generateId_rule s :
  s ≠ "" → slug s ≠ "constructor" →
  generateId (VStr s) = Ok (VStr (specOverride (specSlug s))).
Proof.
  intros Hs Hc. unfold generateId. simpl truthy.
  apply String.eqb_neq in Hs. rewrite Hs. simpl negb. cbv iota.
  rewrite <- slug_specSlug. unfold specOverride, SPACE_ID_OVERRIDES, get, own.
  cbn [List.find fst]. rewrite (String.eqb_sym "school-gym").
  destruct (String.eqb (slug s) "school-gym") eqn:E; [done|].
  cbn [fmap option_fmap option_map default mbind Exc_bind].
  unfold inherited. rewrite (objectPrototype_slug _ (slug_slugChars s)).
  apply String.eqb_neq in Hc. by rewrite Hc.
Qed.

(** The cases the specification names. *)
Lemma generateId_examples :
  generateId (VStr "Science Lab") = Ok (VStr "science-lab")
  ∧ generateId (VStr "School Gym") = Ok (VStr "gym")
  ∧ generateId (VStr "") = Ok (VStr "unknown-space")
  ∧ generateId VUndefined = Ok (VStr "unknown-space")
  ∧ generateId VNull = Ok (VStr "unknown-space")
  ∧ generateId (VStr "  Rooftop -- Units (2) ") = Ok (VStr "rooftop-units-2").
Proof. vm_compute. done. Qed.

(** C7 at the name [Constructor]: the rule gives the id [constructor]; the
    lookup in the override table finds the member [constructor] that every
    object inherits, and [generateId] returns that function, not a string. *)
Lemma generateId_inherited_constructor :
  specOverride (specSlug "Constructor") = "constructor"
  ∧ generateId (VStr "Constructor") = Ok (VBuiltin "constructor")
  ∧ toString (VBuiltin "constructor") = "function Object() { [native code] }".
Proof. vm_compute. done. Qed.

End GenerateId.

(** ** The transformation ([DataAdapter.transform]) and the fetch *)

Section Transform.
Import Js DataAdapter.
Variable coerce : Value → Exc bool.
Implicit Types (v root : Value) (l : list Value).

Lemma bind_Ok {A B} (m : Exc A) (k : A → Exc B) b :
  m ≫= k = Ok b → ∃ a, m = Ok a ∧ k a = Ok b.
Proof. destruct m; simpl; [eauto|done]. Qed.

Lemma get_non_null v k : v ≠ VNull → v ≠ VUndefined → ∃ x, get v k = Ok x.
Proof. destruct v; simpl; eauto; done. Qed.

Lemma get_Ok_non_null v k x : get v k = Ok x → v ≠ VNull ∧ v ≠ VUndefined.
Proof. by destruct v. Qed.

Lemma mapM_Throw {A B} (f : A → Exc B) (l : list A) x :
  x ∈ l → (∃ e, f x = Throw e) → ∃ e, mapM f l = Throw e.
Proof.
  intros Hx [e He]. induction l as [|y l IH]; [by apply elem_of_nil in Hx|].
  simpl. apply elem_of_cons in Hx as [<-|Hx].
  - rewrite He. eauto.
  - destruct (f y); simpl; [|eauto]. destruct (IH Hx) as [e' ->]. simpl. eauto.
Qed.

Lemma transformPageMetadata_Ok root pm :
  transformPageMetadata coerce root = Ok pm → pm ≠ VObj [].
Proof.
  unfold transformPageMetadata. intros H.
  repeat (apply bind_Ok in H as (? & _ & H)). by injection H as <-.
Qed.

(** When the [try] block returns, it returns a structure with page
    metadata. *)
Lemma transform_try_Ok v data :
  transform_try coerce v = Ok data → data ≠ emptyStructure.
Proof.
  unfold transform_try. intros H.
  destruct (negb (truthy v)); [done|].
  apply bind_Ok in H as (value & _ & H).
  destruct (negb (truthy value)); [done|].
  apply bind_Ok in H as (len & _ & H).
  destruct (strictEq0 len); [done|].
  apply bind_Ok in H as (root & _ & H).
  apply bind_Ok in H as (pm & Hpm & H).
  apply bind_Ok in H as (sp & _ & H).
  apply bind_Ok in H as (spaces & _ & H).
  injection H as <-. apply transformPageMetadata_Ok in Hpm.
  unfold emptyStructure. congruence.
Qed.

Lemma transform_empty_iff v :
  transform coerce v = emptyStructure ↔ ∃ e, transform_try coerce v = Throw e.
Proof.
  unfold transform. split.
  - destruct (transform_try coerce v) as [data|e] eqn:E; [|eauto].
    intros ->. by apply transform_try_Ok in E.
  - by intros [e ->].
Qed.

Lemma transform_no_value props :
  own props "value" = None ∨ own props "value" = Some (VArr []) ∨
  own props "value" = Some VNull →
  transform coerce (VObj props) = emptyStructure.
Proof.
  unfold transform, transform_try. simpl.
  by intros [-> | [-> | ->]].
Qed.

(** An entry of the space list on which [transformSpace] throws: [null],
    [undefined], or an entry whose title is truthy and not a string. *)
Lemma transformSpace_throws x :
  x = VNull ∨ x = VUndefined ∨
  (∃ t, get x "Title" = Ok t ∧ truthy t = true ∧ ∀ s, t ≠ VStr s) →
  ∃ e, transformSpace coerce x = Throw e.
Proof.
  intros [-> | [-> | (t & Ht & Htr & Hns)]]; [by eexists..|].
  unfold transformSpace. rewrite Ht. simpl.
  destruct (get_Ok_non_null _ _ _ Ht) as [Hn Hu].
  destruct (get_non_null x "Name" Hn Hu) as [name ->]. simpl.
  unfold or. rewrite Htr. unfold generateId. rewrite Htr. simpl.
  destruct t; try by eexists. by destruct (Hns s).
Qed.

Lemma transform_throwing_entry props root rest l x :
  own props "value" = Some (VArr (root :: rest)) →
  get root "Spaces" = Ok (VArr l) →
  x ∈ l →
  x = VNull ∨ x = VUndefined ∨
  (∃ t, get x "Title" = Ok t ∧ truthy t = true ∧ ∀ s, t ≠ VStr s) →
  transform coerce (VObj props) = emptyStructure.
Proof.
  intros Hv Hsp Hx Hbad. apply transform_empty_iff.
  unfold transform_try. simpl. rewrite Hv. simpl.
  destruct (transformPageMetadata coerce root) as [pm|e]; simpl; [|eauto].
  rewrite Hsp. simpl.
  destruct (mapM_Throw (transformSpace coerce) l x Hx (transformSpace_throws x Hbad))
    as [e ->].
  simpl. eauto.
Qed.

End Transform.

Section TransformTheorems.
Import Js DataAdapter SpaceService.

(** C10: for a response whose value array has two or more elements, the
    output is the output for the response holding the first element alone. *)
Theorem transform_reads_first_element coerce resp r0 r1 rest :
  get resp "value" = Ok (VArr (r0 :: r1 :: rest)) →
  transform coerce resp = transform coerce (VObj [("value", VArr [r0])]).
Proof.
  intros Hv. unfold transform, transform_try.
  assert (truthy resp = true) as -> by (by destruct resp).
  rewrite Hv. done.
Qed.

Lemma transform_reads_first_element_witness :
  transform (λ _, Ok false) Example.twoElementResponse
  = transform (λ _, Ok false) (VObj [("value", VArr [Example.school "K-12"])]).
Proof.
  exact (transform_reads_first_element (λ _, Ok false) Example.twoElementResponse
           (Example.school "K-12") (Example.school "Campus") [] eq_refl).
Defined.

End TransformTheorems.

Section FurtherWitnesses.
Import Js Slug DataAdapter Controller.

Lemma generateId_rule_witness :
  generateId (VStr "School Gym") = Ok (VStr "gym").
Proof.
  refine (eq_trans (generateId_rule "School Gym" _ _) eq_refl).
  - discriminate.
  - vm_compute. discriminate.
Defined.

End FurtherWitnesses.

(** ** The shape of generated ids *)

Section IdShape.
Import Js Slug SlugObs IdObs DataAdapter.
Implicit Types (s t r : string) (c : ascii).

Lemma lowerChar_slugChar c : alnum c || Ascii.eqb c "-" = true → lowerChar c = c.
Proof. destruct c as [[] [] [] [] [] [] [] []]; vm_compute; done. Qed.

Lemma toLowerCase_fixed t : slugChars t = true → toLowerCase t = t.
Proof.
  induction t as [|c r IH]; [done|]. simpl.
  intros [Hc Hr]%andb_true_iff. by rewrite (lowerChar_slugChar c Hc), IH.
Qed.

Lemma slugChar_cases c :
  alnum c || Ascii.eqb c "-" = true → alnum c = true ∨ (c = "-"%char ∧ alnum c = false).
Proof.
  destruct (alnum c) eqn:E; [by left|]. simpl. intros ->%eqb_hyphen. by right.
Qed.

Lemma replaceRuns_fixed t :
  slugChars t = true → noDoubleHyphen t = true → replaceRuns false t = t.
Proof.
  induction t as [|c r IH]; [done|].
  intros Hs Hn. pose proof (noDoubleHyphen_tail c r Hn) as Hnr.
  simpl in Hs. apply andb_true_iff in Hs as [Hc Hr].
  specialize (IH Hr Hnr).
  destruct (slugChar_cases c Hc) as [Ha|[-> Ha]].
  - simpl. by rewrite Ha, IH.
  - simpl in Hn |- *. f_equal.
    destruct r as [|d r']; [done|].
    simpl in Hn, Hr, IH |- *. apply andb_true_iff in Hr as [Hd _].
    destruct (slugChar_cases d Hd) as [Hda|[-> _]]; [|done].
    rewrite Hda in IH |- *. done.
Qed.

Lemma dropTrailingHyphen_fixed t : endsWith t "-" = false → dropTrailingHyphen t = t.
Proof.
  unfold endsWith. induction t as [|c r IH]; [done|].
  destruct r as [|d r'].
  - simpl. by intros ->.
  - intros H. change (dropTrailingHyphen (String c (String d r')))
      with (String c (dropTrailingHyphen (String d r'))).
    f_equal. by apply IH.
Qed.

Lemma slug_fixed t : wellFormed t = true → slug t = t.
Proof.
  unfold wellFormed. intros [[[Hs Hn]%andb_true_iff Hl%negb_true_iff]%andb_true_iff
                               He%negb_true_iff]%andb_true_iff.
  unfold slug, replaceEdgeHyphens.
  rewrite (toLowerCase_fixed t Hs), (replaceRuns_fixed t Hs Hn).
  assert (dropLeadingHyphen t = t) as ->.
  { destruct t as [|c r]; [done|]. simpl in Hl |- *.
    by destruct c as [[] [] [] [] [] [] [] []]. }
  by apply dropTrailingHyphen_fixed.
Qed.

Lemma startsWithHyphen_dropTrailingHyphen t :
  startsWithHyphen t = false → startsWithHyphen (dropTrailingHyphen t) = false.
Proof.
  destruct t as [|c r]; [done|]. destruct r as [|d r'].
  - simpl. by destruct (Ascii.eqb c "-").
  - done.
Qed.

Lemma dropTrailingHyphen_noDoubleHyphen t :
  noDoubleHyphen t = true → noDoubleHyphen (dropTrailingHyphen t) = true.
Proof.
  induction t as [|c r IH]; [done|]. intros Hn.
  pose proof (noDoubleHyphen_tail c r Hn) as Hnr.
  destruct r as [|d r'].
  - simpl. by destruct (Ascii.eqb c "-").
  - change (dropTrailingHyphen (String c (String d r')))
      with (String c (dropTrailingHyphen (String d r'))).
    change (noDoubleHyphen (String c ?x))
      with (negb (Ascii.eqb c "-" && startsWithHyphen x) && noDoubleHyphen x).
    rewrite (IH Hnr), andb_true_r.
    change (noDoubleHyphen (String c (String d r')))
      with (negb (Ascii.eqb c "-" && startsWithHyphen (String d r'))
            && noDoubleHyphen (String d r')) in Hn.
    apply andb_true_iff in Hn as [Hn _]. apply negb_true_iff in Hn.
    apply negb_true_iff. destruct (Ascii.eqb c "-"); [|done].
    cbn [andb] in Hn |- *. by apply startsWithHyphen_dropTrailingHyphen.
Qed.

Lemma endsWith_dropTrailingHyphen t :
  noDoubleHyphen t = true → endsWith (dropTrailingHyphen t) "-" = false.
Proof.
  unfold endsWith. induction t as [|c r IH]; [done|]. intros Hn.
  pose proof (noDoubleHyphen_tail c r Hn) as Hnr.
  destruct r as [|d r'].
  - simpl. destruct (Ascii.eqb c "-") eqn:E; [done|]. simpl. by rewrite E.
  - change (dropTrailingHyphen (String c (String d r')))
      with (String c (dropTrailingHyphen (String d r'))).
    destruct (dropTrailingHyphen (String d r')) as [|e u] eqn:E.
    + apply dropTrailingHyphen_empty in E as [E|E]; [done|]. injection E as -> ->.
      simpl in Hn |- *. by destruct (Ascii.eqb c "-").
    + specialize (IH Hnr). by simpl in IH |- *.
Qed.

Lemma startsWithHyphen_dropLeadingHyphen t :
  noDoubleHyphen t = true → startsWithHyphen (dropLeadingHyphen t) = false.
Proof.
  destruct t as [|c r]; [done|]. intros Hn. simpl in Hn.
  apply andb_true_iff in Hn as [Hn _]. apply negb_true_iff in Hn.
  destruct (Ascii.eqb_spec c "-") as [->|Hne]; [done|].
  destruct c as [[] [] [] [] [] [] [] []]; done.
Qed.

Lemma slug_wellFormed s : wellFormed (slug s) = true.
Proof.
  pose proof (replaceRuns_noDoubleHyphen false (toLowerCase s)) as Hn.
  unfold wellFormed. rewrite slug_slugChars. unfold slug, replaceEdgeHyphens.
  rewrite dropTrailingHyphen_noDoubleHyphen
    by (by apply dropLeadingHyphen_noDoubleHyphen).
  rewrite startsWithHyphen_dropTrailingHyphen
    by (by apply startsWithHyphen_dropLeadingHyphen).
  by rewrite endsWith_dropTrailingHyphen by (by apply dropLeadingHyphen_noDoubleHyphen).
Qed.

(** [generateId] on a non-empty string, by cases on the slug. *)
Lemma generateId_cases s :
  s ≠ "" →
  generateId (VStr s) =
  Ok (if String.eqb (slug s) "school-gym" then VStr "gym"
      else if String.eqb (slug s) "constructor" then VBuiltin "constructor"
      else VStr (slug s)).
Proof.
  intros Hs. unfold generateId. simpl truthy.
  apply String.eqb_neq in Hs. rewrite Hs. simpl negb. cbv iota.
  unfold SPACE_ID_OVERRIDES, get, own.
  cbn [List.find fst]. rewrite (String.eqb_sym "school-gym").
  destruct (String.eqb (slug s) "school-gym") eqn:E; [done|].
  cbn [fmap option_fmap option_map default mbind Exc_bind].
  unfold inherited. rewrite (objectPrototype_slug _ (slug_slugChars s)).
  destruct (String.eqb_spec (slug s) "constructor") as [->|]; [done|].
  unfold or. simpl truthy. by destruct (String.eqb (slug s) "").
Qed.

Lemma hasAlnum_nonempty t : hasAlnum t = true → t ≠ "".
Proof. by destruct t. Qed.

Lemma hasAlnum_replaceRuns b u : hasAlnum (replaceRuns b u) = hasAlnum u.
Proof.
  revert b. induction u as [|c r IH]; intros b; [done|]. simpl.
  destruct (alnum c) eqn:E; simpl; [by rewrite E|].
  destruct b; simpl; by rewrite IH.
Qed.

Lemma hasAlnum_dropLeadingHyphen u : hasAlnum (dropLeadingHyphen u) = hasAlnum u.
Proof.
  destruct u as [|c r]; [done|]. simpl.
  destruct (Ascii.eqb_spec c "-") as [->|Hne]; [done|].
  by destruct c as [[] [] [] [] [] [] [] []].
Qed.

Lemma hasAlnum_dropTrailingHyphen u : hasAlnum (dropTrailingHyphen u) = hasAlnum u.
Proof.
  induction u as [|c r IH]; [done|]. destruct r as [|d r'].
  - simpl. by destruct (Ascii.eqb_spec c "-") as [->|Hne].
  - change (dropTrailingHyphen (String c (String d r')))
      with (String c (dropTrailingHyphen (String d r'))).
    change (hasAlnum (String c ?x)) with (alnum c || hasAlnum x). by rewrite IH.
Qed.

Lemma hasAlnum_slug s : hasAlnum (slug s) = hasAlnum (toLowerCase s).
Proof.
  unfold slug, replaceEdgeHyphens.
  by rewrite hasAlnum_dropTrailingHyphen, hasAlnum_dropLeadingHyphen, hasAlnum_replaceRuns.
Qed.

Lemma replaceRuns_no_alnum u :
  hasAlnum u = false →
  replaceRuns true u = "" ∧ (replaceRuns false u = "" ∨ replaceRuns false u = "-").
Proof.
  induction u as [|c r IH]; [by auto|]. simpl.
  intros [Hc Hr]%orb_false_iff. rewrite Hc. destruct (IH Hr) as [-> _]. auto.
Qed.

Lemma slug_empty_iff s : slug s = "" ↔ hasAlnum (toLowerCase s) = false.
Proof.
  split.
  - intros E. rewrite <- hasAlnum_slug, E. done.
  - intros H. unfold slug, replaceEdgeHyphens.
    by destruct (replaceRuns_no_alnum _ H) as [_ [-> | ->]].
Qed.

(** X4.  Whatever the name, an id returned by [generateId] is either the
    inherited member [constructor] or a well-formed slug: characters of
    [[a-z0-9-]] only, no hyphen at either end, no two hyphens in a row.
    The id is the empty string exactly when the name is a non-empty string
    none of whose characters is a letter of A-Z, a-z or a digit once
    lower-cased; such a name does not get the id [unknown-space]. *)
Theorem generateId_shape (name v : Value) :
  generateId name = Ok v →
  v = VBuiltin "constructor"
  ∨ ∃ t, v = VStr t ∧ wellFormed t = true
         ∧ (t = "" ↔ ∃ s, name = VStr s ∧ s ≠ "" ∧ hasAlnum (toLowerCase s) = false).
Proof.
  intros H.
  assert (Hunknown : ∀ n, truthy n = false → generateId n = Ok (VStr "unknown-space")).
  { intros n Hn. unfold generateId. by rewrite Hn. }
  destruct (truthy name) eqn:Ht.
  - destruct name as [| |b|z|s| | |]; try (unfold generateId in H; rewrite Ht in H; done).
    assert (s ≠ "") as Hs by (simpl in Ht; by destruct (String.eqb_spec s "")).
    rewrite (generateId_cases s Hs) in H. injection H as <-.
    destruct (String.eqb_spec (slug s) "school-gym") as [Eg|Eg].
    + right. exists "gym". split_and!; [done|done|]. split; [done|].
      intros (s' & [= <-] & _ & Hna). apply slug_empty_iff in Hna. by rewrite Hna in Eg.
    + destruct (String.eqb_spec (slug s) "constructor") as [Ec|Ec]; [by left|].
      right. exists (slug s). split_and!; [done|apply slug_wellFormed|].
      rewrite slug_empty_iff. split; [by exists s|by intros (s' & [= <-] & _ & ?)].
  - rewrite (Hunknown _ Ht) in H. injection H as <-.
    right. exists "unknown-space". split_and!; [done|done|]. split; [done|].
    intros (s & -> & Hs & _). simpl in Ht. by destruct (String.eqb_spec s "").
Qed.

(** X5.  [generateId] is idempotent on its non-empty string results: the
    id of a space, used as a name, gets the same id. *)
Theorem generateId_idempotent (name : Value) (t : string) :
  generateId name = Ok (VStr t) → t ≠ "" →
  generateId (VStr t) = Ok (VStr t).
Proof.
  intros H Hne. rewrite (generateId_cases t Hne).
  destruct (truthy name) eqn:Ht.
  - destruct name as [| |b|z|s| | |]; try (unfold generateId in H; rewrite Ht in H; done).
    assert (s ≠ "") as Hs by (simpl in Ht; by destruct (String.eqb_spec s "")).
    rewrite (generateId_cases s Hs) in H.
    destruct (String.eqb_spec (slug s) "school-gym") as [Eg|Eg]; [by injection H as <-|].
    destruct (String.eqb_spec (slug s) "constructor") as [Ec|Ec]; [done|].
    injection H as <-. rewrite (slug_fixed _ (slug_wellFormed s)).
    apply String.eqb_neq in Eg, Ec. by rewrite Eg, Ec.
  - unfold generateId in H. rewrite Ht in H. by injection H as <-.
Qed.

End IdShape.

(** ** The output of the adapter *)

Section AdapterOutput.
Import Js Slug SlugObs IdObs AdapterObs DataAdapter.
Variable coerce : Value → Exc bool.
Implicit Types (v x y : Value) (l : list Value).

Lemma extractImageUrl_null_or_truthy x v :
  extractImageUrl coerce x = Ok v → v = VNull ∨ truthy v = true.
Proof.
  unfold extractImageUrl. destruct (truthy x); [|intros [= <-]; by left].
  intros (len & _ & H)%bind_Ok. apply bind_Ok in H as ([] & _ & H);
    [|injection H as <-; by left].
  apply bind_Ok in H as (first & _ & H). apply bind_Ok in H as (url & _ & H).
  destruct (truthy url) eqn:E; injection H as <-; auto.
Qed.

Lemma truthy_or_default v d :
  v = VNull ∨ truthy v = true → truthy d = true → truthy (or v d) = true.
Proof. unfold or. intros [->|Hv] Hd; [done|]. by rewrite Hv. Qed.

Lemma mapM_Ok_Forall2 {A B} (f : A → Exc B) (l : list A) (k : list B) :
  mapM f l = Ok k → Forall2 (λ a b, f a = Ok b) l k.
Proof.
  revert k. induction l as [|a l IH]; intros k; simpl.
  - intros [= <-]. constructor.
  - intros (b & Hb & H)%bind_Ok. apply bind_Ok in H as (k' & Hk & H).
    injection H as <-. constructor; auto.
Qed.

Lemma transformEquipmentItem_linked x y :
  transformEquipmentItem coerce x = Ok y → equipmentLinked y.
Proof.
  unfold transformEquipmentItem.
  intros (i & _ & H)%bind_Ok. apply bind_Ok in H as (title & _ & H).
  apply bind_Ok in H as (slider & _ & H). apply bind_Ok in H as (slideUrl & Hs & H).
  apply bind_Ok in H as (body & _ & H). apply bind_Ok in H as (productUrl & _ & H).
  apply bind_Ok in H as (bg & _ & H). apply bind_Ok in H as (bgUrl & Hb & H).
  injection H as <-. unfold equipmentLinked, field, own. cbn [List.find fst String.eqb
    Ascii.eqb Bool.eqb fmap option_fmap option_map default snd]. simpl.
  split_and!.
  - apply truthy_or_default; [by eapply extractImageUrl_null_or_truthy|done].
  - unfold or. by destruct (truthy productUrl) eqn:E.
  - apply truthy_or_default; [by eapply extractImageUrl_null_or_truthy|done].
Qed.

Lemma transformEquipment_linked x y :
  transformEquipment coerce x = Ok y →
  ∃ items, y = VArr items ∧ Forall equipmentLinked items
           ∧ (∀ l, x = VArr l → length items = length l)
           ∧ (isArray x = false → items = []).
Proof.
  unfold transformEquipment. intros H.
  assert (Hna : isArray x = false → Ok (VArr []) = Ok y →
                ∃ items, y = VArr items ∧ Forall equipmentLinked items
                         ∧ (∀ l, x = VArr l → length items = length l)
                         ∧ (isArray x = false → items = [])).
  { intros Hx [= <-]. exists []. split_and!; [done|constructor| |done].
    intros l ->. done. }
  destruct x as [| |b|z|s|l|props|k]; try (by apply Hna).
  destruct (mapM (transformEquipmentItem coerce) l) as [items|e] eqn:E; [|done].
  injection H as <-. exists items. apply mapM_Ok_Forall2 in E.
  split_and!; [done| | |done].
  - clear -E. induction E; constructor; eauto using transformEquipmentItem_linked.
  - intros l' [= <-]. symmetry. by eapply Forall2_length.
Qed.

Lemma generateId_idShape v y : generateId v = Ok y → idShape y.
Proof.
  intros H. destruct (truthy v) eqn:Ht.
  - destruct v as [| |b|z|s| | |]; try (unfold generateId in H; rewrite Ht in H; done).
    assert (s ≠ "") as Hs by (simpl in Ht; by destruct (String.eqb_spec s "")).
    rewrite (generateId_cases s Hs) in H. injection H as <-.
    destruct (String.eqb (slug s) "school-gym"); [right; by exists "gym"|].
    destruct (String.eqb (slug s) "constructor"); [by left|].
    right. exists (slug s). split; [done|apply slug_wellFormed].
  - unfold generateId in H. rewrite Ht in H. injection H as <-.
    right. by exists "unknown-space".
Qed.

Lemma transformOverview_linked x i y :
  transformOverview coerce x i = Ok y → truthy (field "bgImg" y) = true.
Proof.
  unfold transformOverview.
  intros (ov & _ & H)%bind_Ok. apply bind_Ok in H as (title & _ & H).
  apply bind_Ok in H as (body & _ & H). apply bind_Ok in H as (bg & _ & H).
  apply bind_Ok in H as (url & Hu & H). injection H as <-.
  unfold field, own. simpl.
  apply truthy_or_default; [by eapply extractImageUrl_null_or_truthy|done].
Qed.

Lemma transformNarrative_linked x i y :
  transformNarrative coerce x i = Ok y → truthy (field "img" y) = true.
Proof.
  unfold transformNarrative.
  intros (nv & _ & H)%bind_Ok. apply bind_Ok in H as (title & _ & H).
  apply bind_Ok in H as (body & _ & H). apply bind_Ok in H as (bg & _ & H).
  apply bind_Ok in H as (url & Hu & H). injection H as <-.
  unfold field, own. simpl.
  apply truthy_or_default; [by eapply extractImageUrl_null_or_truthy|done].
Qed.

Lemma transformSpace_Ok x y :
  transformSpace coerce x = Ok y →
  idShape (field "id" y) ∧ spaceLinked y
  ∧ ∃ title name,
      get x "Title" = Ok title ∧ get x "Name" = Ok name
      ∧ generateId (or title name) = Ok (field "id" y)
      ∧ field "name" y = or title name
      ∧ field "markerImg" y = VStr (pinsDir ++ toString (field "id" y) ++ ".svg").
Proof.
  unfold transformSpace.
  intros (title & Ht & H)%bind_Ok. apply bind_Ok in H as (name & Hn & H).
  apply bind_Ok in H as (i & Hi & H). apply bind_Ok in H as (description & _ & H).
  apply bind_Ok in H as (ov & _ & H). apply bind_Ok in H as (overview & Ho & H).
  apply bind_Ok in H as (eq & _ & H). apply bind_Ok in H as (equipment & He & H).
  apply bind_Ok in H as (dn & _ & H). apply bind_Ok in H as (narrative & Hd & H).
  injection H as <-.
  apply transformEquipment_linked in He as (items & -> & Hitems & _).
  split_and!.
  - by eapply generateId_idShape.
  - unfold spaceLinked. split_and!.
    + done.
    + by eapply transformOverview_linked.
    + by eapply transformNarrative_linked.
    + by exists items.
  - by exists title, name.
Qed.

(** X6.  A space that [transformSpaces] produces from an entry has the id
    that [generateId] gives the entry's Title, or its Name when the Title
    is falsy, and all its image and link fields set: the marker image is
    the path built from the id, the background of the overview, the image
    of the narrative and, for every item of equipment, the slide image, the
    product link and the background are truthy, the defaults standing in
    for what the entry lacks. *)
Theorem transformSpace_output x y :
  transformSpace coerce x = Ok y →
  idShape (field "id" y) ∧ spaceLinked y
  ∧ ∃ title name,
      get x "Title" = Ok title ∧ get x "Name" = Ok name
      ∧ generateId (or title name) = Ok (field "id" y)
      ∧ field "name" y = or title name
      ∧ field "markerImg" y = VStr (pinsDir ++ toString (field "id" y) ++ ".svg").
Proof. apply transformSpace_Ok. Qed.

Lemma transformSpaces_Ok x y :
  transformSpaces coerce x = Ok y →
  ∃ sp, y = VArr sp
        ∧ Forall (λ s, idShape (field "id" s) ∧ spaceLinked s) sp
        ∧ (∀ l, x = VArr l → length sp = length l)
        ∧ (isArray x = false → sp = []).
Proof.
  unfold transformSpaces. intros H.
  assert (Hna : isArray x = false → Ok (VArr []) = Ok y →
                ∃ sp, y = VArr sp
                      ∧ Forall (λ s, idShape (field "id" s) ∧ spaceLinked s) sp
                      ∧ (∀ l, x = VArr l → length sp = length l)
                      ∧ (isArray x = false → sp = [])).
  { intros Hx [= <-]. exists []. split_and!; [done|constructor| |done].
    intros l ->. done. }
  destruct x as [| |b|z|s|l|props|k]; try (by apply Hna).
  destruct (mapM (transformSpace coerce) l) as [sp|e] eqn:E; [|done].
  injection H as <-. exists sp. apply mapM_Ok_Forall2 in E.
  split_and!; [done| | |done].
  - clear -E. induction E as [|a b l k Hab _ IH]; constructor; [|done].
    apply transformSpace_Ok in Hab. tauto.
  - intros l' [= <-]. symmetry. by eapply Forall2_length.
Qed.

(** X7.  Whatever the response, and whatever the comparisons on strings
    and arrays come to, [transform] returns an object whose [pageMetadata]
    is an object and whose [spaces] is an array; every space of that array
    has a well-formed id (or the inherited member [constructor]) and all
    its image and link fields set.  When the try block succeeds the array
    has one space for each entry of the list [Spaces] of the first
    element, and none when [Spaces] is not an array. *)
Theorem transform_output_shape v :
  ∃ pm sp,
    transform coerce v = VObj [("pageMetadata", VObj pm); ("spaces", VArr sp)]
    ∧ Forall (λ s, idShape (field "id" s) ∧ spaceLinked s) sp
    ∧ (∀ value root spaces,
         transform_try coerce v = Ok (transform coerce v) →
         get v "value" = Ok value → get0 value = Ok root →
         get root "Spaces" = Ok spaces →
         match spaces with
         | VArr l => length sp = length l
         | _ => sp = []
         end).
Proof.
  unfold transform. destruct (transform_try coerce v) as [data|e] eqn:E.
  - unfold transform_try in E.
    destruct (negb (truthy v)); [done|].
    apply bind_Ok in E as (value & Hv & E).
    destruct (negb (truthy value)); [done|].
    apply bind_Ok in E as (len & _ & E). destruct (strictEq0 len); [done|].
    apply bind_Ok in E as (root & Hr & E). apply bind_Ok in E as (pm & Hpm & E).
    apply bind_Ok in E as (spv & Hs & E). apply bind_Ok in E as (out & Ho & E).
    injection E as <-.
    apply transformSpaces_Ok in Ho as (sp & -> & Hall & Hlen & Hnil).
    assert (∃ props, pm = VObj props) as [props ->].
    { unfold transformPageMetadata in Hpm.
      apply bind_Ok in Hpm as (? & _ & H). apply bind_Ok in H as (? & _ & H).
      apply bind_Ok in H as (? & _ & H). apply bind_Ok in H as (? & _ & H).
      apply bind_Ok in H as (? & _ & H). apply bind_Ok in H as (? & _ & H).
      apply bind_Ok in H as (? & _ & H). injection H as <-. eauto. }
    exists props, sp. split_and!; [done|done|].
    intros value' root' spaces' _ Hv' Hr' Hs'.
    rewrite Hv in Hv'. injection Hv' as <-. rewrite Hr in Hr'. injection Hr' as <-.
    rewrite Hs in Hs'. injection Hs' as <-.
    destruct spv; try (by apply Hnil). by apply Hlen.
  - exists [], []. split_and!; [done|constructor|]. by intros ??? [=].
Qed.

End AdapterOutput.

(** ** What [transform] returns and when it falls back *)

Section TransformClosed.
Import Js AdapterObs DataAdapter SpaceService.
Implicit Types (v x root : Value) (l : list Value).
Local Open Scope list_scope.

(** An entry without any of the fields read comes out as the space of
    defaults, whatever the comparisons on strings and arrays come to. *)
Lemma transformSpace_hasNoField coerce x :
  hasNoField x → transformSpace coerce x = Ok unknownSpace.
Proof.
  unfold hasNoField, spaceFields. intros H.
  apply Forall_cons in H as [Ht H]. apply Forall_cons in H as [Hn H].
  apply Forall_cons in H as [Hd H]. apply Forall_cons in H as [Ho H].
  apply Forall_cons in H as [He H]. apply Forall_cons in H as [Hdn _].
  unfold transformSpace. rewrite Ht, Hn. cbn [mbind Exc_bind].
  rewrite Hd. cbn [mbind Exc_bind]. rewrite Ho. cbn [mbind Exc_bind].
  rewrite He. rewrite Hdn. reflexivity.
Qed.

Lemma transformSpace_unnamed coerce x y :
  unnamed x → transformSpace coerce x = Ok y → field "id" y = VStr "unknown-space".
Proof.
  intros (title & name & Ht & Hn & Htf & Hnf) Hy.
  apply transformSpace_Ok in Hy as (_ & _ & title' & name' & Ht' & Hn' & Hid & _).
  rewrite Ht in Ht'. injection Ht' as <-. rewrite Hn in Hn'. injection Hn' as <-.
  unfold or in Hid. rewrite Htf in Hid. unfold generateId in Hid. rewrite Hnf in Hid.
  simpl in Hid. by injection Hid as <-.
Qed.

Lemma mapM_hasNoField coerce l :
  Forall hasNoField l →
  mapM (transformSpace coerce) l = Ok (replicate (length l) unknownSpace).
Proof.
  induction 1 as [|x l Hx _ IH]; [done|].
  cbn [mapM length replicate]. rewrite (transformSpace_hasNoField coerce x Hx).
  cbn [mbind Exc_bind]. by rewrite IH.
Qed.

(** The output when neither the page metadata nor an entry throws. *)
Lemma transform_entries coerce props root rest l pm sps :
  own props "value" = Some (VArr (root :: rest)) →
  transformPageMetadata coerce root = Ok pm →
  get root "Spaces" = Ok (VArr l) →
  mapM (transformSpace coerce) l = Ok sps →
  transform coerce (VObj props) = VObj [("pageMetadata", pm); ("spaces", VArr sps)].
Proof.
  intros Hv Hpm Hsp Hm. unfold transform, transform_try. simpl. rewrite Hv. simpl.
  rewrite Hpm. simpl. rewrite Hsp. simpl. by rewrite Hm.
Qed.

(** C8, as amended: [transform] is total, it cannot throw to its caller; it
    returns the empty structure exactly when its [try] block throws, which
    it does for [null], for [undefined], for an object whose [value] is
    missing, [null] or an empty array, and for a space list holding [null],
    [undefined] or an entry whose title is truthy and not a string.
    [fetchData] issues exactly one request, returns the empty structure when
    the request fails, the response is not ok or its body is not JSON, and
    the transformed body otherwise.  A malformed entry on which nothing
    throws is kept: when the page metadata is built and no entry of the
    space list throws, the output holds that page metadata and one space
    for each entry, in the order of the list, and is not the empty
    structure; in it an entry whose Title and Name are both falsy has the
    id [unknown-space], and an entry with none of the fields read (a
    number, a boolean, a string, an empty object) is the space of defaults.
    Such entries never throw: a space list made of them alone gives as many
    spaces of defaults. *)
Theorem transform_fails_closed :
  (∀ coerce v,
     transform coerce v = emptyStructure ↔ ∃ e, transform_try coerce v = Throw e)
  ∧ (∀ coerce,
       transform coerce VNull = emptyStructure
       ∧ transform coerce VUndefined = emptyStructure)
  ∧ (∀ coerce props,
       own props "value" = None ∨ own props "value" = Some (VArr []) ∨
       own props "value" = Some VNull →
       transform coerce (VObj props) = emptyStructure)
  ∧ (∀ coerce props root rest l x,
       own props "value" = Some (VArr (root :: rest)) →
       get root "Spaces" = Ok (VArr l) →
       x ∈ l →
       x = VNull ∨ x = VUndefined ∨
       (∃ t, get x "Title" = Ok t ∧ truthy t = true ∧ ∀ s, t ≠ VStr s) →
       transform coerce (VObj props) = emptyStructure)
  ∧ (∀ adapter network k, snd (fetchData adapter network k) = S k)
  ∧ (∀ adapter network k,
       network k = NetworkError ∨ (∃ json, network k = Response false json) ∨
       network k = Response true None →
       fst (fetchData adapter network k) = emptyStructure)
  ∧ (∀ coerce network k rawData,
       network k = Response true (Some rawData) →
       fst (fetchData (Some (transform coerce)) network k) = transform coerce rawData)
  ∧ (∀ coerce props root rest l pm sps,
       own props "value" = Some (VArr (root :: rest)) →
       transformPageMetadata coerce root = Ok pm →
       get root "Spaces" = Ok (VArr l) →
       mapM (transformSpace coerce) l = Ok sps →
       transform coerce (VObj props) = VObj [("pageMetadata", pm); ("spaces", VArr sps)]
       ∧ transform coerce (VObj props) ≠ emptyStructure
       ∧ length sps = length l
       ∧ (∀ i x, l !! i = Some x → ∃ y, sps !! i = Some y ∧ transformSpace coerce x = Ok y)
       ∧ (∀ i x y, l !! i = Some x → sps !! i = Some y → unnamed x →
                   field "id" y = VStr "unknown-space")
       ∧ (∀ i x, l !! i = Some x → hasNoField x → sps !! i = Some unknownSpace))
  ∧ (∀ coerce x, hasNoField x → transformSpace coerce x = Ok unknownSpace)
  ∧ (∀ coerce props root rest l pm,
       own props "value" = Some (VArr (root :: rest)) →
       transformPageMetadata coerce root = Ok pm →
       get root "Spaces" = Ok (VArr l) →
       Forall hasNoField l →
       transform coerce (VObj props)
       = VObj [("pageMetadata", pm);
               ("spaces", VArr (replicate (length l) unknownSpace))]).
Proof.
  split_and!.
  - apply transform_empty_iff.
  - done.
  - apply transform_no_value.
  - apply transform_throwing_entry.
  - intros adapter network k. unfold fetchData. by repeat case_match.
  - intros adapter network k. unfold fetchData.
    by intros [-> | [[json ->] | ->]].
  - intros coerce network k rawData. unfold fetchData. by intros ->.
  - intros coerce props root rest l pm sps Hv Hpm Hsp Hm.
    pose proof (transform_entries coerce props root rest l pm sps Hv Hpm Hsp Hm) as E.
    pose proof (mapM_Ok_Forall2 _ _ _ Hm) as Hall.
    assert (Hkept : ∀ i x, l !! i = Some x →
                           ∃ y, sps !! i = Some y ∧ transformSpace coerce x = Ok y).
    { intros i x Hx. destruct (Forall2_lookup_l _ _ _ _ _ Hall Hx) as (y & Hy & Hxy).
      eauto. }
    split_and!.
    + exact E.
    + rewrite E. apply transformPageMetadata_Ok in Hpm. unfold emptyStructure.
      congruence.
    + symmetry. by eapply Forall2_length.
    + exact Hkept.
    + intros i x y Hx Hy Hun. destruct (Hkept i x Hx) as (y' & Hy' & Hxy).
      rewrite Hy in Hy'. injection Hy' as <-.
      by apply (transformSpace_unnamed coerce x y).
    + intros i x Hx Hnf. destruct (Hkept i x Hx) as (y & Hy & Hxy).
      rewrite (transformSpace_hasNoField coerce x Hnf) in Hxy. by injection Hxy as <-.
  - apply transformSpace_hasNoField.
  - intros coerce props root rest l pm Hv Hpm Hsp Hall.
    apply (transform_entries coerce props root rest l pm _ Hv Hpm Hsp).
    by apply mapM_hasNoField.
Qed.

Lemma transform_fails_closed_witness :
  transform (λ _, Ok false)
    (VObj [("value",
            VArr [VObj [("Spaces", VArr [VObj [("Title", VStr "Gym")]; VNull])]])])
  = emptyStructure
  ∧ fetchData (Some (transform (λ _, Ok false))) Example.flakyNetwork 0
    = (emptyStructure, 1)
  ∧ transform (λ _, Throw TypeError) Sample.malformedSpaces
    = VObj [("pageMetadata", Sample.defaultMetadata);
            ("spaces", VArr [unknownSpace; unknownSpace; unknownSpace])].
Proof.
  split_and!.
  - refine (proj1 (proj2 (proj2 (proj2 transform_fails_closed)))
              (λ _, Ok false)
              [("value",
                VArr [VObj [("Spaces", VArr [VObj [("Title", VStr "Gym")]; VNull])]])]
              (VObj [("Spaces", VArr [VObj [("Title", VStr "Gym")]; VNull])])
              [] [VObj [("Title", VStr "Gym")]; VNull] VNull eq_refl eq_refl _ _).
    + apply list_elem_of_In. simpl. auto.
    + by left.
  - apply injective_projections.
    + refine (proj1 (proj2 (proj2 (proj2 (proj2 (proj2 transform_fails_closed)))))
                _ Example.flakyNetwork 0 _).
      by left.
    + exact (proj1 (proj2 (proj2 (proj2 (proj2 transform_fails_closed))))
               _ Example.flakyNetwork 0).
  - refine (proj2 (proj2 (proj2 (proj2 (proj2 (proj2 (proj2 (proj2
              (proj2 transform_fails_closed))))))))
              (λ _, Throw TypeError)
              [("value", VArr [VObj [("Spaces", VArr [VNum 5; VObj []; VStr "gym"])]])]
              (VObj [("Spaces", VArr [VNum 5; VObj []; VStr "gym"])])
              [] [VNum 5; VObj []; VStr "gym"] Sample.defaultMetadata
              eq_refl eq_refl eq_refl _).
    repeat constructor.
Defined.

(** C8 as stated fails for a malformed space entry on which nothing throws:
    a number in the space list comes out as a space of id [unknown-space],
    with the page metadata, not as the empty structure. *)
Lemma transform_keeps_malformed_entry :
  (∀ coerce, transform coerce Example.malformedResponse = Example.malformedOutput)
  ∧ Example.malformedOutput ≠ emptyStructure.
Proof. split; [by intros coerce; vm_compute|discriminate]. Qed.

End TransformClosed.

(** ** The carousel as shown *)

Section CarouselShown.
Import Model Controller CarouselView.
Implicit Types (a : App) (space : Space) (c : Carousel).

Lemma is_index_decide idx i : is_index idx i = bool_decide (Z.of_nat i = idx).
Proof. unfold is_index. destruct (Z.eqb_spec (Z.of_nat i) idx); by simplify_option_eq. Qed.

Lemma updateProductVisibility_shows idx source c :
  showsIndex (updateProductVisibility idx source c) idx
  ∧ length (slides (updateProductVisibility idx source c)) = length (slides c)
  ∧ Forall2 (λ s s', slide_title s' = slide_title s
                     ∧ length (dots_active s') = length (dots_active s))
            (slides c) (slides (updateProductVisibility idx source c)).
Proof.
  split_and!.
  - intros i s. simpl. rewrite list_lookup_imap.
    destruct (slides c !! i) as [s0|]; [|done]. intros [= <-]. simpl.
    split; [apply is_index_decide|].
    intros j d. rewrite list_lookup_imap.
    destruct (dots_active s0 !! j); [|done]. intros [= <-]. apply is_index_decide.
  - simpl. by rewrite length_imap.
  - simpl. apply Forall2_same_length_lookup. split; [by rewrite length_imap|].
    intros i s s' Hs. rewrite list_lookup_imap, Hs. intros [= <-]. simpl.
    by rewrite length_imap.
Qed.

Lemma nextProduct_carousel a space :
  getCurrentSpace (model a) = Some space →
  systemEquipment space ≠ [] →
  carousel (nextProduct a) =
  updateProductVisibility (currentProductIndex (model (nextProduct a))) (Some src_next)
    (carousel a).
Proof.
  intros Hs Hne. unfold nextProduct. rewrite Hs.
  destruct (systemEquipment space); [done|]. done.
Qed.

Lemma prevProduct_carousel a space :
  getCurrentSpace (model a) = Some space →
  systemEquipment space ≠ [] →
  carousel (prevProduct a) =
  updateProductVisibility (currentProductIndex (model (prevProduct a))) (Some src_prev)
    (carousel a).
Proof.
  intros Hs Hne. unfold prevProduct. rewrite Hs.
  destruct (systemEquipment space); [done|]. done.
Qed.

Lemma updateProductVisibility_renderedFor idx source c products :
  renderedFor c products → renderedFor (updateProductVisibility idx source c) products.
Proof.
  intros [Hlen Hdots].
  destruct (updateProductVisibility_shows idx source c) as (_ & Hl & Hall).
  split; [by rewrite Hl|].
  apply Forall_forall. intros s' [i Hi]%list_elem_of_lookup.
  destruct (Forall2_lookup_r _ _ _ _ _ Hall Hi) as (s0 & Hs0 & _ & Hd).
  rewrite Hd. by apply (Forall_lookup_1 _ _ _ _ Hdots Hs0).
Qed.

Lemma updateProductVisibility_showsSlide idx source c products :
  renderedFor c products →
  (0 ≤ idx < Z.of_nat (length products))%Z →
  showsSlide (updateProductVisibility idx source c) idx.
Proof.
  intros Hr Hidx.
  pose proof (updateProductVisibility_renderedFor idx source c products Hr) as [Hlen Hdots].
  destruct (updateProductVisibility_shows idx source c) as (Hshow & _ & _).
  split_and!; [lia| | |done].
  - destruct (lookup_lt_is_Some_2 (slides (updateProductVisibility idx source c))
                (Z.to_nat idx)) as [s Hs]; [lia|].
    exists s. split; [done|]. destruct (Hshow _ _ Hs) as [-> _].
    apply bool_decide_eq_true. lia.
  - apply Forall_forall. intros s [i Hi]%list_elem_of_lookup.
    pose proof (Forall_lookup_1 _ _ _ _ Hdots Hi) as Hd. cbn beta in Hd.
    destruct (lookup_lt_is_Some_2 (dots_active s) (Z.to_nat idx)) as [d Hdot]; [lia|].
    rewrite Hdot. f_equal. destruct (Hshow _ _ Hi) as [_ Hj].
    rewrite (Hj _ _ Hdot). apply bool_decide_eq_true. lia.
Qed.

Lemma updateProductVisibility_showsNothing idx source c products :
  renderedFor c products →
  (Z.of_nat (length products) ≤ idx)%Z →
  showsNothing (updateProductVisibility idx source c).
Proof.
  intros Hr Hidx.
  pose proof (updateProductVisibility_renderedFor idx source c products Hr) as [Hlen Hdots].
  destruct (updateProductVisibility_shows idx source c) as (Hshow & _ & _).
  apply Forall_forall. intros s [i Hi]%list_elem_of_lookup.
  pose proof (lookup_lt_Some _ _ _ Hi) as Hlt.
  pose proof (Forall_lookup_1 _ _ _ _ Hdots Hi) as Hd. cbn beta in Hd.
  destruct (Hshow _ _ Hi) as [-> Hj]. split.
  - apply bool_decide_eq_false. lia.
  - apply Forall_forall. intros d [j Hdot]%list_elem_of_lookup.
    pose proof (lookup_lt_Some _ _ _ Hdot) as Hlt'.
    rewrite (Hj _ _ Hdot). apply bool_decide_eq_false. lia.
Qed.

(** What [renderProductCarousel] builds is rendered for its products. *)
Lemma renderProductCarousel_renderedFor textContent products :
  renderedFor (renderProductCarousel textContent products) products.
Proof.
  unfold renderProductCarousel, renderedFor.
  destruct (Nat.eqb_spec (length products) 0) as [E|E]; cbn [slides].
  - split; [by rewrite E|constructor].
  - split; [by rewrite length_imap|].
    apply Forall_forall. intros s [i Hi]%list_elem_of_lookup.
    rewrite list_lookup_imap in Hi.
    destruct (products !! i); [|done]. injection Hi as <-.
    cbn [dots_active]. by rewrite length_imap.
Qed.

(** X8.  What the user sees follows the model's index.  For a selected
    space with equipment whose carousel is rendered (one slide for each
    item, each with one dot for each item) and an index that is not
    negative: after next() the index is in range and the carousel shows
    exactly the slide of that index: that slide is there and is active, no
    other is, and the dots of every slide agree.  After prev() the same
    holds for the new index when the index was at most the number of items;
    when it was larger, which happens once a space with fewer items has been
    selected, nothing of the carousel is active.  Both leave the carousel
    rendered for the space, which is how [renderProductCarousel] builds
    it. *)
Theorem carousel_shows_index a space :
  getCurrentSpace (model a) = Some space →
  systemEquipment space ≠ [] →
  (0 ≤ currentProductIndex (model a))%Z →
  renderedFor (carousel a) (systemEquipment space) →
  (0 ≤ currentProductIndex (model (nextProduct a))
     < Z.of_nat (length (systemEquipment space)))%Z
  ∧ showsSlide (carousel (nextProduct a)) (currentProductIndex (model (nextProduct a)))
  ∧ renderedFor (carousel (nextProduct a)) (systemEquipment space)
  ∧ renderedFor (carousel (prevProduct a)) (systemEquipment space)
  ∧ ((currentProductIndex (model a) ≤ Z.of_nat (length (systemEquipment space)))%Z →
     (0 ≤ currentProductIndex (model (prevProduct a))
        < Z.of_nat (length (systemEquipment space)))%Z
     ∧ showsSlide (carousel (prevProduct a))
                  (currentProductIndex (model (prevProduct a))))
  ∧ ((Z.of_nat (length (systemEquipment space)) < currentProductIndex (model a))%Z →
     showsNothing (carousel (prevProduct a)))
  ∧ (∀ textContent,
       renderedFor (renderProductCarousel textContent (systemEquipment space))
                   (systemEquipment space)).
Proof.
  intros Hs Hne Hidx Hr.
  assert (0 < length (systemEquipment space)) as Hn
    by (destruct (systemEquipment space); [done|simpl; lia]).
  pose proof (nextProduct_index a space Hs Hne) as Hnext.
  pose proof (prevProduct_index a space Hs Hne) as Hprev.
  rewrite (nextProduct_carousel a space Hs Hne), (prevProduct_carousel a space Hs Hne).
  assert (0 ≤ currentProductIndex (model (nextProduct a))
            < Z.of_nat (length (systemEquipment space)))%Z as Hin.
  { rewrite Hnext. destruct (Z.geb_spec (currentProductIndex (model a) + 1)
                               (Z.of_nat (length (systemEquipment space)))); lia. }
  split; [|split; [|split; [|split; [|split; [|split]]]]].
  - exact Hin.
  - by apply (updateProductVisibility_showsSlide _ _ _ (systemEquipment space)).
  - by apply updateProductVisibility_renderedFor.
  - by apply updateProductVisibility_renderedFor.
  - intros Hle.
    assert (0 ≤ currentProductIndex (model (prevProduct a))
              < Z.of_nat (length (systemEquipment space)))%Z as Hip.
    { rewrite Hprev. destruct (Z.ltb_spec (currentProductIndex (model a) - 1) 0); lia. }
    split; [exact Hip|].
    by apply (updateProductVisibility_showsSlide _ _ _ (systemEquipment space)).
  - intros Hgt.
    apply (updateProductVisibility_showsNothing _ _ _ (systemEquipment space)); [done|].
    rewrite Hprev. destruct (Z.ltb_spec (currentProductIndex (model a) - 1) 0); lia.
  - intros textContent. apply renderProductCarousel_renderedFor.
Qed.

Lemma nextProduct_iter_selection k a :
  getCurrentSpace (model (Nat.iter k nextProduct a)) = getCurrentSpace (model a).
Proof. induction k as [|k IH]; [done|]. simpl. by rewrite nextProduct_selection. Qed.

Lemma nextProduct_iter_index k a space :
  getCurrentSpace (model a) = Some space →
  systemEquipment space ≠ [] →
  (0 ≤ currentProductIndex (model a) < Z.of_nat (length (systemEquipment space)))%Z →
  currentProductIndex (model (Nat.iter k nextProduct a))
  = ((currentProductIndex (model a) + Z.of_nat k)
       `mod` Z.of_nat (length (systemEquipment space)))%Z.
Proof.
  intros Hs Hne Hidx. induction k as [|k IH].
  - simpl. rewrite Z.add_0_r. by rewrite Z.mod_small.
  - change (Nat.iter (S k) nextProduct a) with (nextProduct (Nat.iter k nextProduct a)).
    rewrite (nextProduct_index _ space) by (by rewrite ?nextProduct_iter_selection).
    rewrite IH.
    set (n := Z.of_nat (length (systemEquipment space))) in *.
    set (i := currentProductIndex (model a)) in *.
    assert (0 < n)%Z as Hn by lia.
    replace (i + Z.of_nat (S k))%Z with ((i + Z.of_nat k) + 1)%Z by lia.
    rewrite <- (Zplus_mod_idemp_l (i + Z.of_nat k)).
    pose proof (Z.mod_pos_bound (i + Z.of_nat k) n Hn) as Hb.
    destruct (Z.geb_spec ((i + Z.of_nat k) `mod` n + 1) n) as [Hge|Hlt].
    + replace ((i + Z.of_nat k) `mod` n + 1)%Z with n by lia.
      by rewrite Z_mod_same_full.
    + symmetry. apply Z.mod_small. lia.
Qed.

(** X9.  Next and previous are inverse to each other on an index in range,
    and as many next() as the space has items come back to the same index,
    passing through every item. *)
Theorem carousel_round_trip a space :
  getCurrentSpace (model a) = Some space →
  systemEquipment space ≠ [] →
  (0 ≤ currentProductIndex (model a) < Z.of_nat (length (systemEquipment space)))%Z →
  currentProductIndex (model (prevProduct (nextProduct a))) = currentProductIndex (model a)
  ∧ currentProductIndex (model (nextProduct (prevProduct a)))
    = currentProductIndex (model a)
  ∧ currentProductIndex
      (model (Nat.iter (length (systemEquipment space)) nextProduct a))
    = currentProductIndex (model a)
  ∧ (∀ k, currentProductIndex (model (Nat.iter k nextProduct a))
          = ((currentProductIndex (model a) + Z.of_nat k)
               `mod` Z.of_nat (length (systemEquipment space)))%Z).
Proof.
  intros Hs Hne Hidx. split_and!.
  - rewrite (prevProduct_index _ space), (nextProduct_index a space)
      by (by rewrite ?nextProduct_selection).
    destruct (Z.geb_spec (currentProductIndex (model a) + 1)
                (Z.of_nat (length (systemEquipment space))));
      [destruct (Z.ltb_spec (0 - 1) 0)
      |destruct (Z.ltb_spec (currentProductIndex (model a) + 1 - 1) 0)]; lia.
  - rewrite (nextProduct_index _ space), (prevProduct_index a space)
      by (by rewrite ?prevProduct_selection).
    destruct (Z.ltb_spec (currentProductIndex (model a) - 1) 0);
      [destruct (Z.geb_spec (Z.of_nat (length (systemEquipment space)) - 1 + 1)
                            (Z.of_nat (length (systemEquipment space))))
      |destruct (Z.geb_spec (currentProductIndex (model a) - 1 + 1)
                            (Z.of_nat (length (systemEquipment space))))]; lia.
  - rewrite (nextProduct_iter_index _ a space Hs Hne Hidx).
    rewrite <- (Z.mul_1_l (Z.of_nat (length (systemEquipment space)))) at 1.
    rewrite Z_mod_plus_full. by apply Z.mod_small.
  - intros k. by apply nextProduct_iter_index.
Qed.

End CarouselShown.

(** ** Leaving a selection ([restoreLandingSvg]) *)

Section OverlayFacts.
Import Obs Model SpaceView Controller Overlay.
Implicit Types (a : App) (page : Page) (spaceId : string) (t : Timer).

Lemma remove_add c cl : contains c cl = false → remove c (add c cl) = cl.
Proof.
  intros Hc. unfold add. rewrite Hc. unfold remove.
  rewrite List.filter_app. simpl. rewrite String.eqb_refl. simpl.
  rewrite app_nil_r. by apply remove_absent.
Qed.

Lemma restoreLandingSvg_timers page :
  snd (restoreLandingSvg page) =
  match page !! APP_CONFIG.overlaySvg with
  | Some _ => [RemoveData APP_CONFIG.overlaySvg]
  | None => []
  end.
Proof. unfold restoreLandingSvg. by destruct (page !! APP_CONFIG.overlaySvg). Qed.

Lemma restoreLandingSvg_overlay page :
  fst (restoreLandingSvg page) !! APP_CONFIG.overlaySvg =
  (λ o, mkPageElement (remove "is-visible" (pe_classList o)) (pe_data o)
                      (contentDocument o))
    <$> page !! APP_CONFIG.overlaySvg.
Proof.
  unfold restoreLandingSvg.
  assert (Hne : APP_CONFIG.buildingMarkersSvg ≠ APP_CONFIG.overlaySvg) by done.
  destruct (page !! APP_CONFIG.overlaySvg) as [o|] eqn:Eo; simpl;
    rewrite updateMarkerVisibility_lookup_ne by done.
  - case_match; [rewrite lookup_insert_ne by done|]; by rewrite lookup_insert_eq.
  - case_match; [rewrite lookup_insert_ne by done|]; by rewrite Eo.
Qed.

Lemma restoreLandingSvg_markers page :
  fst (restoreLandingSvg page) !! APP_CONFIG.buildingMarkersSvg =
  (λ l, mkPageElement (remove "is-hidden" (pe_classList l)) (pe_data l)
                      (dimDocument None <$> contentDocument l))
    <$> page !! APP_CONFIG.buildingMarkersSvg.
Proof.
  unfold restoreLandingSvg.
  assert (Hne : APP_CONFIG.overlaySvg ≠ APP_CONFIG.buildingMarkersSvg) by done.
  destruct (page !! APP_CONFIG.overlaySvg) as [o|]; simpl;
    rewrite updateMarkerVisibility_lookup.
  - rewrite lookup_insert_ne by done.
    destruct (page !! APP_CONFIG.buildingMarkersSvg) as [l|] eqn:El; simpl.
    + by rewrite lookup_insert_eq.
    + by rewrite lookup_insert_ne, El.
  - destruct (page !! APP_CONFIG.buildingMarkersSvg) as [l|] eqn:El; simpl.
    + by rewrite lookup_insert_eq.
    + by rewrite El.
Qed.

Lemma restoreLandingSvg_other page k :
  k ≠ APP_CONFIG.overlaySvg → k ≠ APP_CONFIG.buildingMarkersSvg →
  fst (restoreLandingSvg page) !! k = page !! k.
Proof.
  intros Ho Hm. unfold restoreLandingSvg.
  destruct (page !! APP_CONFIG.overlaySvg) as [o|]; simpl;
    rewrite updateMarkerVisibility_lookup_ne by done.
  - case_match; rewrite ?lookup_insert_ne by done; done.
  - case_match; rewrite ?lookup_insert_ne by done; done.
Qed.

Lemma fire_lookup el page k :
  fire (RemoveData el) page !! k =
  if decide (k = el)
  then (λ e, mkPageElement (pe_classList e) None (contentDocument e)) <$> page !! el
  else page !! k.
Proof.
  unfold fire. destruct (page !! el) as [e|] eqn:E.
  - destruct (decide (k = el)) as [->|]; [by rewrite lookup_insert_eq|].
    by rewrite lookup_insert_ne.
  - by destruct (decide (k = el)) as [->|].
Qed.

Lemma markersDocument_restoreLandingSvg page :
  markersDocument (fst (restoreLandingSvg page)) = dimDocument None <$> markersDocument page.
Proof.
  unfold markersDocument. rewrite restoreLandingSvg_markers.
  by destruct (page !! APP_CONFIG.buildingMarkersSvg).
Qed.

Lemma dimNode_None_fix n :
  contains APP_CONFIG.markerDimmed (classList n) = false → dimNode None n = n.
Proof.
  intros Hc. unfold dimNode. destruct (String.eqb (el_id n) APP_CONFIG.buildingRoof); [done|].
  simpl. by apply with_classList_id, remove_absent.
Qed.

Lemma dimNode_None_undo act n :
  contains APP_CONFIG.markerDimmed (classList n) = false →
  dimNode None (dimNode act n) = n.
Proof.
  intros Hc. unfold dimNode. destruct n as [tg i cl at_ st p]. simpl in *.
  destruct (String.eqb i APP_CONFIG.buildingRoof) eqn:E; simpl; [by rewrite E|].
  destruct (truthy act && differs i act); simpl; rewrite E;
    unfold classList_remove, classList_add, with_classList; simpl; f_equal.
  - by apply remove_add.
  - rewrite remove_remove. by apply remove_absent.
Qed.

Lemma dimDocument_None_undo act d :
  (∀ h, h ∈ markerGroups d → isDimmed d h = false) →
  dimDocument None (dimDocument act d) = d.
Proof.
  intros Hd. apply list_eq. intros h.
  rewrite dimDocument_lookup, (markerGroups_skeleton _ _ (skeleton_dimDocument act d)).
  rewrite dimDocument_lookup. case_bool_decide as Hh; [|done].
  specialize (Hd h Hh). unfold isDimmed, hasClass in Hd.
  destruct (d !! h) as [n|]; [|done]. simpl. f_equal. by apply dimNode_None_undo.
Qed.

Lemma dimDocument_None_clear d h :
  h ∈ markerGroups d → isDimmed (dimDocument None d) h = false.
Proof. intros Hh. by rewrite isDimmed_dimDocument. Qed.

(** X10.  Whatever the page shows, after [restoreLandingSvg] the overlay
    is not visible, the markers layer is not hidden and no marker group is
    dimmed; the marker groups are the same, the other elements of the page
    are untouched, a second call changes nothing more, and one timer is
    started, which will remove the overlay's data source, when the page has
    an overlay, none otherwise. *)
Theorem restoreLandingSvg_clears page :
  (∀ o, fst (restoreLandingSvg page) !! APP_CONFIG.overlaySvg = Some o →
        contains "is-visible" (pe_classList o) = false)
  ∧ (∀ l, fst (restoreLandingSvg page) !! APP_CONFIG.buildingMarkersSvg = Some l →
          contains "is-hidden" (pe_classList l) = false)
  ∧ pageMarkerGroups (fst (restoreLandingSvg page)) = pageMarkerGroups page
  ∧ (∀ h, h ∈ pageMarkerGroups page →
          pageDimmed (fst (restoreLandingSvg page)) h = false)
  ∧ (∀ k, k ≠ APP_CONFIG.overlaySvg → k ≠ APP_CONFIG.buildingMarkersSvg →
          fst (restoreLandingSvg page) !! k = page !! k)
  ∧ fst (restoreLandingSvg (fst (restoreLandingSvg page))) = fst (restoreLandingSvg page)
  ∧ snd (restoreLandingSvg page) =
    match page !! APP_CONFIG.overlaySvg with
    | Some _ => [RemoveData APP_CONFIG.overlaySvg]
    | None => []
    end
  ∧ (∀ o, page !! APP_CONFIG.overlaySvg = Some o →
          pe_data <$> foldr fire (fst (restoreLandingSvg page))
                        (snd (restoreLandingSvg page)) !! APP_CONFIG.overlaySvg
          = Some None).
Proof.
  split_and!.
  - intros o. rewrite restoreLandingSvg_overlay.
    destruct (page !! APP_CONFIG.overlaySvg) as [o0|]; [|done]. intros [= <-]. simpl.
    by rewrite contains_remove, String.eqb_refl.
  - intros l. rewrite restoreLandingSvg_markers.
    destruct (page !! APP_CONFIG.buildingMarkersSvg) as [l0|]; [|done]. intros [= <-].
    simpl. by rewrite contains_remove, String.eqb_refl.
  - unfold pageMarkerGroups. rewrite markersDocument_restoreLandingSvg.
    destruct (markersDocument page) as [d|]; [|done]. simpl.
    apply markerGroups_skeleton, skeleton_dimDocument.
  - intros h. unfold pageMarkerGroups, pageDimmed.
    rewrite markersDocument_restoreLandingSvg.
    destruct (markersDocument page) as [d|]; [|done]. simpl.
    apply dimDocument_None_clear.
  - apply restoreLandingSvg_other.
  - apply map_eq. intros k.
    destruct (decide (k = APP_CONFIG.overlaySvg)) as [->|Ho].
    { rewrite !restoreLandingSvg_overlay.
      destruct (page !! APP_CONFIG.overlaySvg) as [o|]; [|done]. simpl.
      by rewrite remove_remove. }
    destruct (decide (k = APP_CONFIG.buildingMarkersSvg)) as [->|Hm].
    { rewrite !restoreLandingSvg_markers.
      destruct (page !! APP_CONFIG.buildingMarkersSvg) as [l|]; [|done]. simpl.
      rewrite remove_remove. destruct (contentDocument l) as [d|]; [|done]. simpl.
      by rewrite dimDocument_idemp. }
    by rewrite !restoreLandingSvg_other.
  - apply restoreLandingSvg_timers.
  - intros o Ho. rewrite restoreLandingSvg_timers, Ho. cbn [foldr].
    rewrite fire_lookup, decide_True by done.
    by rewrite restoreLandingSvg_overlay, Ho.
Qed.

Lemma restore_known a spaceId s :
  getSpace (model a) (Some spaceId) = Some s →
  page (foldr timeout (fst (restore (handleMarkerClick spaceId a)))
          (snd (restore (handleMarkerClick spaceId a))))
  = foldr fire
      (fst (restoreLandingSvg
              (updateMarkerVisibility (Some spaceId)
                 (replaceLandingSvg (markerImg s) (page a)))))
      (snd (restoreLandingSvg
              (updateMarkerVisibility (Some spaceId)
                 (replaceLandingSvg (markerImg s) (page a))))).
Proof.
  intros Hs. rewrite (handleMarkerClick_known a spaceId s Hs). unfold restore. simpl.
  generalize (snd (restoreLandingSvg
                     (updateMarkerVisibility (Some spaceId)
                        (replaceLandingSvg (markerImg s) (page a))))).
  intros ts. induction ts as [|t ts IH]; [done|]. simpl. by rewrite IH.
Qed.

Lemma foldr_timeout_frame ts a :
  foldr timeout a ts
  = mkApp (model a) (page (foldr timeout a ts)) (carousel a) (isPopoverVisible a)
          (view_model a) (boundElements a) (clickListeners a).
Proof.
  induction ts as [|t ts IH]; [by destruct a|].
  simpl. rewrite IH at 1. done.
Qed.

(** X11.  Selecting a space and then leaving the selection is a round
    trip for the page, once the timer has run: on a page that shows no
    selection, a click on the marker of a known space followed by
    [restoreLandingSvg] and the timer it starts gives back exactly the page
    as it was.  The model is not part of the round trip: the space stays
    the current space. *)
Theorem select_then_restore a spaceId :
  spaceId ∈ space_id <$> spaces (model a) →
  unselected (page a) →
  foldr timeout (fst (restore (handleMarkerClick spaceId a)))
        (snd (restore (handleMarkerClick spaceId a)))
  = with_model (setCurrentSpace spaceId) a.
Proof.
  intros Hid (Hov & Hml & Hdim).
  destruct (getSpace_known _ _ Hid) as [s Hs].
  rewrite foldr_timeout_frame, (restore_known a spaceId s Hs).
  unfold restore. rewrite (handleMarkerClick_known a spaceId s Hs). simpl.
  unfold with_model. f_equal.
  set (p1 := updateMarkerVisibility (Some spaceId)
               (replaceLandingSvg (markerImg s) (page a))).
  assert (Ho1 : p1 !! APP_CONFIG.overlaySvg =
                (λ o, mkPageElement (add "is-visible" (pe_classList o))
                                    (Some (markerImg s)) (contentDocument o))
                  <$> page a !! APP_CONFIG.overlaySvg).
  { unfold p1. rewrite updateMarkerVisibility_lookup_ne by done.
    apply replaceLandingSvg_overlay. }
  apply map_eq. intros k. rewrite restoreLandingSvg_timers, Ho1.
  destruct (decide (k = APP_CONFIG.overlaySvg)) as [->|Hko].
  - destruct (page a !! APP_CONFIG.overlaySvg) as [o|] eqn:Eo; cbn [foldr fmap option_fmap option_map].
    + rewrite fire_lookup, decide_True by done.
      rewrite restoreLandingSvg_overlay, Ho1. simpl.
      destruct (Hov o eq_refl) as [Hvis Hdata]. rewrite (remove_add _ _ Hvis).
      destruct o as [cl dt cd]. simpl in *. by subst.
    + by rewrite restoreLandingSvg_overlay, Ho1.
  - match goal with
    | |- foldr fire _ ?ts !! _ = _ =>
      assert (foldr fire (fst (restoreLandingSvg p1)) ts !! k
              = fst (restoreLandingSvg p1) !! k) as ->
    end.
    { destruct (page a !! APP_CONFIG.overlaySvg);
        cbn [foldr fmap option_fmap option_map]; [|done].
      by rewrite fire_lookup, decide_False. }
    destruct (decide (k = APP_CONFIG.buildingMarkersSvg)) as [->|Hkm].
    + rewrite restoreLandingSvg_markers. unfold p1.
      rewrite updateMarkerVisibility_lookup, replaceLandingSvg_markers.
      destruct (page a !! APP_CONFIG.buildingMarkersSvg) as [l|] eqn:El; [|done]. simpl.
      rewrite (remove_add _ _ (Hml l eq_refl)).
      destruct l as [cl dt cd]. simpl in *. do 2 f_equal.
      destruct cd as [d|]; [|done]. simpl. f_equal.
      apply dimDocument_None_undo. intros h Hh.
      assert (markersDocument (page a) = Some d) as Hmd
        by (unfold markersDocument; by rewrite El).
      specialize (Hdim h). unfold pageMarkerGroups, pageDimmed in Hdim.
      rewrite Hmd in Hdim. by apply Hdim.
    + rewrite restoreLandingSvg_other by done. unfold p1.
      rewrite updateMarkerVisibility_lookup_ne by done.
      unfold replaceLandingSvg.
      repeat case_match; rewrite ?lookup_insert_ne by done; done.
Qed.

(** X12.  The timer that [restoreLandingSvg] starts removes the overlay's
    data source whenever it runs: when a marker of a known space is clicked
    after [restoreLandingSvg] and before its timer has run, the timer then
    leaves the overlay visible, the space selected and the markers layer
    hidden, but the overlay without data source. *)
Theorem restore_timer_after_selection a spaceId overlay :
  spaceId ∈ space_id <$> spaces (model a) →
  page a !! APP_CONFIG.overlaySvg = Some overlay →
  ∃ overlay',
    page (foldr timeout (handleMarkerClick spaceId (fst (restore a))) (snd (restore a)))
      !! APP_CONFIG.overlaySvg = Some overlay'
    ∧ contains "is-visible" (pe_classList overlay') = true
    ∧ pe_data overlay' = None
    ∧ currentSpaceId
        (model (foldr timeout (handleMarkerClick spaceId (fst (restore a)))
                  (snd (restore a))))
      = Some spaceId
    ∧ snd (restore a) = [RemoveData APP_CONFIG.overlaySvg].
Proof.
  intros Hid Ho.
  assert (Hts : snd (restore a) = [RemoveData APP_CONFIG.overlaySvg]).
  { unfold restore. simpl. by rewrite restoreLandingSvg_timers, Ho. }
  rewrite Hts. cbn [foldr]. unfold timeout at 1 2. cbn [page model with_page].
  assert (Hid' : spaceId ∈ space_id <$> spaces (model (fst (restore a)))) by done.
  destruct (getSpace_known _ _ Hid') as [s Hs].
  rewrite (handleMarkerClick_known _ spaceId s Hs).
  cbn [page model currentSpaceId setCurrentSpace].
  rewrite fire_lookup, decide_True by done.
  rewrite updateMarkerVisibility_lookup_ne by done.
  rewrite replaceLandingSvg_overlay. unfold restore. cbn [fst page with_page].
  rewrite restoreLandingSvg_overlay, Ho. simpl.
  eexists. split_and!; [done| |done|done|done].
  simpl. by rewrite contains_add, String.eqb_refl.
Qed.

End OverlayFacts.

(** ** Switching from one space to another *)

Section Switching.
Import Obs Model SpaceView Controller Overlay.
Implicit Types (a : App) (page : Page) (n : Node) (d : Document).

Lemma dimNode_after act act' n :
  contains APP_CONFIG.markerDimmed (classList n) = false →
  dimNode act' (dimNode act n) = dimNode act' n.
Proof.
  intros Hc. unfold dimNode. destruct n as [tg i cl at_ st p]. simpl in *.
  destruct (String.eqb i APP_CONFIG.buildingRoof) eqn:E; simpl; [by rewrite E|].
  destruct (truthy act && differs i act); simpl; rewrite E;
    destruct (truthy act' && differs i act');
    unfold classList_remove, classList_add, with_classList; simpl; f_equal;
    rewrite ?add_add, ?(remove_add _ _ Hc), ?(remove_absent _ _ Hc); done.
Qed.

Lemma dimDocument_after act act' d :
  (∀ h, h ∈ markerGroups d → isDimmed d h = false) →
  dimDocument act' (dimDocument act d) = dimDocument act' d.
Proof.
  intros Hd. apply list_eq. intros h.
  rewrite dimDocument_lookup, (markerGroups_skeleton _ _ (skeleton_dimDocument act d)).
  rewrite !dimDocument_lookup. case_bool_decide as Hh; [|done].
  specialize (Hd h Hh). unfold isDimmed, hasClass in Hd.
  destruct (d !! h) as [n|]; [|done]. simpl. f_equal. by apply dimNode_after.
Qed.

(** X20.  Switching is seamless: on a page none of whose markers is
    dimmed, a click on the marker of a known space, coming after a click on
    any other marker, leaves the application exactly as that click alone
    would have left it; nothing of the first selection remains in the model
    or in the page.  In particular a second click on the same marker
    changes nothing. *)
Theorem switching_is_seamless a first second :
  second ∈ space_id <$> spaces (model a) →
  (∀ h, h ∈ pageMarkerGroups (page a) → pageDimmed (page a) h = false) →
  handleMarkerClick second (handleMarkerClick first a) = handleMarkerClick second a
  ∧ handleMarkerClick second (handleMarkerClick second a) = handleMarkerClick second a.
Proof.
  intros Hknown Hdim.
  assert (Hgen : ∀ x, handleMarkerClick second (handleMarkerClick x a)
                      = handleMarkerClick second a); [|by split].
  intros x. destruct (getSpace_known _ _ Hknown) as [s2 Hs2].
  destruct (getSpace (model a) (Some x)) as [s1|] eqn:Hs1;
    [|unfold handleMarkerClick at 2; by rewrite Hs1].
  rewrite (handleMarkerClick_known a x s1 Hs1).
  rewrite (handleMarkerClick_known _ second s2) by done.
  rewrite (handleMarkerClick_known a second s2 Hs2). simpl. f_equal.
  apply map_eq. intros k.
  destruct (decide (k = APP_CONFIG.overlaySvg)) as [->|Hko].
  { rewrite !updateMarkerVisibility_lookup_ne by done.
    rewrite !replaceLandingSvg_overlay.
    rewrite updateMarkerVisibility_lookup_ne by done.
    rewrite replaceLandingSvg_overlay.
    destruct (page a !! APP_CONFIG.overlaySvg) as [o|]; [|done]. simpl.
    by rewrite add_add. }
  destruct (decide (k = APP_CONFIG.buildingMarkersSvg)) as [->|Hkm].
  { rewrite !updateMarkerVisibility_lookup, !replaceLandingSvg_markers.
    rewrite updateMarkerVisibility_lookup, replaceLandingSvg_markers.
    destruct (page a !! APP_CONFIG.buildingMarkersSvg) as [l|] eqn:El; [|done]. simpl.
    rewrite add_add. do 2 f_equal.
    destruct (contentDocument l) as [d|] eqn:Ed; [|done]. simpl. f_equal.
    apply dimDocument_after. intros h Hh.
    assert (markersDocument (page a) = Some d) as Hmd
      by (unfold markersDocument; rewrite El; done).
    specialize (Hdim h). unfold pageMarkerGroups, pageDimmed in Hdim.
    rewrite Hmd in Hdim. by apply Hdim. }
  rewrite !updateMarkerVisibility_lookup_ne by done.
  unfold replaceLandingSvg.
  repeat case_match; rewrite ?lookup_insert_ne by done;
    rewrite ?updateMarkerVisibility_lookup_ne by done;
    rewrite ?lookup_insert_ne by done; try done.
Qed.

End Switching.

(** ** Running [attachSvgHandlers] again *)

Section BindingAgain.
Import Obs Model SpaceView Binding BindingObs.
Implicit Types (d : Document) (h el : Handle) (n : Node) (w : Wiring)
  (P : list Handle) (sid : string) (a : App).
Local Open Scope list_scope.

Lemma attachInteraction_marked el sid w :
  ghBound (w_doc w) el → attachInteraction el sid w = w.
Proof.
  intros (n & Hn & Hg). unfold attachInteraction. rewrite Hn.
  by rewrite bool_decide_eq_true_2.
Qed.

Lemma ghBound_attach el h d :
  ghBound d h →
  ghBound (alter (λ n, setAttribute "data-gh-bound" "true" (setStyle "cursor" "pointer" n))
                 el d) h.
Proof.
  intros (n & Hn & Hg). unfold ghBound. rewrite list_lookup_alter.
  destruct (decide (el = h)) as [->|].
  - rewrite Hn. simpl. eexists. split; [done|]. by rewrite getAttribute_setAttribute.
  - eauto.
Qed.

Lemma skeleton_attach n :
  skeleton (setAttribute "data-gh-bound" "true" (setStyle "cursor" "pointer" n))
  = skeleton n.
Proof. done. Qed.

(** One call of [attachInteraction] on an element of the document. *)
Lemma attachInteraction_boundInv d w P el sid :
  boundInv d w P → is_Some (d !! el) →
  boundInv d (attachInteraction el sid w) (el :: P).
Proof.
  intros (Hsk & Hdyn & HP & Hb) [n0 Hn0].
  assert (∃ n, w_doc w !! el = Some n) as [n Hn].
  { pose proof (skeleton_lookup _ _ el Hsk) as Hl. rewrite Hn0 in Hl.
    destruct (w_doc w !! el); [eauto|done]. }
  unfold attachInteraction. rewrite Hn.
  case_bool_decide as Hg.
  { split_and!; [done|done| |done].
    intros h [->|?]%elem_of_cons; [by exists n|by apply HP]. }
  case_bool_decide as Hin.
  { split_and!; [done|done| |done].
    intros h [->|?]%elem_of_cons; [by apply Hb|by apply HP]. }
  assert (Hel : ghBound
            (alter (λ n, setAttribute "data-gh-bound" "true"
                           (setStyle "cursor" "pointer" n)) el (w_doc w)) el).
  { unfold ghBound. rewrite list_lookup_alter, decide_True, Hn by done. simpl.
    eexists. split; [done|]. by rewrite getAttribute_setAttribute. }
  split_and!; simpl.
  - rewrite <- Hsk. by apply skeleton_alter.
  - intros h. rewrite <- Hdyn. unfold dynamicId. rewrite list_lookup_alter.
    case_decide; [subst|done]. rewrite Hn. simpl.
    by rewrite getAttribute_setAttribute.
  - intros h [->|Hh]%elem_of_cons; [done|]. by apply ghBound_attach, HP.
  - intros h [->|Hh]%elem_of_cons; [done|]. by apply ghBound_attach, Hb.
Qed.

Lemma boundInv_weaken d w P el :
  boundInv d w P → el ∈ P → boundInv d w (el :: P).
Proof.
  intros (Hsk & Hdyn & HP & Hb) Hel. split_and!; [done|done| |done].
  intros h [->|?]%elem_of_cons; by apply HP.
Qed.

(** Step 1 leaves every tagged element of the list processed. *)
Lemma foldl_bindDynamic_boundInv d hs : ∀ w P,
  boundInv d w P →
  ∃ w' P',
    foldl bindDynamic (w, P) hs = (w', P')
    ∧ boundInv d w' P'
    ∧ (∀ h, h ∈ P → h ∈ P')
    ∧ (∀ h, h ∈ hs → is_Some (dynamicId d h) → h ∈ P').
Proof.
  induction hs as [|el hs IH]; intros w P Hinv.
  - exists w, P. split_and!; [done..|]. by intros h ?%elem_of_nil.
  - change (foldl bindDynamic (w, P) (el :: hs))
      with (foldl bindDynamic (bindDynamic (w, P) el) hs).
    assert (Hstep : ∃ w1 P1,
      bindDynamic (w, P) el = (w1, P1) ∧ boundInv d w1 P1
      ∧ (∀ h, h ∈ P → h ∈ P1) ∧ (is_Some (dynamicId d el) → el ∈ P1)).
    { pose proof Hinv as (_ & Hdyn & _).
      specialize (Hdyn el). unfold bindDynamic. unfold dynamicId in Hdyn at 1.
      destruct (w_doc w !! el) as [n|] eqn:En.
      - destruct (getAttribute "data-space-id" n) as [v|] eqn:Ev.
        + destruct (String.eqb v "") eqn:Eempty.
          * exists w, P. split_and!; [done..|]. rewrite <- Hdyn. by intros [? ?].
          * eexists _, _. split_and!; [done| | |].
            -- apply attachInteraction_boundInv; [done|].
               apply (dynamicId_Some_valid d el v). by rewrite <- Hdyn.
            -- intros h ?. by right.
            -- intros _. by left.
        + exists w, P. split_and!; [done..|]. rewrite <- Hdyn. by intros [? ?].
      - exists w, P. split_and!; [done..|]. rewrite <- Hdyn. by intros [? ?]. }
    destruct Hstep as (w1 & P1 & -> & Hinv1 & Hsub1 & Hel1).
    destruct (IH w1 P1 Hinv1) as (w' & P' & -> & Hinv' & Hsub' & Hall').
    exists w', P'. split_and!; [done|done|by auto|].
    intros h [->|Hh]%elem_of_cons Hs; [by auto|by apply Hall'].
Qed.

(** Step 2 leaves the element of every space of the list processed. *)
Lemma foldl_bindSpace_boundInv d ss : ∀ w P,
  boundInv d w P →
  ∃ w' P',
    foldl bindSpace (w, P) ss = (w', P')
    ∧ boundInv d w' P'
    ∧ (∀ h, h ∈ P → h ∈ P')
    ∧ (∀ s el, s ∈ ss → resolveMarker d (space_id s) = Some el → el ∈ P').
Proof.
  induction ss as [|s ss IH]; intros w P Hinv.
  - exists w, P. split_and!; [done..|]. by intros s el ?%elem_of_nil.
  - change (foldl bindSpace (w, P) (s :: ss))
      with (foldl bindSpace (bindSpace (w, P) s) ss).
    pose proof Hinv as (Hsk & _).
    unfold bindSpace at 2. rewrite (resolveMarker_skeleton _ _ (space_id s) Hsk).
    destruct (resolveMarker d (space_id s)) as [el|] eqn:Er.
    + case_bool_decide as Hin.
      * destruct (IH w P Hinv) as (w' & P' & -> & Hinv' & Hsub & Hall).
        exists w', P'. split_and!; [done..|].
        intros s' el' [->|Hs']%elem_of_cons Hr; [|by eapply Hall].
        rewrite Er in Hr. injection Hr as <-. by apply Hsub.
      * destruct (IH _ _ (attachInteraction_boundInv d w P el (space_id s) Hinv
                            (resolveMarker_valid d (space_id s) el Er)))
          as (w' & P' & -> & Hinv' & Hsub & Hall).
        exists w', P'. split_and!; [done|done| |].
        -- intros h Hh. apply Hsub. by right.
        -- intros s' el' [->|Hs']%elem_of_cons Hr; [|by eapply Hall].
           rewrite Er in Hr. injection Hr as <-. apply Hsub. by left.
    + destruct (IH w P Hinv) as (w' & P' & -> & Hinv' & Hsub & Hall).
      exists w', P'. split_and!; [done..|].
      intros s' el' [->|Hs']%elem_of_cons Hr; [congruence|by eapply Hall].
Qed.

(** The loops change nothing when every element they reach is marked. *)
Lemma foldl_bindDynamic_marked w hs : ∀ P,
  (∀ h v, dynamicId (w_doc w) h = Some v → ghBound (w_doc w) h) →
  fst (foldl bindDynamic (w, P) hs) = w.
Proof.
  intros P Hm. revert P. induction hs as [|el hs IH]; intros P; [done|].
  change (foldl bindDynamic (w, P) (el :: hs))
    with (foldl bindDynamic (bindDynamic (w, P) el) hs).
  unfold bindDynamic at 2. specialize (Hm el). unfold dynamicId in Hm.
  destruct (w_doc w !! el) as [n|] eqn:En; [|apply IH].
  destruct (getAttribute "data-space-id" n) as [v|]; [|apply IH].
  destruct (String.eqb v ""); [apply IH|].
  rewrite attachInteraction_marked by eauto. apply IH.
Qed.

Lemma foldl_bindSpace_marked w ss : ∀ P,
  (∀ s el, s ∈ ss → resolveMarker (w_doc w) (space_id s) = Some el →
           ghBound (w_doc w) el) →
  fst (foldl bindSpace (w, P) ss) = w.
Proof.
  intros P Hm. revert P. induction ss as [|s ss IH]; intros P; [done|].
  change (foldl bindSpace (w, P) (s :: ss))
    with (foldl bindSpace (bindSpace (w, P) s) ss).
  assert (IH' : ∀ P, fst (foldl bindSpace (w, P) ss) = w).
  { intros P'. apply IH. intros s' el' Hs'. apply Hm. by right. }
  unfold bindSpace at 2.
  destruct (resolveMarker (w_doc w) (space_id s)) as [el|] eqn:Er; [|apply IH'].
  case_bool_decide; [apply IH'|].
  rewrite attachInteraction_marked; [apply IH'|]. eapply Hm; [by left|done].
Qed.

(** [attachSvgHandlers], with its loops named. *)
Lemma attachSvgHandlers_run svgObject a obj doc :
  page a !! svgObject = Some obj →
  contentDocument obj = Some doc →
  attachSvgHandlers svgObject a =
  let d0 := initDocument (hideMap doc) in
  let w := fst (foldl bindSpace
                  (foldl bindDynamic
                     (mkWiring d0 (boundElements a) (clickListeners a), [])
                     (querySelectorAll_attr d0 "data-space-id"))
                  (spaces (model a))) in
  mkApp (model a) (<[svgObject := with_contentDocument (w_doc w) obj]> (page a))
        (carousel a) (isPopoverVisible a) (view_model a) (w_bound w) (w_clicks w).
Proof. intros Hobj Hdoc. unfold attachSvgHandlers. by rewrite Hobj, Hdoc. Qed.

Lemma ghBound_attributes d d' h :
  attributes <$> d = attributes <$> d' → ghBound d h → ghBound d' h.
Proof.
  intros E (n & Hn & Hg).
  assert (Hl : attributes <$> d !! h = attributes <$> d' !! h)
    by (by rewrite <- !list_lookup_fmap, E).
  rewrite Hn in Hl. destruct (d' !! h) as [n'|] eqn:En'; [|done].
  simpl in Hl. injection Hl as Hl. exists n'. split; [done|].
  unfold getAttribute in *. by rewrite <- Hl.
Qed.

Lemma skeleton_hideMap d : skeleton <$> hideMap d = skeleton <$> d.
Proof. unfold hideMap. destruct (getElementById d "Map"); [|done]. by apply skeleton_alter. Qed.

Lemma attributes_hideMap d : attributes <$> hideMap d = attributes <$> d.
Proof.
  unfold hideMap. destruct (getElementById d "Map"); [|done]. by apply attributes_alter.
Qed.

Lemma skeleton_start d : skeleton <$> initDocument (hideMap d) = skeleton <$> d.
Proof. by rewrite skeleton_initDocument, skeleton_hideMap. Qed.

Lemma attributes_start d : attributes <$> initDocument (hideMap d) = attributes <$> d.
Proof. by rewrite attributes_initDocument, attributes_hideMap. Qed.

(** What one run leaves: every element that a run would bind is marked. *)
Lemma attachSvgHandlers_marks svgObject a obj doc :
  page a !! svgObject = Some obj →
  contentDocument obj = Some doc →
  (∀ h, h ∈ boundElements a → ghBound doc h) →
  ∃ w,
    attachSvgHandlers svgObject a =
    mkApp (model a) (<[svgObject := with_contentDocument (w_doc w) obj]> (page a))
          (carousel a) (isPopoverVisible a) (view_model a) (w_bound w) (w_clicks w)
    ∧ skeleton <$> w_doc w = skeleton <$> doc
    ∧ (∀ h, h ∈ w_bound w → ghBound (w_doc w) h)
    ∧ (∀ h v, dynamicId (w_doc w) h = Some v → ghBound (w_doc w) h)
    ∧ (∀ s el, s ∈ spaces (model a) →
               resolveMarker (w_doc w) (space_id s) = Some el → ghBound (w_doc w) el).
Proof.
  intros Hobj Hdoc Hsync. rewrite (attachSvgHandlers_run svgObject a obj doc Hobj Hdoc).
  cbv zeta. set (d0 := initDocument (hideMap doc)).
  assert (Hinv0 : boundInv d0 (mkWiring d0 (boundElements a) (clickListeners a)) []).
  { split_and!; simpl; [done|done|by intros ? ?%elem_of_nil|].
    intros h Hh. apply (ghBound_attributes doc); [|by apply Hsync].
    symmetry. apply attributes_start. }
  destruct (foldl_bindDynamic_boundInv d0 (querySelectorAll_attr d0 "data-space-id")
              _ _ Hinv0) as (w1 & P1 & -> & Hinv1 & _ & Hdyn1).
  destruct (foldl_bindSpace_boundInv d0 (spaces (model a)) _ _ Hinv1)
    as (w2 & P2 & -> & (Hsk & Hdyn & HP & Hb) & Hsub & Hres).
  exists w2. simpl. split_and!.
  - done.
  - rewrite Hsk. apply skeleton_start.
  - done.
  - intros h v Hv. apply HP, Hsub, Hdyn1.
    + apply querySelectorAll_attr_spec. rewrite Hdyn in Hv. unfold dynamicId in Hv.
      destruct (d0 !! h) as [n|]; [|done]. exists n. split; [done|].
      destruct (getAttribute "data-space-id" n); [eauto|done].
    + rewrite <- Hdyn, Hv. eauto.
  - intros s el Hs Hr. apply HP. apply (Hres s el Hs).
    by rewrite <- (resolveMarker_skeleton _ _ _ Hsk).
Qed.

Lemma classList_attachInteraction el sid w :
  classList <$> w_doc (attachInteraction el sid w) = classList <$> w_doc w.
Proof.
  unfold attachInteraction. repeat case_match; try done. simpl.
  apply list_eq. intros j. rewrite !list_lookup_fmap, list_lookup_alter.
  destruct (decide (el = j)) as [->|]; [|done]. by destruct (w_doc w !! j).
Qed.

Lemma classList_foldl_bindDynamic hs : ∀ st,
  classList <$> w_doc (fst (foldl bindDynamic st hs)) = classList <$> w_doc (fst st).
Proof.
  induction hs as [|el hs IH]; intros st; [done|].
  change (foldl bindDynamic st (el :: hs)) with (foldl bindDynamic (bindDynamic st el) hs).
  rewrite IH. destruct st as [w P]. unfold bindDynamic.
  repeat case_match; try done. simpl. apply classList_attachInteraction.
Qed.

Lemma classList_foldl_bindSpace ss : ∀ st,
  classList <$> w_doc (fst (foldl bindSpace st ss)) = classList <$> w_doc (fst st).
Proof.
  induction ss as [|s ss IH]; intros st; [done|].
  change (foldl bindSpace st (s :: ss)) with (foldl bindSpace (bindSpace st s) ss).
  rewrite IH. destruct st as [w P]. unfold bindSpace.
  repeat case_match; try done. simpl. apply classList_attachInteraction.
Qed.

Lemma hasClass_ext d d' h c :
  classList <$> d = classList <$> d' → hasClass d h c = hasClass d' h c.
Proof.
  intros E. unfold hasClass, classList_contains.
  assert (Hl : classList <$> d !! h = classList <$> d' !! h)
    by (by rewrite <- !list_lookup_fmap, E).
  destruct (d !! h), (d' !! h); simpl in Hl; try done. by injection Hl as ->.
Qed.

Lemma initialized_ext d d' g :
  skeleton <$> d = skeleton <$> d' → classList <$> d = classList <$> d' →
  initialized d g → initialized d' g.
Proof.
  intros Hs Hc. unfold initialized.
  rewrite <- (children_with_tag_skeleton d d' g "g" Hs).
  rewrite (hasClass_ext d d' g _ Hc).
  intros [Hm Hch]. split; [done|].
  destruct (children_with_tag d g "g") as [|first rest]; [done|].
  rewrite <- !(hasClass_ext d d' first _ Hc).
  destruct Hch as (? & ? & Hrest). split_and!; [done|done|].
  eapply Forall_impl; [exact Hrest|]. intros c. simpl.
  by rewrite !(hasClass_ext d d' c _ Hc).
Qed.

Lemma initDocument_fix d :
  (∀ g, g ∈ markerGroups d → initialized d g) → initDocument d = d.
Proof.
  intros Hd. rewrite initDocument_unfold. unfold markerGroups in Hd.
  destruct (markerContainer d) as [c|]; [|done].
  apply foldl_initGroup_fix. intros g Hg Hr. apply Hd.
  rewrite list_elem_of_In, List.filter_In, <- list_elem_of_In. done.
Qed.

Lemma classList_hideMap d : classList <$> hideMap d = classList <$> d.
Proof.
  unfold hideMap. destruct (getElementById d "Map") as [h|]; [|done].
  apply list_eq. intros j. rewrite !list_lookup_fmap, list_lookup_alter.
  destruct (decide (h = j)) as [->|]; [|done]. by destruct (d !! j).
Qed.

(** X13.  [attachSvgHandlers] can run any number of times on the same
    document (the controller runs it when the object has loaded and once
    more if the document is already there).  Provided every element in the
    controller's set of bound elements carries the mark [data-gh-bound],
    which holds at start-up, when the set is empty, and after every run: a
    second run registers no click listener, binds no element, leaves the
    classes and attributes of the document as they are, and only sets the
    display of the group [Map] again. *)
Theorem attachSvgHandlers_rerun svgObject a obj doc :
  page a !! svgObject = Some obj →
  contentDocument obj = Some doc →
  (∀ h, h ∈ boundElements a → ghBound doc h) →
  ∃ doc1,
    page (attachSvgHandlers svgObject a) !! svgObject = Some (with_contentDocument doc1 obj)
    ∧ (∀ h, h ∈ boundElements (attachSvgHandlers svgObject a) → ghBound doc1 h)
    ∧ attachSvgHandlers svgObject (attachSvgHandlers svgObject a)
      = with_page (insert svgObject (with_contentDocument (hideMap doc1) obj))
          (attachSvgHandlers svgObject a)
    ∧ clickListeners (attachSvgHandlers svgObject (attachSvgHandlers svgObject a))
      = clickListeners (attachSvgHandlers svgObject a)
    ∧ boundElements (attachSvgHandlers svgObject (attachSvgHandlers svgObject a))
      = boundElements (attachSvgHandlers svgObject a).
Proof.
  intros Hobj Hdoc Hsync.
  destruct (attachSvgHandlers_marks svgObject a obj doc Hobj Hdoc Hsync)
    as (w & Ha1 & Hsk & Hb & Hdyn & Hres).
  assert (Hcl : classList <$> w_doc w = classList <$> initDocument (hideMap doc)).
  { pose proof (attachSvgHandlers_run svgObject a obj doc Hobj Hdoc) as Hrun.
    rewrite Ha1 in Hrun. cbv zeta in Hrun. injection Hrun as Hd _ _.
    apply (f_equal (λ p, contentDocument <$> p !! svgObject)) in Hd.
    rewrite !lookup_insert_eq in Hd. simpl in Hd. injection Hd as ->.
    by rewrite classList_foldl_bindSpace, classList_foldl_bindDynamic. }
  set (a1 := attachSvgHandlers svgObject a) in *.
  assert (Hobj1 : page a1 !! svgObject = Some (with_contentDocument (w_doc w) obj))
    by (rewrite Ha1; simpl; by rewrite lookup_insert_eq).
  assert (Hfix : initDocument (hideMap (w_doc w)) = hideMap (w_doc w)).
  { apply initDocument_fix. intros g Hg.
    rewrite (markerGroups_skeleton _ (initDocument (hideMap doc))) in Hg
      by (by rewrite skeleton_hideMap, Hsk, skeleton_start).
    rewrite (markerGroups_skeleton _ _ (skeleton_initDocument _)) in Hg.
    apply (initialized_ext (initDocument (hideMap doc))).
    - by rewrite skeleton_hideMap, Hsk, skeleton_start.
    - by rewrite classList_hideMap, Hcl.
    - by apply initDocument_initialized. }
  assert (Hrun2 : attachSvgHandlers svgObject a1
            = with_page (insert svgObject (with_contentDocument (hideMap (w_doc w)) obj))
                a1).
  { rewrite (attachSvgHandlers_run svgObject a1 _ (w_doc w) Hobj1 eq_refl).
    cbv zeta. rewrite Hfix.
    assert (Hatt : attributes <$> hideMap (w_doc w) = attributes <$> w_doc w)
      by apply attributes_hideMap.
    assert (Hsk2 : skeleton <$> hideMap (w_doc w) = skeleton <$> w_doc w)
      by apply skeleton_hideMap.
    set (w0 := mkWiring (hideMap (w_doc w)) (boundElements a1) (clickListeners a1)).
    assert (Hm1 : ∀ h v, dynamicId (w_doc w0) h = Some v → ghBound (w_doc w0) h).
    { intros h v Hv. simpl in *. apply (ghBound_attributes (w_doc w)); [done|].
      apply (Hdyn h v). by rewrite <- (dynamicId_attributes _ _ h Hatt). }
    assert (Hm2 : ∀ s el, s ∈ spaces (model a1) →
                  resolveMarker (w_doc w0) (space_id s) = Some el →
                  ghBound (w_doc w0) el).
    { intros s el Hs Hr. simpl in *. apply (ghBound_attributes (w_doc w)); [done|].
      apply (Hres s el); [by rewrite Ha1 in Hs|].
      by rewrite <- (resolveMarker_skeleton _ _ _ Hsk2). }
    pose proof (foldl_bindDynamic_marked w0
                  (querySelectorAll_attr (hideMap (w_doc w)) "data-space-id") [] Hm1)
      as H1.
    destruct (foldl bindDynamic (w0, [])
                (querySelectorAll_attr (hideMap (w_doc w)) "data-space-id"))
      as [w1 P1]. simpl in H1. subst w1.
    rewrite (foldl_bindSpace_marked w0 (spaces (model a1)) P1 Hm2).
    unfold w0, with_page. simpl. by f_equal. }
  exists (w_doc w). split_and!.
  - done.
  - rewrite Ha1. simpl. exact Hb.
  - exact Hrun2.
  - by rewrite Hrun2.
  - by rewrite Hrun2.
Qed.

End BindingAgain.

(** ** Clicks on the markers document *)

Section ClickDispatch.
Import Obs Model SpaceView Controller Binding BindingObs Overlay Events.
Implicit Types (d : Document) (h el target : Handle) (n : Node) (a : App).
Local Open Scope list_scope.

Lemma propagationPath_nearest d d' (binding : Handle → option string)
    (f : Handle → bool) target el sid :
  skeleton <$> d' = skeleton <$> d →
  treeOrdered d →
  (∀ x, f x = bool_decide (is_Some (binding x))) →
  nearestBinding d binding target el sid →
  ∀ fuel, target < fuel →
    propagationPath fuel d' target ≠ []
    ∧ List.find f (propagationPath fuel d' target) = Some el
    ∧ binding el = Some sid.
Proof.
  intros Hsk Htree Hf Hnear. induction Hnear as [h n sid Hn Hb|h n p el sid Hn Hb Hp _ IH];
    intros fuel Hfuel; (destruct fuel as [|fuel]; [lia|]); simpl;
    pose proof (skeleton_lookup _ _ h Hsk) as Hl; rewrite Hn in Hl;
    destruct (d' !! h) as [n'|]; try done; simpl in Hl; injection Hl as _ _ Hpar.
  - split_and!; [done| |done]. cbn [List.find].
    rewrite Hf, Hb. by rewrite bool_decide_eq_true_2.
  - split_and!; [done| |].
    + cbn [List.find]. rewrite Hf, Hb.
      rewrite bool_decide_eq_false_2 by (by intros [? ?]).
      rewrite Hpar, Hp. apply IH. pose proof (Htree h n p Hn Hp). lia.
    + apply (IH fuel). pose proof (Htree h n p Hn Hp). lia.
Qed.

Lemma propagationPath_unbound d d' (binding : Handle → option string)
    (f : Handle → bool) target :
  skeleton <$> d' = skeleton <$> d →
  treeOrdered d →
  (∀ x, f x = bool_decide (is_Some (binding x))) →
  noBinding d binding target →
  ∀ fuel, target < fuel →
    propagationPath fuel d' target ≠ []
    ∧ List.find f (propagationPath fuel d' target) = None.
Proof.
  intros Hsk Htree Hf Hno. induction Hno as [h n Hn Hb Hp|h n p Hn Hb Hp _ IH];
    intros fuel Hfuel; (destruct fuel as [|fuel]; [lia|]); simpl;
    pose proof (skeleton_lookup _ _ h Hsk) as Hl; rewrite Hn in Hl;
    destruct (d' !! h) as [n'|]; try done; simpl in Hl; injection Hl as _ _ Hpar.
  - split; [done|]. cbn [List.find].
    rewrite Hf, Hb. rewrite bool_decide_eq_false_2 by (by intros [? ?]).
    by rewrite Hpar, Hp.
  - split; [done|]. cbn [List.find].
    rewrite Hf, Hb. rewrite bool_decide_eq_false_2 by (by intros [? ?]).
    rewrite Hpar, Hp. apply IH. pose proof (Htree h n p Hn Hp). lia.
Qed.

Lemma nearestBinding_lt d binding target el sid :
  nearestBinding d binding target el sid → target < length d.
Proof. intros [h n ? Hn _|h n ? ? ? Hn _ _ _]; by apply lookup_lt_Some in Hn. Qed.

Lemma noBinding_lt d binding target : noBinding d binding target → target < length d.
Proof. intros [h n Hn _ _|h n ? Hn _ _ _]; by apply lookup_lt_Some in Hn. Qed.

(** X14.  After [attachSvgHandlers] has run on a fresh markers document, a
    click on an element runs the binding of the nearest element that has
    one, going up from the element clicked: it selects the space of that
    binding and nothing else happens, the listener on the document is not
    reached.  A click with no binding on its way up reaches the document,
    whose listeners leave the selection.  The listener on the overlay's
    document does the same with the element under the pointer, and leaves
    the selection when there is none. *)
Theorem click_runs_nearest_binding a obj doc :
  page a !! APP_CONFIG.buildingMarkersSvg = Some obj →
  contentDocument obj = Some doc →
  boundElements a = [] →
  clickListeners a = [] →
  (∀ h n, doc !! h = Some n → getAttribute "data-gh-bound" n ≠ Some "true") →
  treeOrdered doc →
  (∀ target el spaceId documentListeners,
     nearestBinding doc (bindingOf doc (spaces (model a))) target el spaceId →
     dispatchClick documentListeners target
       (attachSvgHandlers APP_CONFIG.buildingMarkersSvg a)
     = (handleMarkerClick spaceId (attachSvgHandlers APP_CONFIG.buildingMarkersSvg a), [])
     ∧ overlayBackgroundClick documentListeners (Some target)
         (attachSvgHandlers APP_CONFIG.buildingMarkersSvg a)
       = (handleMarkerClick spaceId (attachSvgHandlers APP_CONFIG.buildingMarkersSvg a),
          []))
  ∧ (∀ target documentListeners,
       noBinding doc (bindingOf doc (spaces (model a))) target →
       dispatchClick documentListeners target
         (attachSvgHandlers APP_CONFIG.buildingMarkersSvg a)
       = runDocumentListeners documentListeners
           (attachSvgHandlers APP_CONFIG.buildingMarkersSvg a))
  ∧ (∀ documentListeners,
       overlayBackgroundClick documentListeners None
         (attachSvgHandlers APP_CONFIG.buildingMarkersSvg a)
       = restore (attachSvgHandlers APP_CONFIG.buildingMarkersSvg a)).
Proof.
  intros Hobj Hdoc Hbound Hclicks Hfresh Htree.
  pose proof (attachSvgHandlers_listeners a obj doc Hobj Hdoc Hbound Hclicks Hfresh) as Hl.
  destruct (attachSvgHandlers_marks _ a obj doc Hobj Hdoc) as (w & Ha1 & Hsk & _).
  { rewrite Hbound. by intros ? ?%elem_of_nil. }
  set (a1 := attachSvgHandlers APP_CONFIG.buildingMarkersSvg a) in *.
  assert (Hmd : markersDocument (page a1) = Some (w_doc w)).
  { unfold markersDocument. rewrite Ha1. simpl. by rewrite lookup_insert_eq. }
  assert (Hf : ∀ x, hasListener (clickListeners a1) x
                    = bool_decide (is_Some (bindingOf doc (spaces (model a)) x))).
  { intros x. unfold hasListener. rewrite Hl.
    by destruct (bindingOf doc (spaces (model a)) x). }
  assert (Hdispatch : ∀ target el spaceId documentListeners,
    nearestBinding doc (bindingOf doc (spaces (model a))) target el spaceId →
    dispatchClick documentListeners target a1 = (handleMarkerClick spaceId a1, [])).
  { intros target el sid k Hnear. unfold dispatchClick. rewrite Hmd.
    destruct (propagationPath_nearest doc (w_doc w) _ _ target el sid Hsk Htree Hf Hnear
                (length (w_doc w))) as (Hne & Hfind & Hb).
    { rewrite (skeleton_length _ _ Hsk). by eapply nearestBinding_lt. }
    destruct (propagationPath (length (w_doc w)) (w_doc w) target) as [|x path]; [done|].
    rewrite Hfind, Hl, Hb. done. }
  split_and!.
  - intros target el sid k Hnear. split; [by eapply Hdispatch|].
    unfold overlayBackgroundClick. rewrite Hmd. by eapply Hdispatch.
  - intros target k Hno. unfold dispatchClick. rewrite Hmd.
    destruct (propagationPath_unbound doc (w_doc w) _ _ target Hsk Htree Hf Hno
                (length (w_doc w))) as (Hne & Hfind).
    { rewrite (skeleton_length _ _ Hsk). by eapply noBinding_lt. }
    destruct (propagationPath (length (w_doc w)) (w_doc w) target) as [|x path]; [done|].
    by rewrite Hfind.
  - intros k. unfold overlayBackgroundClick. by rewrite Hmd.
Qed.

End ClickDispatch.

(** ** The checks the controller carries *)

Section SelfTests.
Import Obs Model SpaceView Controller Binding BindingObs Overlay Events SelfTest.
Implicit Types (d : Document) (h el : Handle) (n : Node) (a : App) (page : Page).
Local Open Scope list_scope.

Lemma getElementById_Some d i h :
  getElementById d i = Some h → ∃ n, d !! h = Some n ∧ el_id n = i.
Proof.
  unfold getElementById. destruct (String.eqb i ""); [done|].
  destruct (list_find (λ n, el_id n = i) d) as [[j n]|] eqn:E; [|done].
  intros [= <-]. apply list_find_Some in E as (? & ? & _). eauto.
Qed.

Lemma idOf_getElementById d i h : getElementById d i = Some h → idOf d h = i.
Proof. intros (n & Hn & Hi)%getElementById_Some. unfold idOf. by rewrite Hn. Qed.

(** X15.  The controller's own check of the visibility logic passes on
    every page whose markers document has a marker group [lobby] in the
    state that [initMarkerVisibility] leaves, with at least one child
    group, and a marker group [gym]; it then leaves no marker dimmed.  When
    the group [lobby] has no child group the check throws before it
    changes anything; when the document has no element [gym] it throws
    after dimming the markers, and leaves them dimmed. *)
Theorem testVisibilityLogic_passes page d lobby :
  markersDocument page = Some d →
  getElementById d "lobby" = Some lobby →
  (∀ gym,
     getElementById d "gym" = Some gym →
     lobby ∈ markerGroups d → gym ∈ markerGroups d →
     initialized d lobby → children_with_tag d lobby "g" ≠ [] →
     testVisibilityLogic page
     = (Ok true, updateMarkerVisibility None (updateMarkerVisibility (Some "gym") page))
     ∧ ∀ h, h ∈ pageMarkerGroups page → pageDimmed (snd (testVisibilityLogic page)) h = false)
  ∧ (children_with_tag d lobby "g" = [] →
     testVisibilityLogic page = (Throw TypeError, page))
  ∧ (getElementById d "gym" = None →
     initialized d lobby → children_with_tag d lobby "g" ≠ [] →
     testVisibilityLogic page
     = (Throw TypeError, updateMarkerVisibility (Some "gym") page)).
Proof.
  intros Hmd Hl.
  assert (Hinit : initialized d lobby → children_with_tag d lobby "g" ≠ [] →
    ∃ first rest,
      children_with_tag d lobby "g" = first :: rest
      ∧ negb (hasClass d lobby APP_CONFIG.markerGroup)
        || negb (hasClass d first APP_CONFIG.childVisible)
        || negb match rest with
                | second :: _ => hasClass d second APP_CONFIG.childHidden
                | [] => true
                end = false).
  { intros [Hg Hch] Hne.
    destruct (children_with_tag d lobby "g") as [|first rest]; [done|].
    exists first, rest. split; [done|]. destruct Hch as (Hv & _ & Hrest).
    rewrite Hg, Hv. simpl. destruct rest as [|second rest]; [done|].
    apply Forall_cons in Hrest as [[-> _] _]. done. }
  assert (Hmd1 : markersDocument (updateMarkerVisibility (Some "gym") page)
                 = Some (dimDocument (Some "gym") d))
    by (by rewrite markersDocument_update, Hmd).
  assert (Hgym : getElementById (dimDocument (Some "gym") d) "gym" = getElementById d "gym")
    by apply getElementById_skeleton, skeleton_dimDocument.
  split_and!.
  - intros gym Hg Hlm Hgm Hi Hne.
    destruct (Hinit Hi Hne) as (first & rest & Hch & Hcond).
    assert (Hrun : testVisibilityLogic page
              = (Ok true, updateMarkerVisibility None
                            (updateMarkerVisibility (Some "gym") page))).
    { unfold testVisibilityLogic. rewrite Hmd, Hl, Hch, Hcond.
      cbv zeta. rewrite Hmd1. cbn [from_option id]. rewrite Hgym, Hg.
      change (hasClass (dimDocument (Some "gym") d) ?x APP_CONFIG.markerDimmed)
        with (isDimmed (dimDocument (Some "gym") d) x).
      rewrite !isDimmed_dimDocument by done.
      rewrite (idOf_getElementById _ _ _ Hl), (idOf_getElementById _ _ _ Hg).
      cbn [truthy differs String.eqb Ascii.eqb Bool.eqb negb andb orb].
      rewrite markersDocument_update, Hmd1.
      cbn [fmap option_fmap option_map from_option id].
      change (hasClass (dimDocument None ?y) ?x APP_CONFIG.markerDimmed)
        with (isDimmed (dimDocument None y) x).
      rewrite isDimmed_dimDocument
        by (by rewrite (markerGroups_skeleton _ _ (skeleton_dimDocument _ d))).
      done. }
    split; [done|]. rewrite Hrun. simpl. intros h Hh.
    unfold pageMarkerGroups, pageDimmed in *.
    rewrite markersDocument_update, Hmd1. rewrite Hmd in Hh. simpl.
    apply isDimmed_dimDocument.
    by rewrite (markerGroups_skeleton _ _ (skeleton_dimDocument _ d)).
  - intros Hch. unfold testVisibilityLogic. by rewrite Hmd, Hl, Hch.
  - intros Hg Hi Hne. destruct (Hinit Hi Hne) as (first & rest & Hch & Hcond).
    unfold testVisibilityLogic. rewrite Hmd, Hl, Hch, Hcond.
    cbv zeta. rewrite Hmd1. cbn [from_option id]. by rewrite Hgym, Hg.
Qed.

Lemma markerOfId_skeleton d d' i :
  skeleton <$> d = skeleton <$> d' → markerOfId d i = markerOfId d' i.
Proof.
  intros E. unfold markerOfId.
  by rewrite (getElementById_skeleton d d' _ E), (findGroupById_skeleton d d' _ E).
Qed.

Lemma markerOfId_valid d i el : markerOfId d i = Some el → is_Some (d !! el).
Proof.
  intros H. apply (resolveMarker_valid d i). unfold resolveMarker.
  unfold markerOfId in H. by rewrite H.
Qed.

(** A click on an element that has a listener of its own. *)
Lemma dispatchClick_bound documentListeners a d el sid :
  markersDocument (page a) = Some d →
  is_Some (d !! el) →
  listenersOn (clickListeners a) el = [sid] →
  dispatchClick documentListeners el a = (handleMarkerClick sid a, []).
Proof.
  intros Hmd [n Hn] Hl. unfold dispatchClick. rewrite Hmd.
  pose proof (lookup_lt_Some _ _ _ Hn) as Hlt.
  destruct (length d) as [|fuel]; [lia|]. simpl. rewrite Hn.
  assert (hasListener (clickListeners a) el = true) as ->
    by (unfold hasListener; by rewrite Hl).
  by rewrite Hl.
Qed.

(** One round of the loop of [runMarkerClickTest], in a state that the
    clicks of the test can reach. *)
Lemma testMarker_round documentListeners (spaces0 : list Space)
    (clicks : list (Handle * string)) (doc : Document) results a timers i :
  spaces (model a) = spaces0 →
  clickListeners a = clicks →
  (∃ d, markersDocument (page a) = Some d ∧ skeleton <$> d = skeleton <$> doc) →
  is_Some (page a !! APP_CONFIG.overlaySvg) →
  markerOfId doc i = None
  ∨ (∃ el, markerOfId doc i = Some el ∧ listenersOn clicks el = [i]
           ∧ i ∈ space_id <$> spaces0) →
  ∃ a',
    testMarker documentListeners (results, a, timers) i
    = (results ++ [(i, if markerOfId doc i is Some _ then status_ok else status_missing)],
       a', timers)
    ∧ spaces (model a') = spaces0
    ∧ clickListeners a' = clicks
    ∧ (∃ d, markersDocument (page a') = Some d ∧ skeleton <$> d = skeleton <$> doc)
    ∧ is_Some (page a' !! APP_CONFIG.overlaySvg).
Proof.
  intros Hsp Hcl (d & Hmd & Hsk) [o Ho] Hid. unfold testMarker.
  rewrite Hmd. cbn [from_option id]. rewrite (markerOfId_skeleton d doc i Hsk).
  destruct Hid as [Hnone|(el & Hel & Hl & Hknown)].
  { rewrite Hnone. exists a. split_and!; eauto. }
  rewrite Hel. rewrite <- Hsp in Hknown. rewrite <- Hcl in Hl.
  destruct (getSpace_known _ _ Hknown) as [sp Hs].
  rewrite (dispatchClick_bound documentListeners a d el i Hmd); [|
    by (apply (markerOfId_valid d i); rewrite (markerOfId_skeleton d doc i Hsk))|done].
  rewrite Hs, (handleMarkerClick_known a i sp Hs).
  cbn [page model currentSpaceId setCurrentSpace fmap option_fmap option_map].
  rewrite updateMarkerVisibility_lookup_ne by done.
  rewrite replaceLandingSvg_overlay, Ho.
  cbn [fmap option_fmap option_map mbind option_bind pe_data pe_classList].
  rewrite contains_add, String.eqb_refl.
  rewrite !bool_decide_eq_true_2 by done. cbn [andb orb].
  rewrite app_nil_r. eexists. split_and!; [done|done|done| |].
  - cbn [page]. rewrite markersDocument_update, markersDocument_replaceLandingSvg, Hmd.
    eexists. split; [done|]. by rewrite skeleton_dimDocument.
  - cbn [page]. rewrite updateMarkerVisibility_lookup_ne by done.
    rewrite replaceLandingSvg_overlay, Ho. eauto.
Qed.

(** X16.  The controller's marker click test, run after
    [attachSvgHandlers] on a fresh markers document of a page that has the
    overlay object, reports [ok] for every id that names an element bound
    to that id and a space of the model, and [missing] for every id that
    names no element; the clicks of the test start no timer. *)
Theorem runMarkerClickTest_passes a obj doc overlay ids documentListeners :
  page a !! APP_CONFIG.buildingMarkersSvg = Some obj →
  contentDocument obj = Some doc →
  boundElements a = [] →
  clickListeners a = [] →
  (∀ h n, doc !! h = Some n → getAttribute "data-gh-bound" n ≠ Some "true") →
  page a !! APP_CONFIG.overlaySvg = Some overlay →
  Forall (λ i, markerOfId doc i = None
               ∨ ∃ el, markerOfId doc i = Some el
                       ∧ bindingOf doc (spaces (model a)) el = Some i
                       ∧ i ∈ space_id <$> spaces (model a)) ids →
  ∃ a',
    runMarkerClickTest documentListeners ids
      (attachSvgHandlers APP_CONFIG.buildingMarkersSvg a)
    = ((λ i, (i, if markerOfId doc i is Some _ then status_ok else status_missing)) <$> ids,
       a', []).
Proof.
  intros Hobj Hdoc Hbound Hclicks Hfresh Hov Hids.
  pose proof (attachSvgHandlers_listeners a obj doc Hobj Hdoc Hbound Hclicks Hfresh) as Hl.
  destruct (attachSvgHandlers_marks _ a obj doc Hobj Hdoc) as (w & Ha1 & Hsk & _).
  { rewrite Hbound. by intros ? ?%elem_of_nil. }
  set (a1 := attachSvgHandlers APP_CONFIG.buildingMarkersSvg a) in *.
  assert (Hmd : markersDocument (page a1) = Some (w_doc w)).
  { unfold markersDocument. rewrite Ha1. simpl. by rewrite lookup_insert_eq. }
  assert (Hsp : spaces (model a1) = spaces (model a)) by (by rewrite Ha1).
  assert (Ho1 : is_Some (page a1 !! APP_CONFIG.overlaySvg)).
  { rewrite Ha1. simpl. rewrite lookup_insert_ne by done. eauto. }
  unfold runMarkerClickTest. rewrite Hmd.
  assert (Hgen : ∀ results s,
    spaces (model s) = spaces (model a) →
    clickListeners s = clickListeners a1 →
    (∃ d, markersDocument (page s) = Some d ∧ skeleton <$> d = skeleton <$> doc) →
    is_Some (page s !! APP_CONFIG.overlaySvg) →
    ∃ a',
      foldl (testMarker documentListeners) (results, s, []) ids
      = (results ++ ((λ i, (i, if markerOfId doc i is Some _ then status_ok else status_missing))
                       <$> ids), a', [])).
  { clear Hmd Hsp Ho1. induction Hids as [|i ids Hi _ IH]; intros results s Hs1 Hs2 Hs3 Hs4.
    - exists s. simpl. by rewrite app_nil_r.
    - destruct (testMarker_round documentListeners (spaces (model a)) (clickListeners a1)
                  doc results s [] i Hs1 Hs2 Hs3 Hs4)
        as (s' & Hstep & H1 & H2 & H3 & H4).
      { destruct Hi as [?|(el & Hel & Hb & Hk)]; [by left|right].
        exists el. split_and!; [done| |done]. by rewrite Hl, Hb. }
      cbn [foldl]. rewrite Hstep.
      destruct (IH (results ++ [(i, if markerOfId doc i is Some _
                                    then status_ok else status_missing)])
                  s' H1 H2 H3 H4) as [a' ->].
      exists a'. by rewrite <- app_assoc. }
  destruct (Hgen [] a1 Hsp eq_refl) as [a' ->]; eauto.
Qed.

End SelfTests.

(** ** What no listener changes *)

Section ListenersKeep.
Import Obs Model SpaceView Controller Binding Overlay Events ModalView Listeners.
Implicit Types (a : App) (w : World).
Local Open Scope list_scope.

Lemma keeps_frame a0 a a' :
  keeps a0 a → model a' = model a → view_model a' = view_model a →
  isPopoverVisible a' = false → keeps a0 a'.
Proof. unfold keeps. intros H Hm Hv Hp. rewrite Hm, Hv, Hp. tauto. Qed.

Lemma keeps_handleMarkerClick a0 a spaceId :
  keeps a0 a → keeps a0 (handleMarkerClick spaceId a).
Proof.
  intros H. destruct (getSpace (model a) (Some spaceId)) as [s|] eqn:Hs.
  - rewrite (handleMarkerClick_known a spaceId s Hs).
    destruct H as (Hp & Hv & Ht & Hsp & Hpm & Hmd & Hi & Hc).
    apply getSpace_Some in Hs as [Hin <-].
    split_and!; simpl; try done. right. exists (space_id s). split; [done|].
    rewrite <- Hsp. apply list_elem_of_fmap. eauto.
  - unfold handleMarkerClick. by rewrite Hs.
Qed.

Lemma keeps_nextProduct a0 a : keeps a0 a → keeps a0 (nextProduct a).
Proof.
  intros H. unfold nextProduct. destruct (getCurrentSpace (model a)) as [s|]; [|done].
  destruct (Nat.eqb (length (systemEquipment s)) 0); [done|].
  destruct H as (Hp & Hv & Ht & Hsp & Hpm & Hmd & Hi & Hc).
  split_and!; simpl; try done.
  destruct (Z.geb_spec (currentProductIndex (model a) + 1)
              (Z.of_nat (length (systemEquipment s)))); lia.
Qed.

Lemma keeps_prevProduct a0 a : keeps a0 a → keeps a0 (prevProduct a).
Proof.
  intros H. unfold prevProduct. destruct (getCurrentSpace (model a)) as [s|]; [|done].
  destruct (Nat.eqb_spec (length (systemEquipment s)) 0) as [|Hn]; [done|].
  destruct H as (Hp & Hv & Ht & Hsp & Hpm & Hmd & Hi & Hc).
  split_and!; simpl; try done.
  destruct (Z.ltb_spec (currentProductIndex (model a) - 1) 0); lia.
Qed.

Lemma keeps_dotClick a0 a idx : keeps a0 a → keeps a0 (fst (dotClick idx a)).
Proof.
  intros H. unfold dotClick. pose proof H as (_ & Hv & _). by rewrite Hv.
Qed.

Lemma keeps_with_page a0 a f : keeps a0 a → keeps a0 (with_page f a).
Proof. intros H. apply (keeps_frame a0 a); [done..|]. apply H. Qed.

Lemma keeps_with_carousel a0 a f : keeps a0 a → keeps a0 (with_carousel f a).
Proof. intros H. apply (keeps_frame a0 a); [done..|]. apply H. Qed.

Lemma keeps_restore a0 a : keeps a0 a → keeps a0 (fst (restore a)).
Proof. apply keeps_with_page. Qed.

Lemma keeps_attachSvgHandlers a0 a svgObject :
  keeps a0 a → keeps a0 (attachSvgHandlers svgObject a).
Proof.
  intros H. unfold attachSvgHandlers.
  destruct (page a !! svgObject) as [obj|]; [|done].
  destruct (contentDocument obj) as [doc|]; [|done].
  apply (keeps_frame a0 a); [done..|]. apply H.
Qed.

Lemma keeps_runListeners a0 spaceIds : ∀ a,
  keeps a0 a → keeps a0 (runListeners spaceIds a).
Proof.
  induction spaceIds as [|sid l IH]; intros a H; [done|].
  apply IH. by apply keeps_handleMarkerClick.
Qed.

Lemma keeps_runDocumentListeners a0 k : ∀ a,
  keeps a0 a → keeps a0 (fst (runDocumentListeners k a)).
Proof.
  induction k as [|k IH]; intros a H; [done|]. cbn [runDocumentListeners].
  pose proof (keeps_restore a0 a H) as H1.
  destruct (restore a) as [a1 ts]. simpl in H1. specialize (IH a1 H1).
  by destruct (runDocumentListeners k a1).
Qed.

Lemma keeps_dispatchClick a0 a k target :
  keeps a0 a → keeps a0 (fst (dispatchClick k target a)).
Proof.
  intros H. unfold dispatchClick.
  destruct (markersDocument (page a)) as [doc|]; [|done].
  destruct (propagationPath (length doc) doc target) as [|h path]; [done|].
  destruct (List.find (hasListener (clickListeners a)) (h :: path)).
  - by apply keeps_runListeners.
  - by apply keeps_runDocumentListeners.
Qed.

Lemma keeps_overlayBackgroundClick a0 a k target :
  keeps a0 a → keeps a0 (fst (overlayBackgroundClick k target a)).
Proof.
  intros H. unfold overlayBackgroundClick.
  destruct (markersDocument (page a)), target;
    try (by apply keeps_restore). by apply keeps_dispatchClick.
Qed.

Lemma keeps_hidePopover_flag a0 a : keeps a0 a → keeps a0 (hidePopover_flag a).
Proof. intros H. by apply (keeps_frame a0 a). Qed.

Section Markup.
Variable textContent : string → string.

Lemma keeps_showDetail a0 w space :
  keeps a0 (w_app w) → keeps a0 (w_app (showDetail textContent space w)).
Proof.
  intros H. unfold showDetail.
  destruct (renderSpaceDetails textContent (Some space) (Some tabs_overview)
              (switchScene "detail" (w_modal w), carousel (w_app w))) as [m c].
  simpl. by apply keeps_with_carousel.
Qed.

Lemma keeps_run a0 l w :
  keeps a0 (w_app w) → keeps a0 (w_app (run textContent l w)).
Proof.
  intros H. destruct l as [| | | | |tabName|target|idx|spaceId| | | |k target| | |];
    simpl.
  - done.
  - by apply keeps_restore, keeps_hidePopover_flag.
  - by apply keeps_restore.
  - destruct (getCurrentSpace (model (w_app w))); [|done].
    apply keeps_showDetail. simpl. by apply keeps_hidePopover_flag.
  - by apply keeps_restore, keeps_hidePopover_flag.
  - destruct (renderSpaceDetails textContent (getCurrentSpace (model (w_app w))) tabName
                (w_modal w, carousel (w_app w))) as [m c].
    simpl. by apply keeps_with_carousel.
  - destruct target; simpl; [by apply keeps_nextProduct|by apply keeps_prevProduct|done].
  - by apply keeps_dotClick.
  - by apply keeps_handleMarkerClick.
  - by apply keeps_restore.
  - destruct (getCurrentSpace (model (w_app w))); [|done]. by apply keeps_showDetail.
  - by apply keeps_restore.
  - by apply keeps_overlayBackgroundClick.
  - destruct (w_timers w); [done|]. simpl. by apply keeps_with_page.
  - by apply keeps_attachSvgHandlers.
  - by apply keeps_with_page.
Qed.

Lemma keeps_runs a0 ls : ∀ w,
  keeps a0 (w_app w) → keeps a0 (w_app (runs textContent ls w)).
Proof.
  induction ls as [|l ls IH]; intros w H; [done|].
  apply (IH (run textContent l w)). by apply keeps_run.
Qed.

(** X17.  What no listener of the page ever changes.  From a state in
    which the popover is hidden, the view has no [model] property and the
    index of the carousel is not negative (the state at start-up, once the
    spaces are loaded), after any sequence of listeners of the page, run in
    any order and any number of times: the popover is still hidden (nothing
    calls [showPopover]), the view still has no model (so the listener of a
    dot still throws), [currentTab] is what it was (the tab clicks do not
    record the tab), the spaces, the metadata and the marker data are the
    same, the index is not negative, and the current space is the one it
    was or a space of the model: once a space is selected, nothing sets
    the selection back to none. *)
Theorem listeners_keep ls w :
  isPopoverVisible (w_app w) = false →
  view_model (w_app w) = None →
  (0 ≤ currentProductIndex (model (w_app w)))%Z →
  keeps (w_app w) (w_app (runs textContent ls w))
  ∧ (is_Some (currentSpaceId (model (w_app w))) →
     is_Some (currentSpaceId (model (w_app (runs textContent ls w))))).
Proof.
  intros Hp Hv Hi.
  assert (H0 : keeps (w_app w) (w_app w)) by (split_and!; auto).
  pose proof (keeps_runs (w_app w) ls w H0) as Hk.
  split; [done|]. intros Hsel.
  destruct Hk as (_ & _ & _ & _ & _ & _ & _ & [-> | (i & -> & _)]); eauto.
Qed.

Lemma run_CarouselDot a0 idx w :
  keeps a0 (w_app w) → run textContent (CarouselDot idx) w = w.
Proof.
  intros (_ & Hv & _). destruct w as [a m ts]. cbn [run w_app] in *.
  unfold Listeners.with_app. cbn [w_app w_modal w_timers].
  f_equal. unfold dotClick. by rewrite Hv.
Qed.

Lemma runs_without_dots a0 ls : ∀ w,
  keeps a0 (w_app w) →
  runs textContent ls w = runs textContent (List.filter notDot ls) w.
Proof.
  induction ls as [|l ls IH]; intros w H; [done|].
  change (runs textContent (l :: ls) w) with (runs textContent ls (run textContent l w)).
  destruct (notDot l) eqn:El.
  - cbn [List.filter]. rewrite El.
    change (runs textContent (l :: List.filter notDot ls) w)
      with (runs textContent (List.filter notDot ls) (run textContent l w)).
    apply IH. by apply keeps_run.
  - cbn [List.filter]. rewrite El. destruct l; try discriminate El.
    rewrite (run_CarouselDot a0 _ w H). by apply IH.
Qed.

(** X3.  The dots of the carousel do nothing.  Their listener runs with
    [this] bound to the view, and no listener of the page ever gives the
    view a [model]: from the state at start-up (popover hidden, the view
    without model, the index not negative), any sequence of listeners, run
    in any order, leaves the page, the modal, the model and the timers
    exactly as the same sequence without its clicks on dots; and after any
    such sequence one more click on a dot throws and changes nothing, the
    index of the carousel included. *)
Theorem dot_clicks_change_nothing ls w :
  isPopoverVisible (w_app w) = false →
  view_model (w_app w) = None →
  (0 ≤ currentProductIndex (model (w_app w)))%Z →
  runs textContent ls w = runs textContent (List.filter notDot ls) w
  ∧ ∀ idx,
      run textContent (CarouselDot idx) (runs textContent ls w) = runs textContent ls w
      ∧ ∃ e, snd (dotClick idx (w_app (runs textContent ls w))) = Thrown e.
Proof.
  intros Hp Hv Hi.
  assert (H0 : keeps (w_app w) (w_app w)) by (split_and!; auto).
  pose proof (keeps_runs (w_app w) ls w H0) as Hk.
  split; [by apply (runs_without_dots (w_app w))|].
  intros idx. split; [by apply (run_CarouselDot (w_app w))|].
  destruct Hk as (_ & Hv' & _). unfold dotClick. rewrite Hv'. simpl. eauto.
Qed.

End Markup.

End ListenersKeep.

(** ** Scenes, tabs and panels of the modal *)

Section ModalFacts.
Import Obs Model SpaceView Controller Overlay Events ModalView Listeners.
Implicit Types (a : App) (w : World) (m : Modal) (t : Tab) (cl : list string).
Local Open Scope list_scope.

Lemma remove_add_same c cl : remove c (add c cl) = remove c cl.
Proof.
  unfold add. destruct (contains c cl); [done|]. unfold remove.
  rewrite List.filter_app. simpl. rewrite String.eqb_refl. simpl. by rewrite app_nil_r.
Qed.

Lemma setTabState_false_absorbs b t :
  setTabState false (setTabState b t) = setTabState false t.
Proof. destruct b; unfold setTabState; simpl; [done|]. by rewrite remove_remove. Qed.

Lemma setTabState_false_markTab tab t :
  setTabState false (markTab tab t) = setTabState false t.
Proof.
  unfold setTabState, markTab. simpl. f_equal.
  case_bool_decide; [apply remove_add_same|apply remove_remove].
Qed.

(** The tabs as [setTabsState(false)] would leave them. *)
Lemma tabsReset_switchScene sceneName m :
  setTabState false <$> modalTabs (switchScene sceneName m)
  = setTabState false <$> modalTabs m.
Proof.
  unfold switchScene. destruct (String.eqb sceneName "detail");
    cbn [setTabsState with_modalTabs modalTabs];
    rewrite <- list_fmap_compose; apply list_fmap_ext; intros ? t _;
    apply setTabState_false_absorbs.
Qed.

Section Markup.
Variable textContent : string → string.

Lemma tabsReset_renderSpaceDetails space tab m c :
  setTabState false <$> modalTabs (fst (renderSpaceDetails textContent space tab (m, c)))
  = setTabState false <$> modalTabs m.
Proof.
  unfold renderSpaceDetails. destruct space as [space|]; [|done].
  assert (H : setTabState false <$> (markTab (default tabs_overview tab) <$> modalTabs m)
              = setTabState false <$> modalTabs m).
  { rewrite <- list_fmap_compose. apply list_fmap_ext. intros ? t _.
    apply setTabState_false_markTab. }
  repeat case_match; simpl; exact H.
Qed.

Lemma tabsReset_showDetail space w :
  setTabState false <$> modalTabs (w_modal (showDetail textContent space w))
  = setTabState false <$> modalTabs (w_modal w).
Proof.
  unfold showDetail.
  pose proof (tabsReset_renderSpaceDetails (Some space) (Some tabs_overview)
                (switchScene "detail" (w_modal w)) (carousel (w_app w))) as H.
  destruct (renderSpaceDetails textContent (Some space) (Some tabs_overview)
              (switchScene "detail" (w_modal w), carousel (w_app w))) as [m c].
  cbn [w_modal loadSpaceSvg modalTabs fst] in *. rewrite H.
  apply tabsReset_switchScene.
Qed.

Lemma tabsReset_run l w :
  setTabState false <$> modalTabs (w_modal (run textContent l w))
  = setTabState false <$> modalTabs (w_modal w).
Proof.
  destruct l as [| | | | |tabName|target|idx|spaceId| | | |k target| | |];
    cbn [run]; unfold Listeners.restoreLandingSvg, Listeners.hidePopover, with_app,
      with_modal; cbn [w_modal w_app w_timers].
  - by rewrite tabsReset_switchScene.
  - done.
  - apply tabsReset_switchScene.
  - destruct (getCurrentSpace (model (w_app w))); [|done].
    by rewrite tabsReset_showDetail.
  - done.
  - pose proof (tabsReset_renderSpaceDetails (getCurrentSpace (model (w_app w))) tabName
                  (w_modal w) (carousel (w_app w))) as H.
    by destruct (renderSpaceDetails textContent (getCurrentSpace (model (w_app w)))
                   tabName (w_modal w, carousel (w_app w))).
  - by destruct target.
  - done.
  - done.
  - done.
  - destruct (getCurrentSpace (model (w_app w))); [|done].
    by rewrite tabsReset_showDetail.
  - done.
  - done.
  - by destruct (w_timers w).
  - done.
  - done.
Qed.

Lemma tabsReset_runs ls : ∀ w,
  setTabState false <$> modalTabs (w_modal (runs textContent ls w))
  = setTabState false <$> modalTabs (w_modal w).
Proof.
  induction ls as [|l ls IH]; intros w; [done|].
  unfold runs in *. simpl. by rewrite IH, tabsReset_run.
Qed.

Lemma overviewScene_switchScene m : overviewScene (switchScene "overview" m).
Proof.
  unfold overviewScene, switchScene. simpl. split_and!; try done.
  - by rewrite contains_add, String.eqb_refl.
  - by rewrite contains_remove, String.eqb_refl.
  - apply Forall_fmap, Forall_forall. intros t _. simpl.
    by rewrite contains_remove, String.eqb_refl.
Qed.

(** X18.  Going back to the building scene restores the modal, whatever
    happened since.  After the back button, following any sequence of
    listeners of the page: the title is empty, the system name and the
    back button are hidden, the building scene is the active one, all tabs
    are disabled, inactive and styled as disabled, and the tabs are exactly
    what the back button would have made them before that sequence; the
    overlay is not visible, the markers layer is not hidden and no marker
    is dimmed.  The hero button gives the modal the same state. *)
Theorem back_restores_overview ls w :
  overviewScene (w_modal (run textContent ModalBack (runs textContent ls w)))
  ∧ modalTabs (w_modal (run textContent ModalBack (runs textContent ls w)))
    = modalTabs (w_modal (run textContent ModalBack w))
  ∧ overviewScene (w_modal (run textContent HeroButton (runs textContent ls w)))
  ∧ modalTabs (w_modal (run textContent HeroButton (runs textContent ls w)))
    = modalTabs (w_modal (run textContent ModalBack w))
  ∧ (∀ o, page (w_app (run textContent ModalBack (runs textContent ls w)))
            !! APP_CONFIG.overlaySvg = Some o →
          contains "is-visible" (pe_classList o) = false)
  ∧ (∀ l, page (w_app (run textContent ModalBack (runs textContent ls w)))
            !! APP_CONFIG.buildingMarkersSvg = Some l →
          contains "is-hidden" (pe_classList l) = false)
  ∧ (∀ h, h ∈ pageMarkerGroups (page (w_app (runs textContent ls w))) →
          pageDimmed (page (w_app (run textContent ModalBack (runs textContent ls w)))) h
          = false).
Proof.
  set (w1 := runs textContent ls w).
  assert (Hback : ∀ w2, modalTabs (w_modal (run textContent ModalBack w2))
                        = setTabState false <$> modalTabs (w_modal w2)) by done.
  assert (Hhero : ∀ w2, modalTabs (w_modal (run textContent HeroButton w2))
                        = setTabState false <$> modalTabs (w_modal w2)) by done.
  split_and!.
  - apply overviewScene_switchScene.
  - rewrite !Hback. apply tabsReset_runs.
  - apply overviewScene_switchScene.
  - rewrite Hback, Hhero. apply tabsReset_runs.
  - intros o. simpl. rewrite restoreLandingSvg_overlay.
    destruct (page (w_app w1) !! APP_CONFIG.overlaySvg) as [o0|]; [|done].
    intros [= <-]. simpl. by rewrite contains_remove, String.eqb_refl.
  - intros l. simpl. rewrite restoreLandingSvg_markers.
    destruct (page (w_app w1) !! APP_CONFIG.buildingMarkersSvg) as [l0|]; [|done].
    intros [= <-]. simpl. by rewrite contains_remove, String.eqb_refl.
  - intros h. simpl. unfold pageMarkerGroups, pageDimmed.
    rewrite markersDocument_restoreLandingSvg.
    destruct (markersDocument (page (w_app w1))) as [d|]; [|done]. simpl.
    apply dimDocument_None_clear.
Qed.

Lemma contains_deactivate cl :
  contains "tab-content" cl = true → contains "active" (deactivate cl) = false.
Proof.
  intros H. unfold deactivate. rewrite H. by rewrite contains_remove, String.eqb_refl.
Qed.

Lemma renderProductCarousel_slides products i s :
  slides (CarouselView.renderProductCarousel textContent products) !! i = Some s →
  slide_active s = Nat.eqb i 0
  ∧ length (dots_active s) = length products
  ∧ ∀ j d, dots_active s !! j = Some d → d = Nat.eqb j i.
Proof.
  unfold CarouselView.renderProductCarousel.
  destruct (Nat.eqb (length products) 0); [done|]. simpl.
  rewrite list_lookup_imap. destruct (products !! i) as [p|]; [|done].
  intros [= <-]. simpl. split_and!; [done|by rewrite length_imap|].
  intros j d. rewrite list_lookup_imap. destruct (products !! j); [|done].
  by intros [= <-].
Qed.

(** X19.  A click on a tab, a space being selected and the three panels
    being tab contents: the panel of the tab clicked is the active one and
    no other tab content is; a tab name that is none of the three leaves no
    panel active, and a click that carries no tab name shows the overview.
    Every tab is enabled, and is active exactly when it carries the tab
    name; the header shows the name and the system name of the space.  The
    equipment tab renders the carousel anew, first slide active; the model
    is not written, so neither the index of the carousel nor [currentTab]
    follow. *)
Theorem tab_click_shows_panel w space tabName :
  getCurrentSpace (model (w_app w)) = Some space →
  contains "tab-content" (panel_classList (overviewContent (w_modal w))) = true →
  contains "tab-content" (panel_classList (systemEquipmentContent (w_modal w))) = true →
  contains "tab-content" (panel_classList (designNarrativeContent (w_modal w))) = true →
  contains "active"
    (panel_classList (overviewContent (w_modal (run textContent (ModalTab tabName) w))))
  = String.eqb (default tabs_overview tabName) tabs_overview
  ∧ contains "active"
      (panel_classList
         (systemEquipmentContent (w_modal (run textContent (ModalTab tabName) w))))
    = String.eqb (default tabs_overview tabName) tabs_equipment
  ∧ contains "active"
      (panel_classList
         (designNarrativeContent (w_modal (run textContent (ModalTab tabName) w))))
    = String.eqb (default tabs_overview tabName) tabs_narrative
  ∧ Forall (λ cl, contains "active" cl = false)
           (otherTabContents (w_modal (run textContent (ModalTab tabName) w)))
  ∧ Forall2 (λ t t', dataset_tab t' = dataset_tab t
                     ∧ disabled t' = false
                     ∧ contains "active" (tab_classList t')
                       = bool_decide (dataset_tab t = Some (default tabs_overview tabName))
                     ∧ tab_opacity t' = tab_opacity t ∧ tab_cursor t' = tab_cursor t)
            (modalTabs (w_modal w))
            (modalTabs (w_modal (run textContent (ModalTab tabName) w)))
  ∧ modalTitle (w_modal (run textContent (ModalTab tabName) w)) = space_name space
  ∧ modalSystemName (w_modal (run textContent (ModalTab tabName) w)) = systemName space
  ∧ modalSystemName_display (w_modal (run textContent (ModalTab tabName) w))
    = Some "block"
  ∧ model (w_app (run textContent (ModalTab tabName) w)) = model (w_app w)
  ∧ carousel (w_app (run textContent (ModalTab tabName) w))
    = (if String.eqb (default tabs_overview tabName) tabs_equipment
       then CarouselView.renderProductCarousel textContent (systemEquipment space)
       else carousel (w_app w))
  ∧ (default tabs_overview tabName = tabs_equipment →
     length (slides (carousel (w_app (run textContent (ModalTab tabName) w))))
     = length (systemEquipment space)
     ∧ ∀ i s,
         slides (carousel (w_app (run textContent (ModalTab tabName) w))) !! i = Some s →
         slide_active s = Nat.eqb i 0
         ∧ length (dots_active s) = length (systemEquipment space)
         ∧ ∀ j d, dots_active s !! j = Some d → d = Nat.eqb j i).
Proof.
  intros Hs Ho He Hn. cbn [run]. rewrite Hs. unfold renderSpaceDetails.
  set (tab := default tabs_overview tabName).
  assert (Htabs : Forall2 (λ t t', dataset_tab t' = dataset_tab t
                     ∧ disabled t' = false
                     ∧ contains "active" (tab_classList t')
                       = bool_decide (dataset_tab t = Some tab)
                     ∧ tab_opacity t' = tab_opacity t ∧ tab_cursor t' = tab_cursor t)
            (modalTabs (w_modal w)) (markTab tab <$> modalTabs (w_modal w))).
  { apply Forall2_fmap_r, Forall_Forall2_diag, Forall_forall. intros t _.
    unfold markTab. simpl. split_and!; try done.
    case_bool_decide.
    - by rewrite contains_add, String.eqb_refl.
    - by rewrite contains_remove, String.eqb_refl. }
  assert (Hothers : Forall (λ cl, contains "active" cl = false)
                      (remove "active" <$> otherTabContents (w_modal w))).
  { apply Forall_fmap, Forall_forall. intros cl _. simpl.
    by rewrite contains_remove, String.eqb_refl. }
  pose proof (contains_deactivate _ Ho) as Ho'.
  pose proof (contains_deactivate _ He) as He'.
  pose proof (contains_deactivate _ Hn) as Hn'.
  destruct (String.eqb_spec tab tabs_overview) as [E1|E1].
  { simpl. rewrite E1. simpl. rewrite contains_add, String.eqb_refl.
    rewrite <- E1. split_and!; try done. intros E. by rewrite E in E1. }
  destruct (String.eqb_spec tab tabs_equipment) as [E2|E2].
  { cbn [fst snd w_modal w_app carousel with_carousel model overviewContent
         systemEquipmentContent designNarrativeContent otherTabContents modalTabs
         modalTitle modalSystemName modalSystemName_display activate panel_classList].
    rewrite E2. simpl String.eqb. rewrite contains_add, String.eqb_refl.
    rewrite <- E2. split_and!; try done. intros _. split.
    - unfold CarouselView.renderProductCarousel.
      destruct (systemEquipment space); [done|]. simpl. by rewrite length_imap.
    - apply renderProductCarousel_slides. }
  destruct (String.eqb_spec tab tabs_narrative) as [E3|E3].
  { simpl. rewrite contains_add, String.eqb_refl. split_and!; done. }
  simpl. split_and!; done.
Qed.

End Markup.

End ModalFacts.

(** ** Instances of the statements above *)

Section FurtherInstances.
Import Obs Js Slug SlugObs IdObs AdapterObs DataAdapter Model SpaceView Controller
  CarouselView Binding BindingObs Overlay Events SelfTest ModalView Listeners.
Local Open Scope list_scope.

Lemma generateId_shape_witness :
  VStr "science-lab" = VBuiltin "constructor"
  ∨ ∃ t, VStr "science-lab" = VStr t ∧ wellFormed t = true
         ∧ (t = "" ↔ ∃ s, VStr "Science Lab" = VStr s ∧ s ≠ ""
                          ∧ hasAlnum (toLowerCase s) = false).
Proof. apply (generateId_shape (VStr "Science Lab")). vm_compute. reflexivity. Defined.

Lemma generateId_idempotent_witness : generateId (VStr "gym") = Ok (VStr "gym").
Proof.
  apply (generateId_idempotent (VStr "School Gym")); [vm_compute; reflexivity|].
  discriminate.
Defined.

Lemma transformSpace_output_witness :
  idShape (field "id" Sample.gymSpace) ∧ spaceLinked Sample.gymSpace.
Proof.
  destruct (transformSpace_output (λ _, Ok false) Sample.gymEntry Sample.gymSpace)
    as (Hid & Hlinked & _); [vm_compute; reflexivity|].
  exact (conj Hid Hlinked).
Defined.

Lemma rendered_renderedFor :
  renderedFor (carousel Sample.rendered) (systemEquipment Example.lobby).
Proof. exact (renderProductCarousel_renderedFor _ _). Qed.

Lemma carousel_shows_index_witness :
  showsSlide (carousel (nextProduct Sample.rendered)) 1
  ∧ renderedFor (carousel (nextProduct Sample.rendered)) (systemEquipment Example.lobby).
Proof.
  destruct (carousel_shows_index Sample.rendered Example.lobby)
    as (_ & Hshow & Hr & _);
    [reflexivity|discriminate|vm_compute; discriminate|exact rendered_renderedFor|].
  exact (conj Hshow Hr).
Defined.

Lemma carousel_round_trip_witness :
  currentProductIndex (model (prevProduct (nextProduct Sample.rendered))) = 0%Z
  ∧ currentProductIndex (model (Nat.iter 3 nextProduct Sample.rendered)) = 0%Z.
Proof.
  destruct (carousel_round_trip Sample.rendered Example.lobby)
    as (Hback & _ & Hcycle & _); [reflexivity|discriminate|vm_compute; split; [discriminate|reflexivity]|].
  exact (conj Hback Hcycle).
Defined.

Lemma loaded_fresh h n :
  Example.markersDoc !! h = Some n → getAttribute "data-gh-bound" n ≠ Some "true".
Proof.
  intros Hn.
  do 10 (destruct h as [|h]; [injection Hn as <-; discriminate|]).
  discriminate Hn.
Defined.

Lemma markersDoc_treeOrdered : treeOrdered Example.markersDoc.
Proof.
  intros h n p Hn Hp.
  do 10 (destruct h as [|h];
         [injection Hn as <-; simpl in Hp; try discriminate Hp;
          injection Hp as <-; lia|]).
  discriminate Hn.
Defined.

Lemma loaded_unselected : unselected (page Sample.loaded).
Proof.
  split_and!.
  - intros o Ho. vm_compute in Ho. injection Ho as <-. by split.
  - intros l Hl. vm_compute in Hl. by injection Hl as <-.
  - intros h Hh.
    assert (pageMarkerGroups (page Sample.loaded) = [3; 6]) as E by (by vm_compute).
    rewrite E in Hh. apply elem_of_cons in Hh as [->|Hh]; [by vm_compute|].
    apply elem_of_cons in Hh as [->|Hh]; [by vm_compute|]. by apply elem_of_nil in Hh.
Defined.

Lemma select_then_restore_witness :
  foldr timeout (fst (restore (handleMarkerClick "lobby" Sample.loaded)))
        (snd (restore (handleMarkerClick "lobby" Sample.loaded)))
  = with_model (setCurrentSpace "lobby") Sample.loaded.
Proof.
  apply select_then_restore; [|exact loaded_unselected].
  apply elem_of_cons. by left.
Defined.

Lemma restore_timer_after_selection_witness :
  pe_data <$>
    page (foldr timeout (handleMarkerClick "gym" (fst (restore Sample.loaded)))
            (snd (restore Sample.loaded))) !! APP_CONFIG.overlaySvg
  = Some None.
Proof.
  destruct (restore_timer_after_selection Sample.loaded "gym" (mkPageElement [] None None))
    as (o & Ho & _ & Hdata & _).
  - apply elem_of_cons. right. apply elem_of_cons. by left.
  - by vm_compute.
  - rewrite Ho. simpl. by rewrite Hdata.
Defined.

Lemma attachSvgHandlers_rerun_witness :
  clickListeners (attachSvgHandlers APP_CONFIG.buildingMarkersSvg Sample.wired)
  = clickListeners Sample.wired.
Proof.
  destruct (attachSvgHandlers_rerun APP_CONFIG.buildingMarkersSvg Sample.loaded
              (mkPageElement [] None (Some Example.markersDoc)) Example.markersDoc)
    as (d1 & _ & _ & _ & Hclicks & _).
  - by vm_compute.
  - reflexivity.
  - intros h Hh. by apply elem_of_nil in Hh.
  - exact Hclicks.
Defined.

Lemma click_runs_nearest_binding_witness :
  dispatchClick 1 4 Sample.wired = (handleMarkerClick "lobby" Sample.wired, []).
Proof.
  destruct (click_runs_nearest_binding Sample.loaded
              (mkPageElement [] None (Some Example.markersDoc)) Example.markersDoc)
    as (Hnear & _).
  - by vm_compute.
  - reflexivity.
  - reflexivity.
  - reflexivity.
  - exact loaded_fresh.
  - exact markersDoc_treeOrdered.
  - apply (Hnear 4 3 "lobby" 1).
    eapply (nearest_up _ _ 4 _ 3); [reflexivity|by vm_compute|reflexivity|].
    eapply (nearest_here _ _ 3); [reflexivity|by vm_compute].
Defined.

Lemma testVisibilityLogic_passes_witness :
  fst (testVisibilityLogic (page Sample.wired)) = Ok true.
Proof.
  destruct (testVisibilityLogic_passes (page Sample.wired)
              (default [] (markersDocument (page Sample.wired))) 3)
    as (Hpass & _).
  - by vm_compute.
  - by vm_compute.
  - destruct (Hpass 6) as [-> _]; [by vm_compute| | | | |done].
    + assert (markerGroups (default [] (markersDocument (page Sample.wired))) = [3; 6])
        as -> by (by vm_compute).
      apply elem_of_cons. by left.
    + assert (markerGroups (default [] (markersDocument (page Sample.wired))) = [3; 6])
        as -> by (by vm_compute).
      apply elem_of_cons. right. apply elem_of_cons. by left.
    + unfold initialized.
      assert (children_with_tag (default [] (markersDocument (page Sample.wired))) 3 "g"
              = [4; 5]) as -> by (by vm_compute).
      split_and!; [by vm_compute..|]. repeat constructor; by vm_compute.
    + assert (children_with_tag (default [] (markersDocument (page Sample.wired))) 3 "g"
              = [4; 5]) as -> by (by vm_compute).
      discriminate.
Defined.

Lemma runMarkerClickTest_passes_witness :
  ∃ a', runMarkerClickTest 1 ["lobby"; "kitchen"; "gym"] Sample.wired
        = ([("lobby", status_ok); ("kitchen", status_missing); ("gym", status_ok)],
           a', []).
Proof.
  apply (runMarkerClickTest_passes Sample.loaded
           (mkPageElement [] None (Some Example.markersDoc)) Example.markersDoc
           (mkPageElement [] None None)).
  - by vm_compute.
  - reflexivity.
  - reflexivity.
  - reflexivity.
  - exact loaded_fresh.
  - by vm_compute.
  - apply Forall_cons_2; [|apply Forall_cons_2; [|apply Forall_cons_2; [|constructor]]].
    + right. exists 3. split_and!; [by vm_compute|by vm_compute|].
      apply elem_of_cons. by left.
    + left. by vm_compute.
    + right. exists 6. split_and!; [by vm_compute|by vm_compute|].
      apply elem_of_cons. right. apply elem_of_cons. by left.
Defined.

Lemma listeners_keep_witness :
  keeps Sample.loaded (w_app (runs (λ title, title) Sample.visit Sample.world))
  ∧ currentSpaceId (model (w_app (runs (λ title, title) Sample.visit Sample.world)))
    = Some "lobby".
Proof.
  split; [|reflexivity].
  apply (listeners_keep (λ title, title) Sample.visit Sample.world);
    [reflexivity|reflexivity|done].
Defined.

Lemma dot_clicks_change_nothing_witness :
  runs (λ title, title) Sample.visit Sample.world
  = runs (λ title, title) (List.filter notDot Sample.visit) Sample.world
  ∧ currentProductIndex
      (model (w_app (run (λ title, title) (CarouselDot 2)
                       (runs (λ title, title) Sample.visit Sample.world))))
    = 1%Z.
Proof.
  destruct (dot_clicks_change_nothing (λ title, title) Sample.visit Sample.world)
    as [Hsame Hdot]; [reflexivity|reflexivity|done|].
  split; [exact Hsame|].
  exact (eq_trans
           (f_equal (λ w, currentProductIndex (model (w_app w))) (proj1 (Hdot 2%Z)))
           eq_refl).
Defined.

(** C5, where the code departs from it.  A visitor steps twice through the
    three units of the lobby, then selects the gym, which has one unit, and
    opens its equipment: the index is still 2, outside [0, 1), while the
    carousel shows slide 0; one step back makes the index 1, still outside,
    and leaves no slide and no dot active; only a step forward brings the
    index back to 0.  And a click on a dot, in any of these states, throws
    and leaves the index as it is. *)
Theorem carousel_index_defects :
  let w := runs (λ title, title) Sample.twoSpaces Sample.world in
  let back := run (λ title, title) (CarouselClick onPrevButton) w in
  let forth := run (λ title, title) (CarouselClick onNextButton) w in
  (length ∘ systemEquipment) <$> getCurrentSpace (model (w_app w)) = Some 1
  ∧ currentProductIndex (model (w_app w)) = 2%Z
  ∧ slide_active <$> slides (carousel (w_app w)) = [true]
  ∧ currentProductIndex (model (w_app back)) = 1%Z
  ∧ slide_active <$> slides (carousel (w_app back)) = [false]
  ∧ dots_active <$> slides (carousel (w_app back)) = [[false]]
  ∧ currentProductIndex (model (w_app forth)) = 0%Z
  ∧ currentProductIndex (model (fst (dotClick 0 (w_app w)))) = 2%Z
  ∧ snd (dotClick 0 (w_app w))
    = Thrown "TypeError: Cannot set properties of undefined (setting 'currentProductIndex')"
  ∧ run (λ title, title) (CarouselDot 0) w = w.
Proof. vm_compute. done. Qed.

Lemma tab_click_shows_panel_witness :
  contains "active"
    (panel_classList
       (systemEquipmentContent
          (w_modal (run (λ title, title) (ModalTab (Some "system-equipment"))
                      (run (λ title, title) (Marker "lobby") Sample.world)))))
  = true
  ∧ contains "active"
      (panel_classList
         (overviewContent
            (w_modal (run (λ title, title) (ModalTab (Some "system-equipment"))
                        (run (λ title, title) (Marker "lobby") Sample.world)))))
    = false.
Proof.
  destruct (tab_click_shows_panel (λ title, title)
              (run (λ title, title) (Marker "lobby") Sample.world)
              Example.lobby (Some "system-equipment"))
    as (Hov & Heq & _); [reflexivity..|].
  exact (conj Heq Hov).
Defined.

Lemma switching_is_seamless_witness :
  handleMarkerClick "gym" (handleMarkerClick "lobby" Sample.loaded)
  = handleMarkerClick "gym" Sample.loaded.
Proof.
  assert (Hknown : "gym" ∈ space_id <$> spaces (model Sample.loaded)).
  { apply elem_of_cons. right. apply elem_of_cons. by left. }
  exact (proj1 (switching_is_seamless Sample.loaded "lobby" "gym" Hknown
                  (proj2 (proj2 loaded_unselected)))).
Defined.

End FurtherInstances.
